(** * vmtest: the QEMU console interaction engine

    A shallow embedding of [qemu.go] of anatol/vmtest: the stream pump
    ([consolePump]), the expectation matcher ([consoleProcess],
    [ConsoleExpect], [ConsoleExpectRE]), the launch operation ([NewQemu])
    and the two termination calls ([Kill], [Shutdown]).  The pump and the
    matcher are the same in both revisions of the file; the lifecycle of
    the earlier revision, which ends a session with [Stop], is in module
    [Earlier].

    Go's [[]byte] is [list byte], Go's [string] is [string], an [int] index
    that may be [-1] is a [Z], lengths are [nat].  The pump and the matcher
    run concurrently; every access to the shared fields happens in a
    critical section of [consolePumpMutex] (or is a single flag store), so
    the system is modelled as an interleaving of these atomic sections. *)

From Stdlib.Strings Require Import Ascii String Byte.
From Stdlib Require Import DecimalString List Bool Arith ZArith Lia.
Import ListNotations.

Local Open Scope Z_scope.

(** ** The functions of Go's [bytes] package that the code calls *)

Module GoBytes.

Definition bytes := list byte.

(** [[]byte(str)] and [string(b)] *)
Definition of_string (s : string) : bytes := list_byte_of_string s.
Definition to_string (b : bytes) : string := string_of_list_byte b.

(** [len(s)] as a Go [int] *)
Definition len (s : bytes) : Z := Z.of_nat (length s).

(** [s[:i]] and [s[i:]]; the code only slices within bounds *)
Definition upto (s : bytes) (i : Z) : bytes := firstn (Z.to_nat i) s.
Definition from (s : bytes) (i : Z) : bytes := skipn (Z.to_nat i) s.

(** [bytes.IndexByte]: index of the first [c] in [s], or [-1] *)
Fixpoint IndexByte (s : bytes) (c : byte) : Z :=
  match s with
  | [] => -1
  | x :: t =>
      if Byte.eqb x c then 0
      else let i := IndexByte t c in if i =? -1 then -1 else i + 1
  end.

(** [bytes.LastIndexByte]: index of the last [c] in [s], or [-1] *)
Fixpoint LastIndexByte (s : bytes) (c : byte) : Z :=
  match s with
  | [] => -1
  | x :: t =>
      let i := LastIndexByte t c in
      if i =? -1 then (if Byte.eqb x c then 0 else -1) else i + 1
  end.

Fixpoint HasPrefix (s prefix : bytes) : bool :=
  match prefix, s with
  | [], _ => true
  | _ :: _, [] => false
  | a :: p, x :: t => Byte.eqb x a && HasPrefix t p
  end.

(** [bytes.Contains]: whether [sub] occurs in [s] as a contiguous run *)
Fixpoint Contains (s sub : bytes) : bool :=
  HasPrefix s sub ||
  match s with
  | [] => false
  | _ :: t => Contains t sub
  end.

(** the builtin [copy(dst, src)]: overwrites the first
    [min(len(dst), len(src))] bytes of [dst] *)
Definition copy (dst src : bytes) : bytes :=
  firstn (length dst) src ++ skipn (length src) dst.

End GoBytes.

Import GoBytes.

(** ** Errors, the [Qemu] structure and the process environment *)

(** Go [error] values; the [nil] error is [None] of [option error]. *)
Inductive error : Type :=
| io_EOF
| errorString (msg : string).

Definition Error (e : error) : string :=
  match e with
  | io_EOF => "EOF"
  | errorString msg => msg
  end.

(** The fields of [Qemu] that hold data.  The operating-system handles of
    the structure ([cmd], [waitCh], the two listeners, the two connections
    and [ctxCancel]) exist once per session; the effect traces further down
    name them by the constructors of [handle]. *)
Record Qemu : Type := mkQemu {
  socketsDir : string;
  consoleDataEOF : bool;
  consoleData : bytes;
  consoleDataArrived : bool;
  verbose : bool
}.

Definition set_consoleData (q : Qemu) (d : bytes) (arrived : bool) : Qemu :=
  {| socketsDir := socketsDir q;
     consoleDataEOF := consoleDataEOF q;
     consoleData := d;
     consoleDataArrived := arrived;
     verbose := verbose q |}.

Definition set_consoleDataEOF (q : Qemu) (e : bool) : Qemu :=
  {| socketsDir := socketsDir q;
     consoleDataEOF := e;
     consoleData := consoleData q;
     consoleDataArrived := consoleDataArrived q;
     verbose := verbose q |}.

(** the [&Qemu{...}] literal of [NewQemu]: the data fields start zeroed *)
Definition Qemu_new (tempDir : string) (verbose : bool) : Qemu :=
  {| socketsDir := tempDir;
     consoleDataEOF := false;
     consoleData := [];
     consoleDataArrived := false;
     verbose := verbose |}.

(** What the pump and the matcher act on: the session, the bytes written
    to [os.Stdout] and the lines handed to package [log]. *)
Record World : Type := mkWorld {
  qemu : Qemu;
  stdout : bytes;
  logged : list string
}.

Definition with_qemu (w : World) (q : Qemu) : World :=
  {| qemu := q; stdout := stdout w; logged := logged w |}.

Definition Stdout_Write (w : World) (p : bytes) : World :=
  {| qemu := qemu w; stdout := stdout w ++ p; logged := logged w |}.

Definition log_Print (w : World) (line : string) : World :=
  {| qemu := qemu w; stdout := stdout w; logged := logged w ++ [line] |}.

(** One call of [q.console.Read]: the bytes it stored and its error. *)
Record ReadResult : Type := mkRead {
  rdata : bytes;
  rerr : option error
}.

Definition ESC : byte := x1b.
Definition NL : byte := x0a.

(** ** The stream pump and the expectation matcher *)

Section Console.

(** Package [regexp] is not part of the repository: its type and the two
    methods the code calls are parameters, as is the compiled [ansiRe]
    (the two revisions of [qemu.go] differ in its pattern only). *)
Variable Regexp : Type.
Variable ReplaceAll : Regexp -> bytes -> bytes -> bytes.
Variable FindAllSubmatch : Regexp -> bytes -> Z -> list (list bytes).
Variable ansiRe : Regexp.

(** *** [consolePump] *)

(** the locals of [consolePump] that live across iterations *)
Record PumpFrame : Type := mkFrame {
  buf : bytes;        (* var buf [4096]byte *)
  dataLength : Z
}.

Definition pumpEntry : PumpFrame :=
  {| buf := repeat x00 4096; dataLength := 0 |}.

Definition asciiSeqMaxLength : Z := 30.

(** [q.console.Read(buf[dataLength:])]: the bytes read land in [buf]
    from offset [dataLength] on *)
Definition console_Read (fr : PumpFrame) (r : ReadResult) : bytes :=
  upto (buf fr) (dataLength fr) ++ copy (from (buf fr) (dataLength fr)) (rdata r).

(** [toPrint := buf[:dataLength]] after [dataLength += num] *)
Definition readChunk (fr : PumpFrame) (r : ReadResult) : bytes :=
  upto (console_Read fr r) (dataLength fr + len (rdata r)).

(** the block under [if bytes.Contains(toPrint, []byte{'\x1b'})]; it
    yields the new [buf], [dataLength] and [toPrint] *)
Definition stripEscapes (buf0 toPrint0 : bytes) : bytes * Z * bytes :=
  if Contains toPrint0 [ESC] then
    let toPrint := ReplaceAll ansiRe toPrint0 [] in
    let asciiStart := LastIndexByte toPrint ESC in
    if negb (asciiStart =? -1) && (len toPrint - asciiStart <? asciiSeqMaxLength) then
      (copy buf0 (from toPrint asciiStart),
       len toPrint - asciiStart,
       upto toPrint asciiStart)
    else (buf0, 0, toPrint)
  else (buf0, 0, toPrint0).

(** the body of [if num > 0] *)
Definition pumpDeliver (verbose : bool) (r : ReadResult)
    (fr : PumpFrame) (w : World) : PumpFrame * World :=
  let '(buf', dataLength', toPrint) :=
    stripEscapes (console_Read fr r) (readChunk fr r) in
  let w := if verbose then Stdout_Write w toPrint else w in
  let q := qemu w in
  let w := with_qemu w (set_consoleData q (consoleData q ++ toPrint) true) in
  ({| buf := buf'; dataLength := dataLength' |}, w).

(** One iteration of the [for] loop of [consolePump]; [None] for the
    frame means that the function returned. *)
Definition consolePump_iter (verbose : bool) (r : ReadResult)
    (fr : PumpFrame) (w : World) : option PumpFrame * World :=
  let num := len (rdata r) in
  let '(fr, w) := if 0 <? num then pumpDeliver verbose r fr w else (fr, w) in
  match rerr r with
  | Some err =>
      match err with
      | io_EOF => (None, with_qemu w (set_consoleDataEOF (qemu w) true))
      | _ => (None, log_Print w (Error err))
      end
  | None => (Some fr, w)  (* if num == 0 { time.Sleep(50ms) } *)
  end.

(** [consolePump] over the successive results of [Read] *)
Fixpoint consolePump (verbose : bool) (rs : list ReadResult)
    (fr : PumpFrame) (w : World) : option PumpFrame * World :=
  match rs with
  | [] => (Some fr, w)
  | r :: rs' =>
      match consolePump_iter verbose r fr w with
      | (Some fr', w') => consolePump verbose rs' fr' w'
      | (None, w') => (None, w')
      end
  end.

(** *** [consoleProcess] *)

(** [LineProcessor]: a Go closure [func(data []byte) bool].  The
    variables it captures are the state [A], threaded through the calls;
    [None] is a run-time panic inside the closure. *)
Definition LineProcessor (A : Type) : Type := A -> bytes -> option (bool * A).

(** how the inner [for] loop of [consoleProcess] is left *)
Inductive LoopExit (A : Type) : Type :=
| Matched (buf : bytes) (st : A)   (* processor returned true *)
| Break (buf : bytes) (st : A)     (* [if !newLine { break }] *)
| Panic.
Arguments Matched {A}.
Arguments Break {A}.
Arguments Panic {A}.

(** the inner [for] loop; it runs once per line of [buf], so
    [S (length buf)] iterations always suffice (see [lineLoop_eq]) *)
Fixpoint lineLoop_fuel {A} (fuel : nat) (processor : LineProcessor A)
    (buf : bytes) (st : A) : LoopExit A :=
  match fuel with
  | O => Break buf st
  | S fuel' =>
      let idx := IndexByte buf NL in
      let newLine := negb (idx =? -1) in
      let idx := if newLine then idx + 1 else len buf in
      let toProcess := upto buf idx in
      let buf := if newLine then from buf idx else buf in
      match processor st toProcess with
      | None => Panic
      | Some (matched, st) =>
          if matched then Matched buf st
          else if negb newLine then Break buf st
          else lineLoop_fuel fuel' processor buf st
      end
  end.

Definition lineLoop {A} (processor : LineProcessor A) (buf : bytes) (st : A)
    : LoopExit A :=
  lineLoop_fuel (S (length buf)) processor buf st.

(** Where a call of [consoleProcess] stands between two critical
    sections of [consolePumpMutex]. *)
Inductive Call (A : Type) : Type :=
| Polling (buf : bytes) (st : A)    (* at the head of the outer loop *)
| Requeue (buf : bytes) (st : A)    (* matched; about to put [buf] back *)
| Returned (err : option error) (st : A)
| Panicked.
Arguments Polling {A}.
Arguments Requeue {A}.
Arguments Returned {A}.
Arguments Panicked {A}.

(** [var buf []byte] on entry *)
Definition consoleProcess_entry {A} (st : A) : Call A := Polling [] st.

(** From one critical section of [consoleProcess] to the next. *)
Definition consoleProcess_step {A} (processor : LineProcessor A)
    (c : Call A) (q : Qemu) : Call A * Qemu :=
  match c with
  | Polling buf st =>
      let buf := buf ++ consoleData q in
      let newDataArrived := consoleDataArrived q in
      let consoleDataEOF := consoleDataEOF q in
      let q := set_consoleData q [] false in
      if newDataArrived then
        match lineLoop processor buf st with
        | Matched buf st => (Requeue buf st, q)
        | Break buf st => (Polling buf st, q)
        | Panic => (Panicked, q)
        end
      else if consoleDataEOF then (Returned (Some io_EOF) st, q)
      else (Polling buf st, q)   (* time.Sleep(50ms) *)
  | Requeue buf st =>
      (Returned None st, set_consoleData q (buf ++ consoleData q) true)
  | Returned _ _ | Panicked => (c, q)
  end.

(** *** [ConsoleExpect] and [ConsoleExpectRE] *)

(** the closure [p] of [ConsoleExpect]; it captures nothing it changes *)
Definition ConsoleExpect_p (str : string) : LineProcessor unit :=
  fun _ data => Some (Contains data (of_string str), tt).

(** the [for _, s := range m] loop of the closure of [ConsoleExpectRE];
    [s[1]] panics when the match has no second entry *)
Fixpoint appendGroups (matches : list string) (m : list (list bytes))
    : option (list string) :=
  match m with
  | [] => Some matches
  | s :: m' =>
      match nth_error s 1 with
      | Some g => appendGroups (matches ++ [to_string g]) m'
      | None => None
      end
  end.

(** the closure [p] of [ConsoleExpectRE]; it captures [matches] *)
Definition ConsoleExpectRE_p (re : Regexp) : LineProcessor (list string) :=
  fun matches data =>
    let m := FindAllSubmatch re data (-1) in
    match m with
    | [] => Some (false, matches)
    | _ :: _ =>
        match appendGroups matches m with
        | Some matches => Some (true, matches)
        | None => None
        end
    end.

(** what [ConsoleExpect] returns once [consoleProcess] has returned *)
Definition ConsoleExpect_result (c : Call unit) : option (option error) :=
  match c with
  | Returned err _ => Some err
  | _ => None
  end.

(** what [ConsoleExpectRE] returns once [consoleProcess] has returned *)
Definition ConsoleExpectRE_result (c : Call (list string))
    : option (list string * option error) :=
  match c with
  | Returned (Some err) _ => Some ([], Some err)
  | Returned None matches => Some (matches, None)
  | _ => None
  end.

(** *** The pump and the calling goroutine, interleaved *)

(** The caller is inside at most one call of [consoleProcess] at a time;
    [None] before its first call. *)
Record System (A : Type) : Type := mkSystem {
  pump : option PumpFrame;     (* [None] once [consolePump] returned *)
  world : World;
  caller : option (LineProcessor A * Call A)
}.
Arguments mkSystem {A}.
Arguments pump {A}.
Arguments world {A}.
Arguments caller {A}.

Inductive event (A : Type) : Type :=
| EvPump (r : ReadResult)
    (* the pump runs one iteration, [Read] gives [r] *)
| EvCall (processor : LineProcessor A) (st : A)
    (* the caller, not inside a call, enters [consoleProcess] *)
| EvStep.
    (* the caller runs to the end of its next critical section *)
Arguments EvPump {A}.
Arguments EvCall {A}.
Arguments EvStep {A}.

Definition sys_step {A} (verbose : bool) (s : System A) (e : event A)
    : System A :=
  match e with
  | EvPump r =>
      match pump s with
      | Some fr =>
          let '(fr', w') := consolePump_iter verbose r fr (world s) in
          {| pump := fr'; world := w'; caller := caller s |}
      | None => s
      end
  | EvCall processor st =>
      match caller s with
      | Some (_, Polling _ _) | Some (_, Requeue _ _) => s
      | _ => {| pump := pump s; world := world s;
                caller := Some (processor, consoleProcess_entry st) |}
      end
  | EvStep =>
      match caller s with
      | Some (processor, c) =>
          let '(c', q') := consoleProcess_step processor c (qemu (world s)) in
          {| pump := pump s; world := with_qemu (world s) q';
             caller := Some (processor, c') |}
      | None => s
      end
  end.

Definition sys_run {A} (verbose : bool) (s : System A) (sched : list (event A))
    : System A :=
  fold_left (sys_step verbose) sched s.

(** the session right after [NewQemu]: the pump about to start, nothing
    buffered, no call made *)
Definition sys_entry {A} (q : Qemu) : System A :=
  {| pump := Some pumpEntry;
     world := {| qemu := q; stdout := []; logged := [] |};
     caller := None |}.

(** the two public waits as events of the caller *)
Definition ConsoleExpect (str : string) : event unit :=
  EvCall (ConsoleExpect_p str) tt.

Definition ConsoleExpectRE (re : Regexp) : event (list string) :=
  EvCall (ConsoleExpectRE_p re) [].

End Console.

Arguments Matched {A}.
Arguments Break {A}.
Arguments Panic {A}.
Arguments Polling {A}.
Arguments Requeue {A}.
Arguments Returned {A}.
Arguments Panicked {A}.
Arguments mkSystem {A}.
Arguments pump {A}.
Arguments world {A}.
Arguments caller {A}.
Arguments EvPump {A}.
Arguments EvCall {A}.
Arguments EvStep {A}.

(** ** Package [regexp], as far as the code and its tests use it

    A model of Go's [regexp] for byte input in which every byte is one
    character (ASCII): leftmost match, and among the leftmost matches the
    one a backtracking search finds first.  It instantiates the parameters
    of the section above wherever a statement is evaluated on concrete
    input. *)

Module GoRegexp.

(** a compiled pattern *)
Inductive Regexp : Type :=
| Empty
| Lit (c : byte)
| Class (ranges : list (byte * byte))   (* [a-bc-d...] *)
| AnyCharNotNL                          (* . *)
| Cat (r1 r2 : Regexp)
| Alt (r1 r2 : Regexp)
| Star (r : Regexp)                     (* r*, greedy *)
| Capture (i : nat) (r : Regexp).       (* the i-th parenthesis, i >= 1 *)

Definition Plus (r : Regexp) : Regexp := Cat r (Star r).

(** a literal string *)
Fixpoint Str_bytes (s : bytes) : Regexp :=
  match s with
  | [] => Empty
  | [c] => Lit c
  | c :: t => Cat (Lit c) (Str_bytes t)
  end.
Definition Str (s : string) : Regexp := Str_bytes (of_string s).

(** [\d] *)
Definition Digit : Regexp := Class [("0"%byte, "9"%byte)].

Fixpoint NumSubexp (r : Regexp) : nat :=
  match r with
  | Empty | Lit _ | Class _ | AnyCharNotNL => 0%nat
  | Cat r1 r2 | Alt r1 r2 => Nat.max (NumSubexp r1) (NumSubexp r2)
  | Star r' => NumSubexp r'
  | Capture i r' => Nat.max i (NumSubexp r')
  end.

Definition inRange (c : byte) (lohi : byte * byte) : bool :=
  (Byte.to_N (fst lohi) <=? Byte.to_N c)%N && (Byte.to_N c <=? Byte.to_N (snd lohi))%N.

(** capture registers: entry [i] is the span of group [i], [0] the match *)
Definition caps : Type := list (option (nat * nat)).

Fixpoint set_cap (i : nat) (span : nat * nat) (c : caps) : caps :=
  match i, c with
  | _, [] => []
  | O, _ :: t => Some span :: t
  | S i', h :: t => h :: set_cap i' span t
  end.

(** backtracking match of [r] on the rest [s] of the input, which starts
    at offset [pos]; [k] is what has to match afterwards *)
Fixpoint run (r : Regexp) (s : bytes) (pos : nat) (c : caps)
    (k : bytes -> nat -> caps -> option (nat * caps)) {struct r}
    : option (nat * caps) :=
  match r with
  | Empty => k s pos c
  | Lit x =>
      match s with
      | y :: t => if Byte.eqb y x then k t (S pos) c else None
      | [] => None
      end
  | Class ranges =>
      match s with
      | y :: t => if existsb (inRange y) ranges then k t (S pos) c else None
      | [] => None
      end
  | AnyCharNotNL =>
      match s with
      | y :: t => if Byte.eqb y NL then None else k t (S pos) c
      | [] => None
      end
  | Cat r1 r2 => run r1 s pos c (fun s' pos' c' => run r2 s' pos' c' k)
  | Alt r1 r2 =>
      match run r1 s pos c k with
      | Some res => Some res
      | None => run r2 s pos c k
      end
  | Star r' =>
      (fix loop (fuel : nat) (s : bytes) (pos : nat) (c : caps) {struct fuel}
         : option (nat * caps) :=
         match fuel with
         | O => k s pos c
         | S fuel' =>
             match run r' s pos c
                     (fun s' pos' c' =>
                        if (pos <? pos')%nat then loop fuel' s' pos' c' else None) with
             | Some res => Some res
             | None => k s pos c
             end
         end) (length s) s pos c
  | Capture i r' =>
      run r' s pos c (fun s' pos' c' => k s' pos' (set_cap i (pos, pos') c'))
  end.

(** [doExecute]: the leftmost match that starts at [pos] or later; [s] is
    the input from [pos] on.  The result is the register list, entry 0
    set to the span of the match. *)
Fixpoint doExecute (r : Regexp) (s : bytes) (pos : nat) : option caps :=
  match run r s pos (repeat None (S (NumSubexp r)))
            (fun _ e c => Some (e, c)) with
  | Some (e, c) => Some (set_cap 0 (pos, e) c)
  | None =>
      match s with
      | [] => None
      | _ :: t => doExecute r t (S pos)
      end
  end.

Definition span_start (c : caps) : nat :=
  match c with Some (a, _) :: _ => a | _ => O end.
Definition span_end (c : caps) : nat :=
  match c with Some (_, e) :: _ => e | _ => O end.

(** [allMatches]: successive matches; an empty match right after the
    previous match is skipped; [n] bounds the number delivered *)
Fixpoint allMatches (fuel : nat) (r : Regexp) (b : bytes)
    (pos : nat) (i n : nat) (prevMatchEnd : Z) : list caps :=
  match fuel with
  | O => []
  | S fuel' =>
      if (i <? n)%nat && (pos <=? length b)%nat then
        match doExecute r (skipn pos b) pos with
        | None => []
        | Some matches =>
            let empty := (span_end matches =? pos)%nat in
            let accept :=
              negb (empty && (Z.of_nat (span_start matches) =? prevMatchEnd)) in
            let pos' :=
              if empty
              then (if (pos <? length b)%nat then S pos else S (length b))
              else span_end matches in
            let prevMatchEnd := Z.of_nat (span_end matches) in
            if accept
            then matches :: allMatches fuel' r b pos' (S i) n prevMatchEnd
            else allMatches fuel' r b pos' i n prevMatchEnd
        end
      else []
  end.

(** the slices of [b] a register list stands for; an unset group is the
    nil slice *)
Definition slices (b : bytes) (c : caps) : list bytes :=
  map (fun sp => match sp with
                 | Some (a, e) => firstn (e - a) (skipn a b)
                 | None => []
                 end) c.

(** [re.FindAllSubmatch(b, n)]; the nil result is [[]] *)
Definition FindAllSubmatch (r : Regexp) (b : bytes) (n : Z) : list (list bytes) :=
  let n := if n <? 0 then S (length b) else Z.to_nat n in
  map (slices b) (allMatches (length b + 2) r b 0 0 n (-1)).

(** the loop of [replaceAll] for a replacement without [$] *)
Fixpoint replaceAll (fuel : nat) (r : Regexp) (src repl : bytes)
    (searchPos lastMatchEnd : nat) (out : bytes) : bytes :=
  match fuel with
  | O => out ++ skipn lastMatchEnd src
  | S fuel' =>
      if (searchPos <=? length src)%nat then
        match doExecute r (skipn searchPos src) searchPos with
        | None => out ++ skipn lastMatchEnd src
        | Some a =>
            let a0 := span_start a in
            let a1 := span_end a in
            let out := out ++ firstn (a0 - lastMatchEnd) (skipn lastMatchEnd src) in
            let out :=
              if (lastMatchEnd <? a1)%nat || (a0 =? 0)%nat then out ++ repl else out in
            let width := if (searchPos <? length src)%nat then 1%nat else 0%nat in
            let searchPos' :=
              if (a1 <? searchPos + width)%nat then (searchPos + width)%nat
              else if (a1 <? searchPos + 1)%nat then (searchPos + 1)%nat
              else a1 in
            replaceAll fuel' r src repl searchPos' a1 out
        end
      else out ++ skipn lastMatchEnd src
  end.

(** [re.ReplaceAll(src, repl)] *)
Definition ReplaceAll (r : Regexp) (src repl : bytes) : bytes :=
  replaceAll (length src + 2) r src repl 0 0 [].

(** [re.ReplaceAllString(src, repl)] *)
Definition ReplaceAllString (r : Regexp) (src repl : string) : string :=
  to_string (ReplaceAll r (of_string src) (of_string repl)).

(** [ansiRe] of [qemu.go]: [\x1b(\[[0-9;]*m|c|\[\?7l|\[2J)] *)
Definition ansiRe_v1 : Regexp :=
  Cat (Lit ESC)
    (Capture 1
       (Alt (Cat (Lit "["%byte)
               (Cat (Star (Class [("0"%byte, "9"%byte); (";"%byte, ";"%byte)]))
                  (Lit "m"%byte)))
       (Alt (Lit "c"%byte)
       (Alt (Str "[?7l")
            (Str "[2J"))))).

(** [ansiRe] of the later revision:
    [\x1b(c|M|\[(\d+;\d+H|=3h|[\d;]+m|\?7l|2J|K))] *)
Definition ansiRe : Regexp :=
  Cat (Lit ESC)
    (Capture 1
       (Alt (Lit "c"%byte)
       (Alt (Lit "M"%byte)
            (Cat (Lit "["%byte)
               (Capture 2
                  (Alt (Cat (Plus Digit) (Cat (Lit ";"%byte) (Cat (Plus Digit) (Lit "H"%byte))))
                  (Alt (Str "=3h")
                  (Alt (Cat (Plus (Class [("0"%byte, "9"%byte); (";"%byte, ";"%byte)]))
                          (Lit "m"%byte))
                  (Alt (Str "?7l")
                  (Alt (Str "2J")
                       (Lit "K"%byte))))))))))).

End GoRegexp.

(** ** The session lifecycle: [NewQemu], [wait], [Kill], [Shutdown]

    These functions act on the operating system only.  Each is a function
    from what the system answers (an environment record) to the sequence
    of calls made, in order, and the value returned. *)

Module Lifecycle.

Local Open Scope string_scope.
Local Open Scope list_scope.

(** Go's [+] on strings *)
Infix "+++" := String.append (right associativity, at level 60).

Definition QemuArchitecture := string.
Definition QEMU_ARM : QemuArchitecture := "arm".
Definition QEMU_X86_64 : QemuArchitecture := "x86_64".

Inductive OperatingSystem : Type := OS_OTHER | OS_LINUX.

Record QemuDisk : Type := mkDisk {
  Path : string;
  Format : string;
  Controller : string;
  DeviceParams : list string
}.

Record QemuOptions : Type := mkOptions {
  Architecture : QemuArchitecture;
  OperatingSystem_ : OperatingSystem;
  Params : list string;
  Verbose : bool;
  Timeout : Z;                (* time.Duration, nanoseconds *)
  Kernel : string;
  InitRamFs : string;
  Disks : list QemuDisk;
  Append : list string;
  CdRom : string
}.

(** [30 * time.Second] *)
Definition qemuDefaultTimeout : Z := 30 * 1000000000.

(** the handles a session owns *)
Inductive handle : Type :=
| console | consoleListener | monitor | monitorListener.

(** the calls that reach outside the program *)
Inductive action : Type :=
| TempDir (dir pattern : string)             (* ioutil.TempDir *)
| Listen (l : handle) (file : string)        (* net.Listen("unix", file) *)
| LogPrintf (line : string)                  (* log.Printf *)
| WithTimeout (d : Z)                        (* context.WithTimeout *)
| Start (binary : string) (args : list string) (stdio : bool)  (* cmd.Start *)
| GoWait                                     (* go func() { cmd.Wait() ... }() *)
| CmdWait                                    (* cmd.Wait(), blocking *)
| Accept (l : handle)                        (* listener.Accept *)
| PollWaitCh                                 (* select { case <-waitCh: default: } *)
| RecvWaitCh                                 (* <-q.waitCh, blocking *)
| CtxCancel                                  (* ctxCancel() *)
| GoConsolePump (verbose : bool)             (* go qemu.consolePump(verbose) *)
| Write (c : handle) (data : bytes)          (* conn.Write *)
| Close (h : handle)
| RemoveAll (path : string).                 (* os.RemoveAll *)

(** what the operating system answers during [NewQemu] *)
Record StartEnv : Type := mkStartEnv {
  env_TempDir : string * option error;
  env_ListenMonitor : option error;
  env_ListenConsole : option error;
  env_Start : option error;
  env_AcceptMonitor : option error;
  env_AcceptConsole : option error;
  (* the value the [select] finds in [waitCh], if one is there *)
  env_waitCh : option (option error)
}.

(** what the operating system answers during [Kill] or [Shutdown] *)
Record StopEnv : Type := mkStopEnv {
  env_MonitorWrite : option error;
  env_exit : option error;        (* the value received from [waitCh] *)
  env_RemoveAll : option error
}.

(** a computation that logs its calls and may return early with an error *)
Definition M (A : Type) : Type := list action * (error + A).

Definition ret {A} (a : A) : M A := ([], inr a).
Definition fail {A} (e : error) : M A := ([], inl e).
Definition emit (a : action) : M unit := ([a], inr tt).
Definition bind {A B} (m : M A) (k : A -> M B) : M B :=
  match m with
  | (t, inl e) => (t, inl e)
  | (t, inr a) => let '(t', r) := k a in (t ++ t', r)
  end.

Notation "x <- m ;; k" := (bind m (fun x => k))
  (at level 61, m at next level, right associativity).
Notation "m ;;; k" := (bind m (fun _ => k))
  (at level 61, right associativity).

(** a call whose answer is an error or nil: [if err != nil { return nil, err }] *)
Definition try (a : action) (answer : option error) : M unit :=
  emit a ;;; match answer with Some e => fail e | None => ret tt end.

Definition trace {A} (m : M A) : list action := fst m.
Definition result {A} (m : M A) : error + A := snd m.

(** the calls of a trace other than those to package [log] *)
Definition effects (t : list action) : list action :=
  filter (fun a => match a with LogPrintf _ => false | _ => true end) t.

(** formatting an [int] with [%v] or [%d] *)
Definition itoa (i : nat) : string := NilEmpty.string_of_uint (Nat.to_uint i).

(** [strings.Join] *)
Definition Join (elems : list string) (sep : string) : string :=
  String.concat sep elems.

(** [strings.ContainsAny] *)
Fixpoint ContainsAny (s : string) (chars : list Ascii.ascii) : bool :=
  match s with
  | EmptyString => false
  | String c s' =>
      existsb (Ascii.eqb c) chars || ContainsAny s' chars
  end.

(** [path.Join(dir, name)] for a clean, non-empty [dir] *)
Definition path_Join (dir name : string) : string := dir +++ "/" +++ name.

Definition quoteCmdline (cmdline : list string) : string :=
  let args :=
    map (fun s =>
           if ContainsAny s [" "%char; Ascii.ascii_of_nat 9; Ascii.ascii_of_nat 10]
           then "'" +++ s +++ "'"
           else s) cmdline in
  Join args " ".

(** the [for i, d := range opts.Disks] loop of [NewQemu], from index [i] *)
Fixpoint diskArgs (i : nat) (disks : list QemuDisk) : list string :=
  match disks with
  | [] => []
  | d :: rest =>
      let format := if String.eqb (Format d) "" then ""
                    else "format=" +++ Format d +++ "," in
      let controller := if String.eqb (Controller d) "" then "scsi-hd"
                        else Controller d in
      let drive := "drive=hd" +++ itoa i in
      let deviceParams := [controller; drive] ++ DeviceParams d in
      ["-drive"; format +++ "if=none,id=hd" +++ itoa i +++ ",file=" +++ Path d;
       "-device"; Join deviceParams ","]
      ++ diskArgs (S i) rest
  end.

(** the two defaults [NewQemu] stores into [*opts] on entry *)
Definition withDefaults (opts : QemuOptions) : QemuOptions :=
  {| Architecture := if String.eqb (Architecture opts) "" then QEMU_X86_64
                     else Architecture opts;
     OperatingSystem_ := OperatingSystem_ opts;
     Params := Params opts;
     Verbose := Verbose opts;
     Timeout := if (Timeout opts =? 0)%Z then qemuDefaultTimeout else Timeout opts;
     Kernel := Kernel opts;
     InitRamFs := InitRamFs opts;
     Disks := Disks opts;
     Append := Append opts;
     CdRom := CdRom opts |}.

(** the command line up to the [-append] check *)
Definition cmdlineHead (opts : QemuOptions) (monitorFile consoleFile : string)
    : list string :=
  ["-monitor"; "unix:" +++ monitorFile;
   "-serial"; "unix:" +++ consoleFile;
   "-no-reboot";
   "-nographic"; "-display"; "none"]
  ++ (if negb (String.eqb (Kernel opts) "") then ["-kernel"; Kernel opts] else [])
  ++ (if negb (String.eqb (InitRamFs opts) "") then ["-initrd"; InitRamFs opts] else []).

(** the command line after the [-append] check *)
Definition cmdlineTail (opts : QemuOptions) : list string :=
  let kernelArgs := Append opts in
  let kernelArgs :=
    match OperatingSystem_ opts with
    | OS_LINUX => kernelArgs ++ ["console=ttyS0,115200"; "ignore_loglevel"]
    | OS_OTHER => kernelArgs
    end in
  (if (0 <? length kernelArgs)%nat && negb (String.eqb (Kernel opts) "")
   then ["-append"; Join kernelArgs " "] else [])
  ++ (if (0 <? length (Params opts))%nat then Params opts else [])
  ++ (if negb (String.eqb (CdRom opts) "") then ["-boot"; "d"; "-cdrom"; CdRom opts] else [])
  ++ (if (0 <? length (Disks opts))%nat then ["-device"; "virtio-scsi-pci,id=scsi"] else [])
  ++ diskArgs 0 (Disks opts).

(** [l.Accept()] followed by
    [if err != nil { select { case waitErr := <-waitCh: return nil, waitErr
    default: return nil, err } }]; [k] is the rest of [NewQemu].  The
    pointer returned is [None] where the code returns [nil, nil]. *)
Definition acceptOrExit {A} (env : StartEnv) (l : handle)
    (answer : option error) (k : M (option A)) : M (option A) :=
  emit (Accept l) ;;;
  match answer with
  | None => k
  | Some err =>
      emit PollWaitCh ;;;
      match env_waitCh env with
      | Some (Some waitErr) => fail waitErr
      | Some None => ret None
      | None => fail err
      end
  end.

(** [NewQemu]; the goroutine started at [GoWait] runs on its own and is
    not part of this trace *)
Definition NewQemu (env : StartEnv) (opts0 : QemuOptions) : M (option Qemu) :=
  let opts := withDefaults opts0 in
  let '(tempDir, err) := env_TempDir env in
  try (TempDir "" "vmtest") err ;;;
  let monitorFile := path_Join tempDir "monitor.socket" in
  try (Listen monitorListener monitorFile) (env_ListenMonitor env) ;;;
  let consoleFile := path_Join tempDir "console.socket" in
  try (Listen consoleListener consoleFile) (env_ListenConsole env) ;;;
  let qemuBinary := "qemu-system-" +++ Architecture opts in
  let cmdline := cmdlineHead opts monitorFile consoleFile in
  if String.eqb (Kernel opts) "" && (0 <? length (Append opts))%nat then
    fail (errorString "opts.Append only allowed with opts.Kernel option")
  else
    let cmdline := cmdline ++ cmdlineTail opts in
    (if Verbose opts
     then emit (LogPrintf ("QEMU command line: " +++ qemuBinary +++ " "
                           +++ quoteCmdline cmdline))
     else ret tt) ;;;
    emit (WithTimeout (Timeout opts)) ;;;
    emit (Start qemuBinary cmdline (Verbose opts)) ;;;
    match env_Start env with
    | Some err =>
        emit CtxCancel ;;;
        fail (errorString ("starting QEMU: " +++ Error err))
    | None =>
        emit GoWait ;;;
        acceptOrExit env monitorListener (env_AcceptMonitor env) (
        acceptOrExit env consoleListener (env_AcceptConsole env) (
        emit (GoConsolePump (Verbose opts)) ;;;
        ret (Some (Qemu_new tempDir (Verbose opts)))))
    end.

Definition wait (env : StopEnv) (q : Qemu) : M unit :=
  emit RecvWaitCh ;;;
  match env_exit env with
  | Some err =>
      emit (LogPrintf ("Got error while waiting for Qemu process completion: "
                       +++ Error err))
  | None => ret tt
  end ;;;
  emit CtxCancel ;;;
  emit (Close console) ;;;
  emit (Close consoleListener) ;;;
  emit (Close monitor) ;;;
  emit (Close monitorListener) ;;;
  emit (RemoveAll (socketsDir q)) ;;;
  match env_RemoveAll env with
  | Some err =>
      emit (LogPrintf ("Cannot remove temporary dir " +++ socketsDir q +++ ": "
                       +++ Error err))
  | None => ret tt
  end.

(** the monitor line both termination calls start with *)
Definition sendMonitor (env : StopEnv) (line : string) : M unit :=
  emit (Write monitor (of_string line)) ;;;
  match env_MonitorWrite env with
  | Some err => emit (LogPrintf ("monitor: " +++ Error err))
  | None => ret tt
  end.

Definition newline : string := String (Ascii.ascii_of_nat 10) EmptyString.

Definition Kill (env : StopEnv) (q : Qemu) : M unit :=
  sendMonitor env ("quit" +++ newline) ;;; wait env q.

Definition Shutdown (env : StopEnv) (q : Qemu) : M unit :=
  sendMonitor env ("system_powerdown" +++ newline) ;;; wait env q.

End Lifecycle.

(** ** The earlier revision of the lifecycle: [NewQemu] and [Stop]

    The revision of [qemu.go] that ends a session with [Stop] differs from
    the one above in the lifecycle only: disks are plain paths, [-append]
    is not tied to the kernel a second time, [cmd.Wait] is called by [Stop]
    itself, and a failed [Accept] is returned as it is. *)

Module Earlier.

Import Lifecycle.
Local Open Scope string_scope.
Local Open Scope list_scope.
Infix "+++" := String.append (right associativity, at level 60).

Record QemuOptions : Type := mkOptions {
  Architecture : QemuArchitecture;
  OperatingSystem_ : OperatingSystem;
  Params : list string;
  Verbose : bool;
  Timeout : Z;
  Kernel : string;
  InitRamFs : string;
  Disks : list string;
  Append : list string;
  CdRom : string
}.

Record StartEnv : Type := mkStartEnv {
  env_TempDir : string * option error;
  env_ListenMonitor : option error;
  env_ListenConsole : option error;
  env_Start : option error;
  env_AcceptMonitor : option error;
  env_AcceptConsole : option error
}.

Record StopEnv : Type := mkStopEnv {
  env_MonitorWrite : option error;
  env_Wait : option error;          (* what [cmd.Wait] returns *)
  env_RemoveAll : option error
}.

Fixpoint diskArgs (i : nat) (disks : list string) : list string :=
  match disks with
  | [] => []
  | d :: rest =>
      ["-drive"; "format=raw,if=none,id=hd" +++ itoa i +++ ",file=" +++ d;
       "-device"; "scsi-hd,drive=hd" +++ itoa i]
      ++ diskArgs (S i) rest
  end.

Definition withDefaults (opts : QemuOptions) : QemuOptions :=
  {| Architecture := if String.eqb (Architecture opts) "" then QEMU_X86_64
                     else Architecture opts;
     OperatingSystem_ := OperatingSystem_ opts;
     Params := Params opts;
     Verbose := Verbose opts;
     Timeout := if (Timeout opts =? 0)%Z then qemuDefaultTimeout else Timeout opts;
     Kernel := Kernel opts;
     InitRamFs := InitRamFs opts;
     Disks := Disks opts;
     Append := Append opts;
     CdRom := CdRom opts |}.

Definition cmdlineHead (opts : QemuOptions) (monitorFile consoleFile : string)
    : list string :=
  ["-monitor"; "unix:" +++ monitorFile;
   "-serial"; "unix:" +++ consoleFile;
   "-no-reboot";
   "-nographic"; "-display"; "none"]
  ++ (if negb (String.eqb (Kernel opts) "") then ["-kernel"; Kernel opts] else [])
  ++ (if negb (String.eqb (InitRamFs opts) "") then ["-initrd"; InitRamFs opts] else []).

Definition cmdlineTail (opts : QemuOptions) : list string :=
  let kernelArgs := Append opts in
  let kernelArgs :=
    match OperatingSystem_ opts with
    | OS_LINUX => kernelArgs ++ ["console=ttyS0,115200"; "ignore_loglevel"]
    | OS_OTHER => kernelArgs
    end in
  (if (0 <? length kernelArgs)%nat then ["-append"; Join kernelArgs " "] else [])
  ++ (if (0 <? length (Params opts))%nat then Params opts else [])
  ++ (if negb (String.eqb (CdRom opts) "") then ["-boot"; "d"; "-cdrom"; CdRom opts] else [])
  ++ (if (0 <? length (Disks opts))%nat then ["-device"; "virtio-scsi-pci,id=scsi"] else [])
  ++ diskArgs 0 (Disks opts).

Definition NewQemu (env : StartEnv) (opts0 : QemuOptions) : M Qemu :=
  let opts := withDefaults opts0 in
  let '(tempDir, err) := env_TempDir env in
  try (TempDir "" "vmtest") err ;;;
  let monitorFile := path_Join tempDir "monitor.socket" in
  try (Listen monitorListener monitorFile) (env_ListenMonitor env) ;;;
  let consoleFile := path_Join tempDir "console.socket" in
  try (Listen consoleListener consoleFile) (env_ListenConsole env) ;;;
  let qemuBinary := "qemu-system-" +++ Architecture opts in
  let cmdline := cmdlineHead opts monitorFile consoleFile in
  if String.eqb (Kernel opts) "" && (0 <? length (Append opts))%nat then
    fail (errorString "opts.Append only allowed with opts.Kernel option")
  else
    let cmdline := cmdline ++ cmdlineTail opts in
    (if Verbose opts
     then emit (LogPrintf ("QEMU command line: " +++ qemuBinary +++ " "
                           +++ quoteCmdline cmdline))
     else ret tt) ;;;
    emit (WithTimeout (Timeout opts)) ;;;
    emit (Start qemuBinary cmdline (Verbose opts)) ;;;
    match env_Start env with
    | Some err => fail (errorString ("starting QEMU: " +++ Error err))
    | None =>
        try (Accept monitorListener) (env_AcceptMonitor env) ;;;
        try (Accept consoleListener) (env_AcceptConsole env) ;;;
        emit (GoConsolePump (Verbose opts)) ;;;
        ret (Qemu_new tempDir (Verbose opts))
    end.

Definition Stop (env : StopEnv) (q : Qemu) : M unit :=
  emit (Write monitor (of_string ("quit" +++ newline))) ;;;
  match env_MonitorWrite env with
  | Some err => emit (LogPrintf ("monitor: " +++ Error err))
  | None => ret tt
  end ;;;
  emit CmdWait ;;;
  match env_Wait env with
  | Some err =>
      emit (LogPrintf ("Got error while waiting for Qemu process completion: "
                       +++ Error err))
  | None => ret tt
  end ;;;
  emit CtxCancel ;;;
  emit (Close console) ;;;
  emit (Close consoleListener) ;;;
  emit (Close monitor) ;;;
  emit (Close monitorListener) ;;;
  emit (RemoveAll (socketsDir q)) ;;;
  match env_RemoveAll env with
  | Some err =>
      emit (LogPrintf ("Cannot remove temporary dir " +++ socketsDir q +++ ": "
                       +++ Error err))
  | None => ret tt
  end.

End Earlier.

(** ** Notions the statements below use *)

(** [scans p buf st frags exit]: the inner loop of [consoleProcess], run
    on [buf] with the closure state [st], hands the fragments [frags] to
    the processor, in this order, and is left by [exit].  It is the loop
    of [lineLoop] read as a relation ([lineLoop_scans], [scans_lineLoop]). *)
Inductive scans {A : Type} (p : LineProcessor A)
    : bytes -> A -> list bytes -> LoopExit A -> Prop :=
| scans_line_next line rest st st1 frags exit :
    ~ In NL line ->
    p st (line ++ [NL]) = Some (false, st1) ->
    scans p rest st1 frags exit ->
    scans p ((line ++ [NL]) ++ rest) st ((line ++ [NL]) :: frags) exit
| scans_line_match line rest st st1 :
    ~ In NL line ->
    p st (line ++ [NL]) = Some (true, st1) ->
    scans p ((line ++ [NL]) ++ rest) st [line ++ [NL]] (Matched rest st1)
| scans_line_panic line rest st :
    ~ In NL line ->
    p st (line ++ [NL]) = None ->
    scans p ((line ++ [NL]) ++ rest) st [line ++ [NL]] Panic
| scans_tail_next buf st st1 :
    ~ In NL buf ->
    p st buf = Some (false, st1) ->
    scans p buf st [buf] (Break buf st1)
| scans_tail_match buf st st1 :
    ~ In NL buf ->
    p st buf = Some (true, st1) ->
    scans p buf st [buf] (Matched buf st1)
| scans_tail_panic buf st :
    ~ In NL buf ->
    p st buf = None ->
    scans p buf st [buf] Panic.

(** a newline-terminated line *)
Definition isLine (l : bytes) : Prop := exists l0, l = l0 ++ [NL] /\ ~ In NL l0.

(** a processor that never matches and records what it is given *)
Definition observe : LineProcessor (list bytes) :=
  fun seen data => Some (false, seen ++ [data]).

(** the results of [Read] among the events of a schedule *)
Definition reads {A : Type} (sched : list (event A)) : list ReadResult :=
  flat_map (fun e => match e with EvPump r => [r] | _ => [] end) sched.

(** the world of a fresh session *)
Definition world_entry (q : Qemu) : World :=
  {| qemu := q; stdout := []; logged := [] |}.

(** the reads [consolePump] gets to see: those up to the first error *)
Fixpoint untilError (rs : list ReadResult) : list ReadResult :=
  match rs with
  | [] => []
  | r :: rs' =>
      match rerr r with
      | Some _ => [r]
      | None => r :: untilError rs'
      end
  end.

(** what holds of the pump's locals at the head of every iteration: the
    array has its 4096 bytes and the carried tail is shorter than
    [asciiSeqMaxLength] *)
Definition frame_ok (fr : PumpFrame) : Prop :=
  length (buf fr) = 4096%nat /\ 0 <= dataLength fr < asciiSeqMaxLength.

(** [Read] stores at most [len(buf[dataLength:])] bytes *)
Definition read_ok (fr : PumpFrame) (r : ReadResult) : Prop :=
  dataLength fr + len (rdata r) <= 4096.

(** a call that has come to its end *)
Definition finished {A : Type} (c : Call A) : Prop :=
  match c with
  | Returned _ _ | Panicked => True
  | Polling _ _ | Requeue _ _ => False
  end.

(** the bytes a call holds in its local [buf] *)
Definition held {A : Type} (c : Call A) : bytes :=
  match c with
  | Polling buf _ | Requeue buf _ => buf
  | Returned _ _ | Panicked => []
  end.

Section Pumped.

Variable Regexp : Type.
Variable ReplaceAll : Regexp -> bytes -> bytes -> bytes.
Variable ansiRe : Regexp.

(** what one iteration appends to the line buffer *)
Definition delivered (r : ReadResult) (fr : PumpFrame) : bytes :=
  if 0 <? len (rdata r)
  then snd (stripEscapes Regexp ReplaceAll ansiRe (console_Read fr r) (readChunk fr r))
  else [].

(** all that the pump appends to the line buffer over the reads [rs] of
    a session: the buffer of a pump that runs with no caller draining it *)
Definition pumped (verbose : bool) (q : Qemu) (rs : list ReadResult) : bytes :=
  consoleData
    (qemu (snd (consolePump Regexp ReplaceAll ansiRe verbose rs pumpEntry
                  (world_entry q)))).

End Pumped.

(** the bytes the caller holds outside the line buffer *)
Definition inflight {A : Type} (c : option (LineProcessor A * Call A)) : bytes :=
  match c with
  | Some (_, c) => held c
  | None => []
  end.

(** of every match its first group: what the closure of
    [ConsoleExpectRE] collects *)
Definition firstGroups (m : list (list bytes)) : list string :=
  map (fun s => to_string (nth 1 s [])) m.

(** of every match every group, in order of appearance *)
Definition allGroups (m : list (list bytes)) : list string :=
  flat_map (fun s => map to_string (tl s)) m.

(** [at_rest s data arrived c]: the pump is at the head of its loop with
    nothing carried over, the stream has not ended, the line buffer holds
    [data] with the flag [arrived], and the caller stands at [c] *)
Definition at_rest {A : Type} (s : System A) (data : bytes) (arrived : bool)
    (c : option (LineProcessor A * Call A)) : Prop :=
  (exists fr, pump s = Some fr /\ frame_ok fr /\ dataLength fr = 0) /\
  consoleData (qemu (world s)) = data /\
  consoleDataArrived (qemu (world s)) = arrived /\
  consoleDataEOF (qemu (world s)) = false /\
  caller s = c.

(** the caller of [s] replaced by one that enters a call with [processor] *)
Definition next_call {A B : Type} (s : System A) (processor : LineProcessor B)
    (st : B) : System B :=
  {| pump := pump s; world := world s;
     caller := Some (processor, consoleProcess_entry st) |}.

(** ** The model over [GoRegexp], and the inputs the statements are
    evaluated on *)

Module Session.

Import GoRegexp.
Local Open Scope string_scope.
Local Open Scope list_scope.

Definition pump_iter :=
  consolePump_iter Regexp GoRegexp.ReplaceAll GoRegexp.ansiRe.
Definition pump_run :=
  consolePump Regexp GoRegexp.ReplaceAll GoRegexp.ansiRe.
Definition system_step {A : Type} :=
  sys_step Regexp GoRegexp.ReplaceAll GoRegexp.ansiRe (A := A).
Definition system_run {A : Type} :=
  sys_run Regexp GoRegexp.ReplaceAll GoRegexp.ansiRe (A := A).
Definition ExpectRE_p := ConsoleExpectRE_p Regexp GoRegexp.FindAllSubmatch.
Definition ExpectRE := ConsoleExpectRE Regexp GoRegexp.FindAllSubmatch.

(** [^] stands for the escape byte and [~] for the newline *)
Fixpoint ctl (s : string) : string :=
  match s with
  | EmptyString => EmptyString
  | String c s' =>
      String (if Ascii.eqb c "^" then Ascii.ascii_of_nat 27
              else if Ascii.eqb c "~" then Ascii.ascii_of_nat 10
              else c) (ctl s')
  end.

Definition text (s : string) : bytes := of_string (ctl s).

(** [exit_code=(\d+)] *)
Definition re_exit_code : Regexp :=
  Cat (Str "exit_code=") (Capture 1 (Plus Digit)).

(** [(\d+)\.(\d+)] *)
Definition re_version : Regexp :=
  Cat (Capture 1 (Plus Digit)) (Cat (Lit "."%byte) (Capture 2 (Plus Digit))).

(** the pattern of the repository's test: [Starting version ] and then
    a group of any characters *)
Definition re_starting_version : Regexp :=
  Cat (Str "Starting version ") (Capture 1 (Star AnyCharNotNL)).

(** a fresh session *)
Definition q0 : Qemu := Qemu_new "/tmp/vmtest123" false.

(** a read that fails with an error other than [io.EOF] *)
Definition r_reset : ReadResult :=
  mkRead [] (Some (errorString "read unix @->console.socket: connection reset by peer")).

Definition startEnv_ok : Lifecycle.StartEnv :=
  {| Lifecycle.env_TempDir := ("/tmp/vmtest123", None);
     Lifecycle.env_ListenMonitor := None;
     Lifecycle.env_ListenConsole := None;
     Lifecycle.env_Start := None;
     Lifecycle.env_AcceptMonitor := None;
     Lifecycle.env_AcceptConsole := None;
     Lifecycle.env_waitCh := None |}.

(** kernel arguments without a kernel *)
Definition opts_no_kernel : Lifecycle.QemuOptions :=
  {| Lifecycle.Architecture := "";
     Lifecycle.OperatingSystem_ := Lifecycle.OS_LINUX;
     Lifecycle.Params := ["-m"; "512"];
     Lifecycle.Verbose := false;
     Lifecycle.Timeout := 0;
     Lifecycle.Kernel := "";
     Lifecycle.InitRamFs := "";
     Lifecycle.Disks := [];
     Lifecycle.Append := ["root=/dev/sda"];
     Lifecycle.CdRom := "" |}.

End Session.

(** ** More of the code, and notions for the statements about it *)

(** a schedule in which the caller enters no further call *)
Definition noCalls {A : Type} (sched : list (event A)) : Prop :=
  Forall (fun e => match e with EvCall _ _ => False | _ => True end) sched.

(** a fragment as the inner loop forms it: one full line, or bytes
    without a newline *)
Definition isFragment (f : bytes) : Prop := isLine f \/ ~ In NL f.

(** what the pump keeps in [buf] for the next iteration *)
Definition carried (fr : PumpFrame) : bytes := upto (buf fr) (dataLength fr).

(** the caller is not inside a call of [consoleProcess] *)
Definition idle {A : Type} (s : System A) : Prop :=
  match caller s with
  | Some (_, Polling _ _) | Some (_, Requeue _ _) => False
  | _ => True
  end.

Module Calls.

Import Lifecycle.
Local Open Scope string_scope.
Local Open Scope list_scope.

(** [ConsoleWrite]: one [Write] on the console connection, whose error
    is returned *)
Definition ConsoleWrite (answer : option error) (str : string) : M unit :=
  try (Write console (of_string str)) answer.

(** [waitCh] as a receiver finds it.  The channel has room for one value
    and the goroutine started by [NewQemu] sends exactly one, the result
    of [cmd.Wait]: [Some v] when that value is (or will be) there to
    receive, [None] once it has been received. *)
Definition waitCh : Type := option (option error).

(** how a call ends *)
Inductive Outcome : Type :=
| Returns
| BlocksForever.    (* parked on a receive that no send will ever meet *)

Definition with_exit (env : StopEnv) (v : option error) : StopEnv :=
  {| env_MonitorWrite := env_MonitorWrite env;
     env_exit := v;
     env_RemoveAll := env_RemoveAll env |}.

(** [wait] with the channel in view: it starts with [<-q.waitCh] *)
Definition wait_on (ch : waitCh) (env : StopEnv) (q : Qemu)
    : list action * Outcome * waitCh :=
  match ch with
  | Some v => (trace (wait (with_exit env v) q), Returns, None)
  | None => ([RecvWaitCh], BlocksForever, None)
  end.

Definition Kill_on (ch : waitCh) (env : StopEnv) (q : Qemu)
    : list action * Outcome * waitCh :=
  let '(t, o, ch') := wait_on ch env q in
  (trace (sendMonitor env ("quit" +++ newline)) ++ t, o, ch').

Definition Shutdown_on (ch : waitCh) (env : StopEnv) (q : Qemu)
    : list action * Outcome * waitCh :=
  let '(t, o, ch') := wait_on ch env q in
  (trace (sendMonitor env ("system_powerdown" +++ newline)) ++ t, o, ch').

(** a termination call: [true] for [Kill], [false] for [Shutdown] *)
Definition terminate (kill : bool) := if kill then Kill_on else Shutdown_on.

End Calls.

(** ** The first revision: waits that read the console themselves

    [src/unnamed/part_003] holds the revision before the pump.  There
    [ConsoleProcess] calls [q.console.Read] in the caller's goroutine, and
    the session has one data field for the console, [consoleData]. *)
Module First.

(** the console side of that revision's [Qemu], and the bytes written to
    [os.Stdout] *)
Record Session : Type := mkSession {
  consoleData : bytes;
  stdout : bytes
}.

(** the [&Qemu{...}] literal leaves [consoleData] nil *)
Definition entry : Session := {| consoleData := []; stdout := [] |}.

(** where a call of [ConsoleProcess] stands after a [Read] *)
Inductive Wait (A : Type) : Type :=
| Reading (st : A)                    (* at the head of the [for] loop *)
| Done (err : option error) (st : A)  (* returned [err] *)
| Panics.
Arguments Reading {A}.
Arguments Done {A}.
Arguments Panics {A}.

Section Waits.

Variable Regexp : Type.
Variable ReplaceAll : Regexp -> bytes -> bytes -> bytes.
Variable ansiRe : Regexp.
Variable emptyLineRe : Regexp.

Definition sanitizeText (data : bytes) : bytes :=
  let data := ReplaceAll ansiRe data [] in
  let data := ReplaceAll emptyLineRe data [NL] in
  data.

(** one round of the [for] loop of [ConsoleProcess]; [Read] gives [r] *)
Definition ConsoleProcess_iter {A} (p : LineProcessor A) (verbose : bool)
    (r : ReadResult) (st : A) (s : Session) : Wait A * Session :=
  match rerr r with
  | Some err => (Done (Some err) st, s)
  | None =>
      if 0 <? len (rdata r) then
        let data := consoleData s ++ rdata r in
        let idx := LastIndexByte data NL in
        let containsNewLine := negb (idx =? -1) in
        let toPrint := if containsNewLine then upto data (idx + 1) else data in
        let data := if containsNewLine then from data (idx + 1) else data in
        let out := if verbose then stdout s ++ sanitizeText toPrint else stdout s in
        match p st toPrint with
        | None => (Panics, {| consoleData := data; stdout := out |})
        | Some (matched, st) =>
            if matched
            then (Done None st,
                  {| consoleData := if containsNewLine then [] else data;
                     stdout := out |})
            else (Reading st, {| consoleData := data; stdout := out |})
        end
      else (Reading st, s)    (* time.Sleep(10ms) *)
  end.

(** [ConsoleProcess] over the reads it gets to make; [Reading] when all
    of them are made and the call is about to read again *)
Fixpoint ConsoleProcess {A} (p : LineProcessor A) (verbose : bool)
    (rs : list ReadResult) (st : A) (s : Session) : Wait A * Session :=
  match rs with
  | [] => (Reading st, s)
  | r :: rs =>
      match ConsoleProcess_iter p verbose r st s with
      | (Reading st, s) => ConsoleProcess p verbose rs st s
      | res => res
      end
  end.

(** [ConsoleExpect]: the closure is the one of the later revisions *)
Definition ConsoleExpect (str : string) (verbose : bool)
    (rs : list ReadResult) (s : Session) : Wait unit * Session :=
  ConsoleProcess (ConsoleExpect_p str) verbose rs tt s.

(** one wait after the other, each with its processor, the state its
    closure starts from and the reads it gets to make *)
Definition waits {A} (verbose : bool)
    (calls : list (LineProcessor A * A * list ReadResult)) (s : Session)
    : Session :=
  fold_left (fun s c => let '(p, st, rs) := c in
                        snd (ConsoleProcess p verbose rs st s)) calls s.

End Waits.

(** the two patterns of that revision, for the engine of [GoRegexp] *)
Module Patterns.

Import GoRegexp.

(** [r?] *)
Definition Opt (r : Regexp) : Regexp := Alt r Empty.

(** [[a-zA-Z\d]] *)
Definition AlNum : Regexp :=
  Class [("a"%byte, "z"%byte); ("A"%byte, "Z"%byte); ("0"%byte, "9"%byte)].

(** [\d{1,4}] and [\d{0,4}] *)
Definition Digits1to4 : Regexp :=
  Cat Digit (Opt (Cat Digit (Opt (Cat Digit (Opt Digit))))).
Definition Digits0to4 : Regexp := Opt Digits1to4.

(** [\W]: any byte that is not of [[0-9A-Za-z_]] *)
Definition NonWord : Regexp :=
  Class [(x00, "/"%byte); (":"%byte, "@"%byte); ("["%byte, "^"%byte);
         ("`"%byte, "`"%byte); ("{"%byte, xff)].

(** [ansiRe]: one of U+001B and U+009B (the latter is two bytes in
    UTF-8), any of [[]()#;?], then either letters and digits in groups
    separated by [;] up to a BEL, or numbers separated by [;] and a final
    byte of [[\dA-PRZcf-ntqry=><~]] *)
Definition ansiRe : Regexp :=
  Cat (Alt (Lit x1b) (Cat (Lit xc2) (Lit x9b)))
   (Cat (Star (Class [("["%byte, "["%byte); ("]"%byte, "]"%byte);
                      ("("%byte, "("%byte); (")"%byte, ")"%byte);
                      ("#"%byte, "#"%byte); (";"%byte, ";"%byte);
                      ("?"%byte, "?"%byte)]))
     (Alt
        (Cat (Opt (Cat (Star AlNum) (Star (Cat (Lit ";"%byte) (Star AlNum)))))
             (Lit x07))
        (Cat (Opt (Cat Digits1to4 (Star (Cat (Lit ";"%byte) Digits0to4))))
             (Class [("0"%byte, "9"%byte); ("A"%byte, "P"%byte);
                     ("R"%byte, "R"%byte); ("Z"%byte, "Z"%byte);
                     ("c"%byte, "c"%byte); ("f"%byte, "n"%byte);
                     ("t"%byte, "t"%byte); ("q"%byte, "q"%byte);
                     ("r"%byte, "r"%byte); ("y"%byte, "y"%byte);
                     ("="%byte, "="%byte); (">"%byte, ">"%byte);
                     ("<"%byte, "<"%byte); ("~"%byte, "~"%byte)])))).

(** [emptyLineRe]: a CR or LF, non-word bytes, a CR or LF *)
Definition emptyLineRe : Regexp :=
  Cat (Class [(x0d, x0d); (x0a, x0a)])
   (Cat (Star NonWord) (Class [(x0d, x0d); (x0a, x0a)])).

Definition sanitize : bytes -> bytes :=
  sanitizeText Regexp ReplaceAll ansiRe emptyLineRe.

Definition process {A : Type} :=
  ConsoleProcess Regexp ReplaceAll ansiRe emptyLineRe (A := A).

Definition expect :=
  ConsoleExpect Regexp ReplaceAll ansiRe emptyLineRe.

End Patterns.

End First.

(** a read that stores bytes, none of them a newline, and reports no
    error *)
Definition plainRead (r : ReadResult) : Prop :=
  rerr r = None /\ 0 < len (rdata r) /\ ~ In NL (rdata r).

(** what has been read after each of the reads [rs], one entry per read,
    [d] being what was there before *)
Fixpoint cumulative (d : bytes) (rs : list ReadResult) : list bytes :=
  match rs with
  | [] => []
  | r :: rs => (d ++ rdata r) :: cumulative (d ++ rdata r) rs
  end.

(** * Facts

    Everything below is proved about the definitions above. *)

(** ** Facts about the [bytes] functions *)

Module GoBytesFacts.

Lemma eqb_refl (x : byte) : Byte.eqb x x = true.
Proof. now apply Byte.byte_dec_lb. Qed.

Lemma eqb_spec (x y : byte) : reflect (x = y) (Byte.eqb x y).
Proof.
  destruct (Byte.eqb x y) eqn:E; constructor.
  - now apply Byte.byte_dec_bl.
  - now apply Byte.eqb_false.
Qed.

Lemma IndexByte_range s c : -1 <= IndexByte s c < len s.
Proof.
  unfold len. induction s as [|x t IH]; simpl length; cbn [IndexByte]; [lia|].
  destruct (Byte.eqb x c); [lia|].
  destruct (IndexByte t c =? -1) eqn:E; lia.
Qed.

Lemma IndexByte_none s c : IndexByte s c = -1 <-> ~ In c s.
Proof.
  induction s as [|x t IH]; cbn [IndexByte In]; [tauto|].
  pose proof (IndexByte_range t c) as R.
  destruct (eqb_spec x c) as [->|N].
  - split; [lia | intros H; exfalso; apply H; now left].
  - destruct (IndexByte t c =? -1) eqn:E.
    + apply Z.eqb_eq in E. split; [|reflexivity].
      intros _ [H|H]; [congruence | now apply IH in E].
    + apply Z.eqb_neq in E. split; [lia|].
      intros H. exfalso. apply E, IH. tauto.
Qed.

(** when [c] occurs, [IndexByte] splits [s] around its first occurrence *)
Lemma IndexByte_split s c :
  IndexByte s c <> -1 ->
  exists pre post,
    s = pre ++ c :: post /\ ~ In c pre /\ IndexByte s c = len pre.
Proof.
  unfold len. induction s as [|x t IH]; cbn [IndexByte]; [congruence|].
  destruct (eqb_spec x c) as [->|N].
  - intros _. exists [], t. simpl. tauto.
  - destruct (IndexByte t c =? -1) eqn:E; [congruence|].
    apply Z.eqb_neq in E. intros _.
    destruct (IH E) as (pre & post & -> & Hn & Hi).
    exists (x :: pre), post. simpl length. cbn [In app].
    repeat split; [|lia]. intros [H|H]; [congruence | tauto].
Qed.

Lemma LastIndexByte_range s c : -1 <= LastIndexByte s c < len s.
Proof.
  unfold len. induction s as [|x t IH]; simpl length; cbn [LastIndexByte]; [lia|].
  destruct (LastIndexByte t c =? -1) eqn:E; [|lia].
  destruct (Byte.eqb x c); lia.
Qed.

Lemma LastIndexByte_none s c : LastIndexByte s c = -1 <-> ~ In c s.
Proof.
  induction s as [|x t IH]; cbn [LastIndexByte In]; [tauto|].
  pose proof (LastIndexByte_range t c) as R.
  destruct (LastIndexByte t c =? -1) eqn:E.
  - apply Z.eqb_eq in E. destruct (eqb_spec x c) as [->|N].
    + split; [lia | intros H; exfalso; apply H; now left].
    + split; [|reflexivity].
      intros _ [H|H]; [congruence | now apply IH in E].
  - apply Z.eqb_neq in E. split; [lia|].
    intros H. exfalso. apply E, IH. tauto.
Qed.

(** when [c] occurs, [LastIndexByte] splits [s] around its last occurrence *)
Lemma LastIndexByte_split s c :
  LastIndexByte s c <> -1 ->
  exists pre post,
    s = pre ++ c :: post /\ ~ In c post /\ LastIndexByte s c = len pre.
Proof.
  unfold len. induction s as [|x t IH]; cbn [LastIndexByte]; [congruence|].
  destruct (LastIndexByte t c =? -1) eqn:E.
  - apply Z.eqb_eq in E. destruct (eqb_spec x c) as [->|N]; [|congruence].
    intros _. exists [], t. simpl. apply LastIndexByte_none in E. tauto.
  - apply Z.eqb_neq in E. intros _.
    destruct (IH E) as (pre & post & -> & Hn & Hi).
    exists (x :: pre), post. simpl length. cbn [app].
    repeat split; [assumption | lia].
Qed.

Lemma HasPrefix_nil s : HasPrefix s [] = true.
Proof. now destruct s. Qed.

Lemma Contains_byte s c : Contains s [c] = true <-> In c s.
Proof.
  induction s as [|x t IH]; cbn [Contains HasPrefix In].
  - split; [discriminate | tauto].
  - rewrite HasPrefix_nil, andb_true_r, orb_true_iff, IH.
    destruct (eqb_spec x c); intuition congruence.
Qed.

Lemma upto_app_len pre post : upto (pre ++ post) (len pre) = pre.
Proof.
  unfold upto, len. rewrite Nat2Z.id, firstn_app, Nat.sub_diag, firstn_all.
  simpl. now rewrite app_nil_r.
Qed.

Lemma from_app_len pre post : from (pre ++ post) (len pre) = post.
Proof.
  unfold from, len. rewrite Nat2Z.id, skipn_app, Nat.sub_diag, skipn_all.
  reflexivity.
Qed.

End GoBytesFacts.

Import GoBytesFacts.

(** ** The inner loop of [consoleProcess] *)

Section LineLoopFacts.

Context {A : Type} (p : LineProcessor A).

Lemma from_shorter buf idx :
  0 <= idx < len buf -> (length (from buf (idx + 1)) < length buf)%nat.
Proof.
  unfold from, len. intros H. rewrite length_skipn. lia.
Qed.

(** more fuel than [buf] has bytes is as good as any larger amount *)
Lemma lineLoop_fuel_enough f1 : forall f2 buf (st : A),
  (length buf < f1)%nat -> (length buf < f2)%nat ->
  lineLoop_fuel f1 p buf st = lineLoop_fuel f2 p buf st.
Proof.
  induction f1 as [|f1 IH]; intros f2 buf st H1 H2; [lia|].
  destruct f2 as [|f2]; [lia|].
  cbn [lineLoop_fuel]. cbv zeta.
  pose proof (IndexByte_range buf NL) as R.
  destruct (IndexByte buf NL =? -1) eqn:E; cbn [negb].
  - destruct (p st _) as [[[] st']|]; reflexivity.
  - apply Z.eqb_neq in E.
    destruct (p st _) as [[[] st']|]; try reflexivity.
    assert (length (from buf (IndexByte buf NL + 1)) < length buf)%nat
      by (apply from_shorter; lia).
    apply IH; lia.
Qed.

(** [lineLoop] satisfies the equation of the source loop *)
Lemma lineLoop_eq buf (st : A) :
  lineLoop p buf st =
  let idx := IndexByte buf NL in
  let newLine := negb (idx =? -1) in
  let idx := if newLine then idx + 1 else len buf in
  let toProcess := upto buf idx in
  let buf := if newLine then from buf idx else buf in
  match p st toProcess with
  | None => Panic
  | Some (matched, st) =>
      if matched then Matched buf st
      else if negb newLine then Break buf st
      else lineLoop p buf st
  end.
Proof.
  unfold lineLoop at 1. cbn [lineLoop_fuel]. cbv zeta.
  pose proof (IndexByte_range buf NL) as R.
  destruct (IndexByte buf NL =? -1) eqn:E; cbn [negb].
  - reflexivity.
  - apply Z.eqb_neq in E.
    destruct (p st _) as [[[] st']|]; try reflexivity.
    assert (length (from buf (IndexByte buf NL + 1)) < length buf)%nat
      by (apply from_shorter; lia).
    unfold lineLoop. apply lineLoop_fuel_enough; lia.
Qed.

(** a buffer without a newline is one fragment *)
Lemma lineLoop_tail buf (st : A) :
  ~ In NL buf ->
  lineLoop p buf st =
  match p st buf with
  | None => Panic
  | Some (true, st') => Matched buf st'
  | Some (false, st') => Break buf st'
  end.
Proof.
  intros H. rewrite lineLoop_eq. cbv zeta.
  apply IndexByte_none in H. rewrite H, Z.eqb_refl. cbn [negb].
  replace (upto buf (len buf)) with buf.
  2:{ unfold upto, len. now rewrite Nat2Z.id, firstn_all. }
  destruct (p st buf) as [[[] st']|]; reflexivity.
Qed.

(** a buffer that starts with a full line: that line is the fragment *)
Lemma lineLoop_line line rest (st : A) :
  ~ In NL line ->
  lineLoop p ((line ++ [NL]) ++ rest) st =
  match p st (line ++ [NL]) with
  | None => Panic
  | Some (true, st') => Matched rest st'
  | Some (false, st') => lineLoop p rest st'
  end.
Proof.
  intros H. rewrite lineLoop_eq. cbv zeta.
  assert (I : IndexByte ((line ++ [NL]) ++ rest) NL = len line).
  { rewrite <- app_assoc. cbn [app].
    clear - H. induction line as [|x t IH]; cbn [IndexByte app].
    - now rewrite eqb_refl.
    - destruct (eqb_spec x NL) as [->|N]; [exfalso; apply H; now left|].
      rewrite IH by (intros X; apply H; now right).
      unfold len. simpl length.
      destruct (Z.of_nat (length t) =? -1) eqn:E; lia. }
  rewrite I.
  assert (L : len line + 1 = len (line ++ [NL])).
  { unfold len. rewrite length_app. simpl. lia. }
  destruct (Z.eqb_spec (len line) (-1)) as [X|_]; [unfold len in X; lia|].
  cbn [negb]. rewrite L, upto_app_len, from_app_len.
  destruct (p st _) as [[[] st']|]; reflexivity.
Qed.

End LineLoopFacts.

Section ScansFacts.

Context {A : Type} (p : LineProcessor A).

Lemma scans_lineLoop buf (st : A) frags exit :
  scans p buf st frags exit -> lineLoop p buf st = exit.
Proof.
  induction 1 as [line rest st st1 frags exit Hn Hp _ IH
                 |line rest st st1 Hn Hp |line rest st Hn Hp
                 |buf st st1 Hn Hp |buf st st1 Hn Hp |buf st Hn Hp].
  - now rewrite (lineLoop_line p line rest st Hn), Hp.
  - now rewrite (lineLoop_line p line rest st Hn), Hp.
  - now rewrite (lineLoop_line p line rest st Hn), Hp.
  - now rewrite (lineLoop_tail p buf st Hn), Hp.
  - now rewrite (lineLoop_tail p buf st Hn), Hp.
  - now rewrite (lineLoop_tail p buf st Hn), Hp.
Qed.

Lemma split_first_line buf :
  In NL buf -> exists line rest, buf = (line ++ [NL]) ++ rest /\ ~ In NL line.
Proof.
  intros H.
  destruct (IndexByte_split buf NL) as (pre & post & E & Hn & _).
  { intros X. now apply IndexByte_none in X. }
  exists pre, post. now rewrite <- app_assoc.
Qed.

Lemma lineLoop_scans_len n : forall buf (st : A),
  (length buf <= n)%nat -> exists frags, scans p buf st frags (lineLoop p buf st).
Proof.
  induction n as [|n IH]; intros buf st Hlen.
  - destruct buf; [|simpl in Hlen; lia].
    rewrite (lineLoop_tail p [] st) by (intros []).
    exists [[]].
    destruct (p st []) as [[[] st']|] eqn:E;
      [apply scans_tail_match | apply scans_tail_next | apply scans_tail_panic];
      (intros [] || assumption).
  - destruct (in_dec byte_eq_dec NL buf) as [Hin|Hn].
    + destruct (split_first_line buf Hin) as (line & rest & -> & Hl).
      rewrite (lineLoop_line p line rest st Hl).
      destruct (p st (line ++ [NL])) as [[[] st']|] eqn:E.
      * eexists. now apply scans_line_match.
      * destruct (IH rest st') as (frags & Hs).
        { rewrite !length_app in Hlen. simpl in Hlen. lia. }
        eexists. eapply scans_line_next; eassumption.
      * eexists. now apply scans_line_panic.
    + rewrite (lineLoop_tail p buf st Hn).
      exists [buf].
      destruct (p st buf) as [[[] st']|] eqn:E;
        [apply scans_tail_match | apply scans_tail_next | apply scans_tail_panic];
        assumption.
Qed.

(** the loop always hands some fragments to the processor and leaves *)
Lemma lineLoop_scans buf (st : A) :
  exists frags, scans p buf st frags (lineLoop p buf st).
Proof. apply (lineLoop_scans_len (length buf)). lia. Qed.

(** The fragments are successive pieces of [buf], from its front: full
    lines, then possibly the unterminated rest; the buffer the loop
    leaves with is what follows the full lines. *)
Lemma scans_order buf (st : A) frags exit :
  scans p buf st frags exit ->
  forall rest st', (exit = Matched rest st' \/ exit = Break rest st') ->
  exists lines,
    buf = concat lines ++ rest /\ Forall isLine lines /\
    (frags = lines \/ (frags = lines ++ [rest] /\ ~ In NL rest)).
Proof.
  induction 1 as [line rest0 st st1 frags exit Hn Hp _ IH
                 |line rest0 st st1 Hn Hp |line rest0 st Hn Hp
                 |buf st st1 Hn Hp |buf st st1 Hn Hp |buf st Hn Hp];
    intros rest st' [E|E]; try discriminate.
  - destruct (IH rest st' (or_introl E)) as (lines & -> & HF & Hfr).
    exists ((line ++ [NL]) :: lines). cbn [concat].
    rewrite app_assoc. split; [reflexivity|]. split.
    + constructor; [now exists line | assumption].
    + destruct Hfr as [->|[-> Hr]]; [now left | right; split; [reflexivity | assumption]].
  - destruct (IH rest st' (or_intror E)) as (lines & -> & HF & Hfr).
    exists ((line ++ [NL]) :: lines). cbn [concat].
    rewrite app_assoc. split; [reflexivity|]. split.
    + constructor; [now exists line | assumption].
    + destruct Hfr as [->|[-> Hr]]; [now left | right; split; [reflexivity | assumption]].
  - injection E as <- <-. exists [line ++ [NL]]. cbn [concat].
    rewrite app_nil_r. split; [reflexivity|]. split; [|now left].
    constructor; [now exists line | constructor].
  - injection E as <- <-. exists []. simpl. split; [reflexivity|].
    split; [constructor | right; now split].
  - injection E as <- <-. exists []. simpl. split; [reflexivity|].
    split; [constructor | right; now split].
Qed.

End ScansFacts.

(** ** One call of [consoleProcess], step by step *)

Section ScansShape.

Context {A : Type} (p : LineProcessor A).

(** the first fragment is the whole buffer when it has no newline, and
    its first line otherwise *)
Lemma scans_first buf (st : A) frags exit :
  scans p buf st frags exit ->
  exists f frags',
    frags = f :: frags' /\
    ((buf = f /\ ~ In NL f) \/ (exists rest, buf = f ++ rest /\ isLine f)).
Proof.
  destruct 1 as [line rest st st1 frags exit Hn Hp Hs
                |line rest st st1 Hn Hp |line rest st Hn Hp
                |buf st st1 Hn Hp |buf st st1 Hn Hp |buf st Hn Hp];
    eexists; eexists; (split; [reflexivity|]);
    solve [ left; now split
          | right; exists rest; split; [reflexivity | now exists line] ].
Qed.

(** a match on an unterminated last fragment leaves the loop with that
    fragment still in [buf] *)
Lemma scans_tail_matched buf (st : A) fs exit :
  scans p buf st fs exit ->
  forall frags frag rest st',
    fs = frags ++ [frag] -> ~ In NL frag -> exit = Matched rest st' ->
    rest = frag.
Proof.
  induction 1 as [line rest0 st st1 frags0 exit Hn Hp Hs IH
                 |line rest0 st st1 Hn Hp |line rest0 st Hn Hp
                 |buf st st1 Hn Hp |buf st st1 Hn Hp |buf st Hn Hp];
    intros frags frag rest st' Hfs Hfrag Hex; try discriminate.
  - destruct frags as [|f frags].
    + injection Hfs as _ ->. destruct (scans_first _ _ _ _ Hs) as (? & ? & ? & _).
      discriminate.
    + injection Hfs as _ Hfs. eapply IH; eassumption.
  - destruct frags as [|f [|? ?]]; try discriminate.
    injection Hfs as <-. exfalso. apply Hfrag, in_or_app. right. now left.
  - destruct frags as [|f [|? ?]]; try discriminate.
    injection Hfs as <-. now injection Hex as <- _.
Qed.

(** if the buffer starts with bytes that hold no newline, the first
    fragment starts with them *)
Lemma scans_first_prefix frag more (st : A) :
  ~ In NL frag ->
  exists tl frags,
    scans p (frag ++ more) st ((frag ++ tl) :: frags) (lineLoop p (frag ++ more) st).
Proof.
  intros Hfrag.
  destruct (lineLoop_scans p (frag ++ more) st) as (fs & Hs).
  destruct (scans_first _ _ _ _ Hs) as (f & frags & -> & [[E Hf]|(rest & E & l0 & -> & Hl0)]).
  - exists more, frags. subst f. exact Hs.
  - apply app_eq_app in E. destruct E as (l & [[E1 E2]|[E1 E2]]).
    + exfalso. apply Hfrag. rewrite E1. apply in_or_app. left.
      apply in_or_app. right. now left.
    + exists l, frags. now rewrite <- E1.
Qed.

End ScansShape.

Section CallFacts.

Context {A : Type} (p : LineProcessor A).

(** a call that has returned or panicked does nothing more *)
Lemma step_finished (c : Call A) q :
  (exists err st, c = Returned err st) \/ c = Panicked ->
  consoleProcess_step p c q = (c, q).
Proof. intros [(err & st & ->)| ->]; reflexivity. Qed.

(** the critical section that puts the unprocessed bytes back *)
Lemma step_Requeue buf (st : A) q :
  consoleProcess_step p (Requeue buf st) q =
  (Returned None st, set_consoleData q (buf ++ consoleData q) true).
Proof. reflexivity. Qed.

(** a poll that finds new data runs the inner loop on all drained bytes *)
Lemma step_Polling_data buf (st : A) q :
  consoleDataArrived q = true ->
  consoleProcess_step p (Polling buf st) q =
  (match lineLoop p (buf ++ consoleData q) st with
   | Matched buf' st' => Requeue buf' st'
   | Break buf' st' => Polling buf' st'
   | Panic => Panicked
   end, set_consoleData q [] false).
Proof.
  intros H. cbn [consoleProcess_step]. rewrite H.
  destruct (lineLoop p (buf ++ consoleData q) st); reflexivity.
Qed.

(** a poll that finds no new data but the flag set *)
Lemma step_Polling_eof buf (st : A) q :
  consoleDataArrived q = false ->
  consoleDataEOF q = true ->
  consoleProcess_step p (Polling buf st) q =
  (Returned (Some io_EOF) st, set_consoleData q [] false).
Proof.
  intros Ha He. cbn [consoleProcess_step]. now rewrite Ha, He.
Qed.

(** C3: a poll that finds the "stream ended" flag set and no data
    arrived since the last drain makes the call return [io.EOF]; this
    holds for every processor, so for [ConsoleExpect] and for
    [ConsoleExpectRE], and whatever the call still holds in [buf].  A call
    that has returned takes no further step. *)
Theorem eof_without_new_data_returns_EOF buf (st : A) q :
  consoleDataArrived q = false ->
  consoleDataEOF q = true ->
  let '(c, q') := consoleProcess_step p (Polling buf st) q in
  c = Returned (Some io_EOF) st /\
  q' = set_consoleData q [] false /\
  forall q2, consoleProcess_step p c q2 = (c, q2).
Proof.
  intros Ha He. rewrite (step_Polling_eof buf st q Ha He).
  repeat split.
Qed.

(** a poll that finds neither data nor the flag sleeps and polls again *)
Lemma step_Polling_idle buf (st : A) q :
  consoleDataArrived q = false ->
  consoleDataEOF q = false ->
  consoleProcess_step p (Polling buf st) q =
  (Polling (buf ++ consoleData q) st, set_consoleData q [] false).
Proof.
  intros Ha He. cbn [consoleProcess_step]. now rewrite Ha, He.
Qed.

End CallFacts.

(** C9: when the processor matches on the unterminated last fragment
    [frag], the call puts [frag] back at the front of the line buffer,
    ahead of what the pump appended meanwhile ([more]), and the first
    fragment the next call evaluates starts with [frag] again. *)
Theorem unterminated_match_is_requeued {A B : Type}
    (p : LineProcessor A) (p2 : LineProcessor B)
    buf st q frags frag rest st' more st2 :
  consoleDataArrived q = true ->
  scans p (buf ++ consoleData q) st (frags ++ [frag]) (Matched rest st') ->
  ~ In NL frag ->
  let '(c1, q1) := consoleProcess_step p (Polling buf st) q in
  let q1' := set_consoleData q1 (consoleData q1 ++ more) true in
  let '(c2, q2) := consoleProcess_step p c1 q1' in
  c1 = Requeue frag st' /\
  c2 = Returned None st' /\
  consoleData q2 = frag ++ more /\
  consoleDataArrived q2 = true /\
  exists tl frags2,
    scans p2 (frag ++ more) st2 ((frag ++ tl) :: frags2)
      (lineLoop p2 (frag ++ more) st2) /\
    fst (consoleProcess_step p2 (consoleProcess_entry st2) q2) =
    match lineLoop p2 (frag ++ more) st2 with
    | Matched buf' st' => Requeue buf' st'
    | Break buf' st' => Polling buf' st'
    | Panic => Panicked
    end.
Proof.
  intros Ha Hs Hfrag.
  rewrite (step_Polling_data p buf st q Ha).
  rewrite (scans_lineLoop p _ _ _ _ Hs).
  assert (rest = frag) as ->
    by (eapply scans_tail_matched; [exact Hs | reflexivity | assumption | reflexivity]).
  cbn [set_consoleData consoleData app]. rewrite step_Requeue.
  cbn [set_consoleData consoleData consoleDataArrived app].
  repeat split.
  destruct (scans_first_prefix p2 frag more st2 Hfrag) as (tl & frags2 & H2).
  exists tl, frags2. split; [exact H2|].
  unfold consoleProcess_entry. rewrite step_Polling_data by reflexivity.
  reflexivity.
Qed.

(** ** The stream pump *)

Section PumpFacts.

Variable Regexp : Type.
Variable ReplaceAll : Regexp -> bytes -> bytes -> bytes.
Variable ansiRe : Regexp.

Local Abbreviation strip := (stripEscapes Regexp ReplaceAll ansiRe).
Local Abbreviation deliver := (pumpDeliver Regexp ReplaceAll ansiRe).
Local Abbreviation iter := (consolePump_iter Regexp ReplaceAll ansiRe).
Local Abbreviation pumpRun := (consolePump Regexp ReplaceAll ansiRe).

Lemma pumpEntry_ok : frame_ok pumpEntry.
Proof.
  split; [apply repeat_length | unfold asciiSeqMaxLength; simpl; lia].
Qed.

Lemma length_copy dst src : length (copy dst src) = length dst.
Proof.
  unfold copy. rewrite length_app, length_firstn, length_skipn. lia.
Qed.

Lemma console_Read_eq fr r :
  frame_ok fr -> read_ok fr r ->
  console_Read fr r =
  upto (buf fr) (dataLength fr) ++ rdata r
    ++ skipn (length (rdata r)) (from (buf fr) (dataLength fr)).
Proof.
  intros [Hb Hd] Hr. unfold console_Read, copy. f_equal. f_equal.
  apply firstn_all2. unfold from, read_ok, len in *.
  rewrite length_skipn. lia.
Qed.

Lemma length_console_Read fr r :
  frame_ok fr -> length (console_Read fr r) = 4096%nat.
Proof.
  intros [Hb Hd]. unfold console_Read, upto, from.
  rewrite length_app, length_copy, length_firstn, length_skipn.
  unfold asciiSeqMaxLength in Hd. lia.
Qed.

(** the chunk of an iteration is the carried tail followed by the bytes read *)
Lemma readChunk_eq fr r :
  frame_ok fr -> read_ok fr r ->
  readChunk fr r = upto (buf fr) (dataLength fr) ++ rdata r.
Proof.
  intros Hf Hr. unfold readChunk. rewrite (console_Read_eq fr r Hf Hr).
  destruct Hf as [Hb Hd]. unfold asciiSeqMaxLength in Hd.
  unfold upto, len.
  assert (L : length (firstn (Z.to_nat (dataLength fr)) (buf fr))
              = Z.to_nat (dataLength fr)) by (rewrite length_firstn; lia).
  replace (Z.to_nat (dataLength fr + Z.of_nat (length (rdata r))))
    with (length (firstn (Z.to_nat (dataLength fr)) (buf fr)) + length (rdata r))%nat
    by lia.
  rewrite firstn_app_2, firstn_app, Nat.sub_diag, firstn_all. simpl.
  now rewrite app_nil_r.
Qed.

(** without the introducer the block is skipped *)
Lemma stripEscapes_plain buf0 chunk :
  ~ In ESC chunk -> strip buf0 chunk = (buf0, 0, chunk).
Proof.
  intros H. unfold stripEscapes.
  destruct (Contains chunk [ESC]) eqn:E; [|reflexivity].
  apply Contains_byte in E. contradiction.
Qed.

Lemma LastIndexByte_ge s c : forall i,
  nth_error s i = Some c -> Z.of_nat i <= LastIndexByte s c.
Proof.
  induction s as [|x t IH]; intros [|i] H; try discriminate.
  - cbn [LastIndexByte]. injection H as ->.
    pose proof (LastIndexByte_range t c).
    destruct (LastIndexByte t c =? -1); [rewrite eqb_refl|]; lia.
  - cbn [LastIndexByte]. simpl in H. apply IH in H.
    destruct (Z.eqb_spec (LastIndexByte t c) (-1)); lia.
Qed.

(** with an introducer near the end of the filtered chunk, the block cuts
    the chunk at the last introducer *)
Lemma stripEscapes_carry buf0 chunk i :
  Contains chunk [ESC] = true ->
  let filtered := ReplaceAll ansiRe chunk [] in
  nth_error filtered i = Some ESC ->
  len filtered - Z.of_nat i < asciiSeqMaxLength ->
  let j := LastIndexByte filtered ESC in
  strip buf0 chunk =
    (copy buf0 (from filtered j), len filtered - j, upto filtered j)
  /\ Z.of_nat i <= j < len filtered.
Proof.
  intros HC filtered Hi Hw j. unfold stripEscapes. rewrite HC.
  fold filtered. fold j.
  pose proof (LastIndexByte_ge filtered ESC i Hi) as Hge. fold j in Hge.
  pose proof (LastIndexByte_range filtered ESC) as Hr. fold j in Hr.
  destruct (Z.eqb_spec j (-1)) as [E|_]; [lia|].
  destruct (Z.ltb_spec (len filtered - j) asciiSeqMaxLength) as [_|N]; [|lia].
  cbn [negb andb]. split; [reflexivity | lia].
Qed.

Lemma upto_from s j : upto s j ++ from s j = s.
Proof. apply firstn_skipn. Qed.

Lemma len_from s j : 0 <= j <= len s -> len (from s j) = len s - j.
Proof. unfold len, from. intros H. rewrite length_skipn. lia. Qed.

(** the frame after a carry holds the carried tail in front *)
Lemma carry_frame buf0 tail :
  length buf0 = 4096%nat -> len tail < asciiSeqMaxLength ->
  let fr' := {| buf := copy buf0 tail; dataLength := len tail |} in
  frame_ok fr' /\ upto (buf fr') (dataLength fr') = tail.
Proof.
  intros Hb Ht fr'. subst fr'. unfold frame_ok, asciiSeqMaxLength, len in *.
  cbn [buf dataLength]. split.
  - split; [now rewrite length_copy | lia].
  - unfold copy, upto. rewrite Nat2Z.id.
    replace (firstn (length buf0) tail) with tail
      by (symmetry; apply firstn_all2; lia).
    rewrite firstn_app, Nat.sub_diag, firstn_all. simpl. apply app_nil_r.
Qed.

(** neither the flag store nor the log line touches the buffered bytes *)
Lemma iter_consoleData verbose r fr w :
  consoleData (qemu (snd (iter verbose r fr w))) =
  consoleData (qemu (snd (if 0 <? len (rdata r)
                          then deliver verbose r fr w else (fr, w))))
  /\ stdout (snd (iter verbose r fr w)) =
     stdout (snd (if 0 <? len (rdata r)
                  then deliver verbose r fr w else (fr, w))).
Proof.
  unfold consolePump_iter.
  destruct (if 0 <? len (rdata r) then deliver verbose r fr w else (fr, w))
    as [fr1 w1].
  destruct (rerr r) as [[|msg]|]; split; reflexivity.
Qed.

Lemma iter_frame verbose r fr w :
  fst (iter verbose r fr w) =
  match rerr r with
  | Some _ => None
  | None => Some (fst (if 0 <? len (rdata r)
                       then deliver verbose r fr w else (fr, w)))
  end.
Proof.
  unfold consolePump_iter.
  destruct (if 0 <? len (rdata r) then deliver verbose r fr w else (fr, w))
    as [fr1 w1].
  destruct (rerr r) as [[|msg]|]; reflexivity.
Qed.

Lemma pumpDeliver_eq verbose r fr w :
  deliver verbose r fr w =
  let res := strip (console_Read fr r) (readChunk fr r) in
  let toPrint := snd res in
  ({| buf := fst (fst res); dataLength := snd (fst res) |},
   {| qemu := set_consoleData (qemu w) (consoleData (qemu w) ++ toPrint) true;
      stdout := stdout w ++ (if verbose then toPrint else []);
      logged := logged w |}).
Proof.
  unfold pumpDeliver.
  destruct (strip (console_Read fr r) (readChunk fr r)) as [[b d] t].
  cbv zeta. cbn [fst snd]. f_equal.
  destruct verbose; unfold with_qemu, Stdout_Write; cbn [qemu stdout logged];
    [reflexivity | now rewrite app_nil_r].
Qed.

(** C6: when the filtered chunk of an iteration holds an introducer less
    than [asciiSeqMaxLength] bytes before its end, the line buffer and
    the verbose sink get the filtered chunk up to its last introducer
    only, and the bytes from that introducer on are kept: the chunk of
    the next iteration is these bytes followed by the bytes read then. *)
Theorem incomplete_escape_is_carried verbose r fr w i :
  frame_ok fr -> read_ok fr r -> 0 < len (rdata r) ->
  let chunk := readChunk fr r in
  let filtered :=
    if Contains chunk [ESC] then ReplaceAll ansiRe chunk [] else chunk in
  nth_error filtered i = Some ESC ->
  len filtered - Z.of_nat i < asciiSeqMaxLength ->
  let j := LastIndexByte filtered ESC in
  let res := iter verbose r fr w in
  consoleData (qemu (snd res)) = consoleData (qemu w) ++ upto filtered j /\
  stdout (snd res) = stdout w ++ (if verbose then upto filtered j else []) /\
  upto filtered j ++ from filtered j = filtered /\
  nth_error (from filtered j) 0 = Some ESC /\
  (rerr r = None ->
   exists fr', fst res = Some fr' /\ frame_ok fr' /\
     forall r2, read_ok fr' r2 -> readChunk fr' r2 = from filtered j ++ rdata r2).
Proof.
  intros Hf Hr Hnum chunk filtered Hi Hw j res.
  assert (HC : Contains chunk [ESC] = true).
  { subst filtered. destruct (Contains chunk [ESC]) eqn:E; [reflexivity|].
    apply nth_error_In, Contains_byte in Hi. congruence. }
  subst j filtered. rewrite HC in *.
  set (filtered := ReplaceAll ansiRe chunk []) in *.
  set (j := LastIndexByte filtered ESC).
  destruct (stripEscapes_carry (console_Read fr r) chunk i HC Hi Hw) as [Hs Hj].
  fold filtered in Hs, Hj. fold j in Hs, Hj.
  destruct (iter_consoleData verbose r fr w) as [Hcd Hso].
  fold res in Hcd, Hso.
  pose proof (iter_frame verbose r fr w) as Hfr. fold res in Hfr.
  destruct (Z.ltb_spec 0 (len (rdata r))) as [_|N]; [|lia].
  rewrite pumpDeliver_eq in Hcd, Hso, Hfr. cbv zeta in Hcd, Hso, Hfr.
  fold chunk in Hcd, Hso, Hfr. rewrite Hs in Hcd, Hso, Hfr.
  cbn [fst snd qemu stdout consoleData set_consoleData] in Hcd, Hso, Hfr.
  split; [exact Hcd|]. split; [exact Hso|]. split; [apply upto_from|].
  split.
  { destruct (LastIndexByte_split filtered ESC) as (pre & post & E & _ & Hl);
      [fold j; lia|].
    fold j in Hl. rewrite Hl, E, from_app_len. reflexivity. }
  intros Herr. rewrite Herr in Hfr. eexists. split; [exact Hfr|].
  assert (Ht : len (from filtered j) < asciiSeqMaxLength).
  { rewrite len_from by lia. lia. }
  rewrite <- (len_from filtered j) by lia.
  destruct (carry_frame (console_Read fr r) (from filtered j)
              (length_console_Read fr r Hf) Ht) as [Hok Hc].
  split; [exact Hok|].
  intros r2 Hr2. rewrite (readChunk_eq _ r2 Hok Hr2). now rewrite Hc.
Qed.

(** an iteration whose chunk has no introducer hands on the bytes read *)
Lemma iter_plain verbose r fr w :
  frame_ok fr -> dataLength fr = 0 ->
  ~ In ESC (rdata r) -> len (rdata r) <= 4096 ->
  let res := iter verbose r fr w in
  consoleData (qemu (snd res)) = consoleData (qemu w) ++ rdata r /\
  stdout (snd res) = stdout w ++ (if verbose then rdata r else []) /\
  forall fr', fst res = Some fr' -> frame_ok fr' /\ dataLength fr' = 0.
Proof.
  intros Hf Hd He Hl res.
  destruct (iter_consoleData verbose r fr w) as [Hcd Hso].
  pose proof (iter_frame verbose r fr w) as Hfr.
  fold res in Hcd, Hso, Hfr.
  assert (Hr : read_ok fr r) by (unfold read_ok; lia).
  assert (Hc : readChunk fr r = rdata r).
  { rewrite (readChunk_eq fr r Hf Hr), Hd. reflexivity. }
  destruct (Z.ltb_spec 0 (len (rdata r))) as [Hn|Hn].
  - rewrite pumpDeliver_eq in Hcd, Hso, Hfr. cbv zeta in Hcd, Hso, Hfr.
    rewrite Hc, (stripEscapes_plain _ _ He) in Hcd, Hso, Hfr.
    cbn [fst snd qemu stdout consoleData set_consoleData] in Hcd, Hso, Hfr.
    split; [exact Hcd|]. split; [exact Hso|].
    intros fr' H. rewrite Hfr in H. destruct (rerr r); [discriminate|].
    injection H as <-. unfold frame_ok. cbn [buf dataLength].
    rewrite (length_console_Read fr r Hf). unfold asciiSeqMaxLength. lia.
  - assert (rdata r = []) as E.
    { destruct (rdata r); [reflexivity | unfold len in Hn; simpl in Hn; lia]. }
    cbn [fst snd] in Hcd, Hso, Hfr. rewrite E.
    split; [now rewrite app_nil_r|].
    split; [destruct verbose; now rewrite app_nil_r|].
    intros fr' H. rewrite Hfr in H. destruct (rerr r); [discriminate|].
    injection H as <-. now split.
Qed.

Lemma pump_plain verbose rs : forall fr w,
  frame_ok fr -> dataLength fr = 0 ->
  Forall (fun r => ~ In ESC (rdata r) /\ len (rdata r) <= 4096) rs ->
  let w' := snd (pumpRun verbose rs fr w) in
  consoleData (qemu w') =
    consoleData (qemu w) ++ concat (map rdata (untilError rs)) /\
  stdout w' =
    stdout w ++ (if verbose then concat (map rdata (untilError rs)) else []).
Proof.
  induction rs as [|r rs IH]; intros fr w Hf Hd HF.
  - simpl. destruct verbose; now rewrite !app_nil_r.
  - inversion HF as [|? ? [He Hl] HF']; subst.
    destruct (iter_plain verbose r fr w Hf Hd He Hl) as (Hcd & Hso & Hfr).
    pose proof (iter_frame verbose r fr w) as Hfst.
    cbn [consolePump untilError].
    destruct (iter verbose r fr w) as [[fr'|] w1] eqn:E;
      cbn [fst snd] in Hcd, Hso, Hfr, Hfst.
    + destruct (rerr r); [discriminate|].
      destruct (Hfr fr' eq_refl) as [Hf' Hd'].
      destruct (IH fr' w1 Hf' Hd' HF') as [IH1 IH2].
      cbv zeta in IH1, IH2. rewrite IH1, IH2, Hcd, Hso.
      cbn [map concat]. rewrite <- !app_assoc.
      destruct verbose; now rewrite ?app_nil_r.
    + destruct (rerr r); [|discriminate].
      cbn [fst snd map concat]. rewrite Hcd, Hso.
      destruct verbose; now rewrite ?app_nil_r.
Qed.

(** C8: as long as the bytes read hold no escape introducer, the pump
    filters nothing: the bytes appended to the line buffer (and those
    written to the verbose sink) are the bytes read, in order. *)
Theorem pump_is_identity_without_ESC verbose rs w :
  Forall (fun r => ~ In ESC (rdata r) /\ len (rdata r) <= 4096) rs ->
  let w' := snd (pumpRun verbose rs pumpEntry w) in
  consoleData (qemu w') =
    consoleData (qemu w) ++ concat (map rdata (untilError rs)) /\
  stdout w' =
    stdout w ++ (if verbose then concat (map rdata (untilError rs)) else []).
Proof.
  intros HF. apply pump_plain; [apply pumpEntry_ok | reflexivity | exact HF].
Qed.

(** how an iteration ends when [Read] gave an error *)
Lemma iter_error verbose r fr w err :
  rerr r = Some err ->
  let w1 := snd (if 0 <? len (rdata r) then deliver verbose r fr w else (fr, w)) in
  iter verbose r fr w =
  (None,
   match err with
   | io_EOF => with_qemu w1 (set_consoleDataEOF (qemu w1) true)
   | errorString _ => log_Print w1 (Error err)
   end).
Proof.
  intros H. unfold consolePump_iter. rewrite H.
  destruct (if 0 <? len (rdata r) then deliver verbose r fr w else (fr, w))
    as [fr1 w1].
  destruct err; reflexivity.
Qed.

(** A read that gives bytes and an error acts as a read of the bytes
    followed by an empty read with the error.  The append and the flag
    store of one iteration are two critical sections; this is why a whole
    iteration can be one event of a schedule: a step of the caller between
    the two is the schedule with the split reads and the step in between. *)
Lemma iter_split verbose d e fr w :
  iter verbose (mkRead d (Some e)) fr w =
  match iter verbose (mkRead d None) fr w with
  | (Some fr', w') => iter verbose (mkRead [] (Some e)) fr' w'
  | (None, w') => (None, w')
  end.
Proof.
  unfold consolePump_iter. cbn [rdata rerr].
  assert (X : (if 0 <? len d then deliver verbose (mkRead d (Some e)) fr w
               else (fr, w))
              = (if 0 <? len d then deliver verbose (mkRead d None) fr w
                 else (fr, w)))
    by (destruct (0 <? len d); reflexivity).
  rewrite X.
  destruct (if 0 <? len d then deliver verbose (mkRead d None) fr w else (fr, w))
    as [fr1 w1].
  reflexivity.
Qed.

Lemma deliver_flags verbose r fr w :
  let w1 := snd (if 0 <? len (rdata r) then deliver verbose r fr w else (fr, w)) in
  consoleDataEOF (qemu w1) = consoleDataEOF (qemu w) /\ logged w1 = logged w.
Proof.
  destruct (0 <? len (rdata r)); [|now split].
  rewrite pumpDeliver_eq. now split.
Qed.

End PumpFacts.

(** ** The pump and the caller together *)

Section Conservation.

Context {A : Type} (p : LineProcessor A).

(** a step of the call loses no byte and reorders none: what the call
    held followed by the line buffer is, after the step, what the call
    has done with ([eaten]) followed by what it holds and the buffer *)
Lemma call_step_conserves (c : Call A) q :
  let '(c', q') := consoleProcess_step p c q in
  exists eaten, held c ++ consoleData q = eaten ++ held c' ++ consoleData q'.
Proof.
  destruct c as [buf st|buf st|err st|].
  - cbn [consoleProcess_step].
    destruct (consoleDataArrived q).
    + destruct (lineLoop_scans p (buf ++ consoleData q) st) as (frags & Hs).
      destruct (lineLoop p (buf ++ consoleData q) st) as [rest st'|rest st'|] eqn:E;
        cbn [held consoleData set_consoleData].
      * destruct (scans_order p _ _ _ _ Hs rest st' (or_introl eq_refl))
          as (lines & Hb & _).
        exists (concat lines). now rewrite app_nil_r.
      * destruct (scans_order p _ _ _ _ Hs rest st' (or_intror eq_refl))
          as (lines & Hb & _).
        exists (concat lines). now rewrite app_nil_r.
      * exists (buf ++ consoleData q). now rewrite app_nil_r.
    + destruct (consoleDataEOF q); cbn [held consoleData set_consoleData].
      * exists (buf ++ consoleData q). now rewrite app_nil_r.
      * exists []. now rewrite app_nil_r.
  - cbn [consoleProcess_step held consoleData set_consoleData]. now exists [].
  - cbn [consoleProcess_step]. now exists [].
  - cbn [consoleProcess_step]. now exists [].
Qed.

(** the caller never writes the "stream ended" flag *)
Lemma step_keeps_EOF (c : Call A) q :
  consoleDataEOF (snd (consoleProcess_step p c q)) = consoleDataEOF q.
Proof.
  destruct c as [buf st|buf st|err st|]; cbn [consoleProcess_step];
    try reflexivity.
  destruct (consoleDataArrived q).
  - destruct (lineLoop p (buf ++ consoleData q) st); reflexivity.
  - destruct (consoleDataEOF q) eqn:E; exact E.
Qed.

(** once the pump has set the flag, a call is over after two steps *)
Lemma call_ends_after_EOF buf (st : A) q :
  consoleDataEOF q = true ->
  let '(c1, q1) := consoleProcess_step p (Polling buf st) q in
  finished (fst (consoleProcess_step p c1 q1)).
Proof.
  intros He. cbn [consoleProcess_step]. rewrite He.
  destruct (consoleDataArrived q); [|exact I].
  destruct (lineLoop p (buf ++ consoleData q) st); try exact I.
  cbn [consoleProcess_step consoleDataArrived consoleDataEOF set_consoleData fst].
  rewrite He. exact I.
Qed.

End Conservation.

Section SystemFacts.

Variable Regexp : Type.
Variable ReplaceAll : Regexp -> bytes -> bytes -> bytes.
Variable ansiRe : Regexp.

Local Abbreviation iter := (consolePump_iter Regexp ReplaceAll ansiRe).
Local Abbreviation pumpRun := (consolePump Regexp ReplaceAll ansiRe).
Local Abbreviation step := (sys_step Regexp ReplaceAll ansiRe).
Local Abbreviation run := (sys_run Regexp ReplaceAll ansiRe).

Lemma run_snoc {A} verbose (s : System A) sched e :
  run verbose s (sched ++ [e]) = step verbose (run verbose s sched) e.
Proof. unfold sys_run. now rewrite fold_left_app. Qed.

Lemma step_EvStep {A} verbose (s : System A) p c :
  caller s = Some (p, c) ->
  step verbose s EvStep =
  {| pump := pump s;
     world := with_qemu (world s) (snd (consoleProcess_step p c (qemu (world s))));
     caller := Some (p, fst (consoleProcess_step p c (qemu (world s)))) |}.
Proof.
  intros H. cbn [sys_step]. rewrite H.
  now destruct (consoleProcess_step p c (qemu (world s))).
Qed.

Lemma step_EvPump {A} verbose (s : System A) fr r :
  pump s = Some fr ->
  step verbose s (EvPump r) =
  {| pump := fst (iter verbose r fr (world s));
     world := snd (iter verbose r fr (world s));
     caller := caller s |}.
Proof.
  intros H. cbn [sys_step]. rewrite H.
  now destruct (iter verbose r fr (world s)).
Qed.

(** a pump that has returned takes no further part *)
Lemma step_EvPump_exited {A} verbose (s : System A) r :
  pump s = None -> step verbose s (EvPump r) = s.
Proof. intros H. cbn [sys_step]. now rewrite H. Qed.

(** C2, as the code has it: a read error ends the pump.  When the error
    is [io.EOF] the "stream ended" flag is set on exit; a call parked in
    its polling loop then returns [io.EOF] on its next poll if no data
    is left to drain, and in any case is over within two steps.  After
    any other error the pump logs it and leaves the flag as it was. *)
Theorem read_error_ends_pump {A} verbose (s : System A) fr r err p buf st :
  pump s = Some fr ->
  rerr r = Some err ->
  caller s = Some (p, Polling buf st) ->
  let s1 := step verbose s (EvPump r) in
  pump s1 = None /\
  match err with
  | io_EOF =>
      consoleDataEOF (qemu (world s1)) = true /\
      (consoleDataArrived (qemu (world s1)) = false ->
       caller (step verbose s1 EvStep) = Some (p, Returned (Some io_EOF) st)) /\
      exists c, caller (run verbose s1 [EvStep; EvStep]) = Some (p, c) /\ finished c
  | errorString msg =>
      consoleDataEOF (qemu (world s1)) = consoleDataEOF (qemu (world s)) /\
      logged (world s1) = logged (world s) ++ [msg]
  end.
Proof.
  intros Hp Hr Hc s1. subst s1. rewrite (step_EvPump verbose s fr r Hp).
  rewrite (iter_error Regexp ReplaceAll ansiRe verbose r fr (world s) err Hr).
  cbv zeta. cbn [pump world caller fst snd]. split; [reflexivity|].
  destruct (deliver_flags Regexp ReplaceAll ansiRe verbose r fr (world s)) as [Hf Hl].
  cbv zeta in Hf, Hl.
  set (w1 := snd (if 0 <? len (rdata r)
                  then pumpDeliver Regexp ReplaceAll ansiRe verbose r fr (world s)
                  else (fr, world s))) in *.
  destruct err as [|msg].
  - set (s1 := {| pump := None;
                  world := with_qemu w1 (set_consoleDataEOF (qemu w1) true);
                  caller := caller s |}).
    assert (He : consoleDataEOF (qemu (world s1)) = true) by reflexivity.
    split; [exact He|]. split.
    + intros Ha. rewrite (step_EvStep verbose s1 p (Polling buf st) Hc).
      exact (f_equal (fun x => Some (p, fst x))
               (step_Polling_eof p buf st _ Ha He)).
    + unfold sys_run. cbn [fold_left].
      rewrite (step_EvStep verbose s1 p (Polling buf st) Hc).
      pose proof (call_ends_after_EOF p buf st (qemu (world s1)) He) as Hfin.
      destruct (consoleProcess_step p (Polling buf st) (qemu (world s1)))
        as [c1 q1].
      cbn [fst snd].
      erewrite step_EvStep by reflexivity. cbn [caller world with_qemu qemu].
      eexists. split; [reflexivity | exact Hfin].
  - cbn [qemu world log_Print logged Error]. now rewrite Hf, Hl.
Qed.

Lemma iter_delivers verbose r fr w :
  consoleData (qemu (snd (iter verbose r fr w))) =
  consoleData (qemu w) ++ delivered Regexp ReplaceAll ansiRe r fr.
Proof.
  destruct (iter_consoleData Regexp ReplaceAll ansiRe verbose r fr w) as [-> _].
  unfold delivered. destruct (0 <? len (rdata r)).
  - now rewrite pumpDeliver_eq.
  - cbn [snd]. now rewrite app_nil_r.
Qed.

(** the pump's locals do not depend on what the caller does *)
Lemma iter_frame_indep verbose r fr w w2 :
  fst (iter verbose r fr w) = fst (iter verbose r fr w2).
Proof.
  rewrite !iter_frame. destruct (rerr r); [reflexivity|].
  destruct (0 <? len (rdata r)); [|reflexivity].
  now rewrite !pumpDeliver_eq.
Qed.

Lemma pumpRun_snoc verbose rs r : forall fr w,
  pumpRun verbose (rs ++ [r]) fr w =
  match pumpRun verbose rs fr w with
  | (Some fr', w') => iter verbose r fr' w'
  | (None, w') => (None, w')
  end.
Proof.
  induction rs as [|r0 rs IH]; intros fr w; cbn [consolePump app].
  - now destruct (iter verbose r fr w) as [[?|] ?].
  - destruct (iter verbose r0 fr w) as [[fr'|] w']; [apply IH | reflexivity].
Qed.

(** the system of pump and caller against a pump that runs alone: same
    locals, and the bytes delivered are those the caller is done with,
    those it holds, and those in the line buffer, in this order *)
Lemma run_conserves {A} verbose q (sched : list (event A)) :
  let s := run verbose (sys_entry q) sched in
  let alone := pumpRun verbose (reads sched) pumpEntry (world_entry q) in
  pump s = fst alone /\
  exists consumed,
    consoleData (qemu (snd alone)) =
    consumed ++ inflight (caller s) ++ consoleData (qemu (world s)).
Proof.
  induction sched as [|e sched IH] using rev_ind.
  - cbn. split; [reflexivity | now exists []].
  - cbv zeta in IH |- *. rewrite run_snoc. unfold reads in *.
    rewrite flat_map_app. cbn [flat_map]. rewrite app_nil_r.
    set (s := run verbose (sys_entry q) sched) in *.
    destruct IH as (Hp & consumed & Hc).
    destruct e as [r|p st|].
    + rewrite pumpRun_snoc.
      destruct (pumpRun verbose _ pumpEntry (world_entry q)) as [[fr|] w];
        cbn [fst snd] in Hp, Hc.
      * rewrite (step_EvPump verbose s fr r Hp). cbn [pump world caller].
        split; [apply iter_frame_indep|].
        exists consumed. rewrite !iter_delivers, Hc. now rewrite <- !app_assoc.
      * rewrite (step_EvPump_exited verbose s r Hp).
        split; [exact Hp | now exists consumed].
    + rewrite app_nil_r. cbn [sys_step].
      destruct (caller s) as [[p0 [buf st0|buf st0|err st0|]]|] eqn:E;
        cbn [pump world caller]; rewrite ?E;
        (split; [exact Hp|]); exists consumed; exact Hc.
    + rewrite app_nil_r.
      destruct (caller s) as [[p c]|] eqn:E.
      * rewrite (step_EvStep verbose s p c E). cbn [pump world caller].
        split; [exact Hp|].
        pose proof (call_step_conserves p c (qemu (world s))) as Hs.
        destruct (consoleProcess_step p c (qemu (world s))) as [c' q'].
        destruct Hs as (eaten & Hs).
        exists (consumed ++ eaten). cbn [inflight fst snd with_qemu qemu] in *.
        rewrite Hc, <- !app_assoc. f_equal. exact Hs.
      * cbn [sys_step]. rewrite E. split; [exact Hp|].
        exists consumed. rewrite E. exact Hc.
Qed.

(** C4: no byte is ever reordered.  At every point of every run, the
    bytes the pump has delivered are, in delivery order: bytes the
    caller is done with, then the bytes its call holds, then the line
    buffer.  A poll evaluates the fragments from the front of the
    drained bytes, line by line, and keeps what follows the lines it
    consumed; after a match the call puts what it holds in front of the
    line buffer, so ahead of what the pump appended meanwhile. *)
Theorem bytes_are_never_reordered {A} verbose q (sched : list (event A)) :
  let s := run verbose (sys_entry q) sched in
  let s' := step verbose s EvStep in
  (exists consumed,
     pumped Regexp ReplaceAll ansiRe verbose q (reads sched) =
     consumed ++ inflight (caller s) ++ consoleData (qemu (world s))) /\
  (forall p buf st,
     caller s = Some (p, Polling buf st) ->
     consoleDataArrived (qemu (world s)) = true ->
     let drained := buf ++ consoleData (qemu (world s)) in
     exists frags,
       scans p drained st frags (lineLoop p drained st) /\
       (caller s' = Some (p, Panicked) \/
        exists lines,
          drained = concat lines ++ inflight (caller s') /\
          Forall isLine lines /\
          (frags = lines \/ frags = lines ++ [inflight (caller s')]))) /\
  (forall p buf st,
     caller s = Some (p, Requeue buf st) ->
     caller s' = Some (p, Returned None st) /\
     consoleData (qemu (world s')) = buf ++ consoleData (qemu (world s)) /\
     consoleDataArrived (qemu (world s')) = true).
Proof.
  intros s s'. split; [|split].
  - exact (proj2 (run_conserves verbose q sched)).
  - intros p buf st Hc Ha drained. subst s'.
    rewrite (step_EvStep verbose s p _ Hc).
    rewrite (step_Polling_data p buf st _ Ha). fold drained.
    cbn [fst caller inflight].
    destruct (lineLoop_scans p drained st) as (frags & Hs).
    exists frags. split; [exact Hs|].
    destruct (lineLoop p drained st) as [rest st'|rest st'|] eqn:E.
    + right. destruct (scans_order p _ _ _ _ Hs rest st' (or_introl eq_refl))
        as (lines & Hb & HF & Hfr).
      exists lines. cbn [held]. intuition.
    + right. destruct (scans_order p _ _ _ _ Hs rest st' (or_intror eq_refl))
        as (lines & Hb & HF & Hfr).
      exists lines. cbn [held]. intuition.
    + now left.
  - intros p buf st Hc. subst s'.
    rewrite (step_EvStep verbose s p _ Hc). now rewrite step_Requeue.
Qed.

End SystemFacts.

(** ** [ConsoleExpectRE] *)

Section PatternWait.

Variable Regexp : Type.
Variable FindAllSubmatch : Regexp -> bytes -> Z -> list (list bytes).

Local Abbreviation REp := (ConsoleExpectRE_p Regexp FindAllSubmatch).

Lemma appendGroups_ok m : forall matches,
  Forall (fun sub => (2 <= length sub)%nat) m ->
  appendGroups matches m = Some (matches ++ firstGroups m).
Proof.
  induction m as [|sub m IH]; intros matches HF; cbn [appendGroups firstGroups map].
  - now rewrite app_nil_r.
  - inversion HF as [|? ? Hl HF']; subst.
    destruct sub as [|s0 [|s1 sub]]; try (simpl in Hl; lia).
    cbn [nth_error nth]. rewrite (IH _ HF'). unfold firstGroups.
    now rewrite <- app_assoc.
Qed.

(** the closure on a fragment without a match, and on one with matches *)
Lemma REp_no_match re matches data :
  FindAllSubmatch re data (-1) = [] -> REp re matches data = Some (false, matches).
Proof. intros H. unfold ConsoleExpectRE_p. now rewrite H. Qed.

Lemma REp_match re matches data :
  FindAllSubmatch re data (-1) <> [] ->
  Forall (fun sub => (2 <= length sub)%nat) (FindAllSubmatch re data (-1)) ->
  REp re matches data =
  Some (true, matches ++ firstGroups (FindAllSubmatch re data (-1))).
Proof.
  intros Hne HF. unfold ConsoleExpectRE_p.
  rewrite (appendGroups_ok _ matches HF).
  destruct (FindAllSubmatch re data (-1)); [contradiction | reflexivity].
Qed.

(** as long as the closure has not matched, [matches] is still nil *)
Lemma REp_false re matches data st :
  REp re matches data = Some (false, st) -> st = matches.
Proof.
  unfold ConsoleExpectRE_p.
  destruct (FindAllSubmatch re data (-1)); [congruence|].
  destruct (appendGroups matches _); congruence.
Qed.

Lemma REp_scans_Break re buf st frags exit :
  scans (REp re) buf st frags exit ->
  forall rest st', exit = Break rest st' -> st' = st.
Proof.
  induction 1 as [line rest0 st st1 frags exit Hn Hp _ IH
                 |line rest0 st st1 Hn Hp |line rest0 st Hn Hp
                 |buf st st1 Hn Hp |buf st st1 Hn Hp |buf st Hn Hp];
    intros rest st' E; try discriminate.
  - apply REp_false in Hp. subst st1. now apply (IH rest).
  - injection E as _ <-. now apply REp_false in Hp.
Qed.

(** a call of [ConsoleExpectRE] that polls again has collected nothing *)
Lemma ConsoleExpectRE_polls_with_nil re buf q buf' st' :
  fst (consoleProcess_step (REp re) (Polling buf []) q) = Polling buf' st' ->
  st' = [].
Proof.
  cbn [consoleProcess_step].
  destruct (consoleDataArrived q).
  - destruct (lineLoop_scans (REp re) (buf ++ consoleData q) []) as (frags & Hs).
    destruct (lineLoop (REp re) (buf ++ consoleData q) []) as [b s|b s|] eqn:E;
      cbn [fst]; intros H; try discriminate.
    injection H as _ <-. exact (REp_scans_Break re _ _ _ _ Hs b s eq_refl).
  - destruct (consoleDataEOF q); cbn [fst]; intros H; [discriminate|].
    now injection H as _ <-.
Qed.

(** lines on which a processor neither matches nor changes its state
    are passed over *)
Lemma lineLoop_skip_lines {A} (p : LineProcessor A) (st : A) lines rest :
  Forall isLine lines ->
  Forall (fun l => p st l = Some (false, st)) lines ->
  lineLoop p (concat lines ++ rest) st = lineLoop p rest st.
Proof.
  induction lines as [|l lines IH]; intros HL HP; [reflexivity|].
  inversion HL as [|? ? (l0 & -> & Hn) HL']; subst.
  inversion HP as [|? ? Hp HP']; subst.
  cbn [concat]. rewrite <- app_assoc, (lineLoop_line p l0 _ st Hn), Hp.
  now apply IH.
Qed.

(** C1, as the code has it: a call that has found no match so far
    polls, and the first fragment with a match is [frag]; then the
    pattern wait returns the first captured group of every match in
    [frag], in order of appearance (every match has a first group when
    the pattern has at least one capturing group). *)
Theorem ConsoleExpectRE_returns_first_groups re buf q q' lines frag rest m :
  consoleDataArrived q = true ->
  buf ++ consoleData q = concat lines ++ frag ++ rest ->
  Forall isLine lines ->
  Forall (fun l => FindAllSubmatch re l (-1) = []) lines ->
  isLine frag \/ (~ In NL frag /\ rest = []) ->
  FindAllSubmatch re frag (-1) = m ->
  m <> [] ->
  Forall (fun sub => (2 <= length sub)%nat) m ->
  let c1 := fst (consoleProcess_step (REp re) (Polling buf []) q) in
  let c2 := fst (consoleProcess_step (REp re) c1 q') in
  ConsoleExpectRE_result c2 = Some (firstGroups m, None).
Proof.
  intros Ha Hb HL HN Hfrag Hm Hne HF c1 c2. subst c1 c2.
  rewrite (step_Polling_data (REp re) buf [] q Ha). cbn [fst]. rewrite Hb.
  rewrite lineLoop_skip_lines; [|exact HL|].
  2:{ eapply Forall_impl; [|exact HN]. intros l Hl. now apply REp_no_match. }
  assert (Hp : REp re [] frag = Some (true, firstGroups m)).
  { subst m. now rewrite REp_match. }
  destruct Hfrag as [(l0 & -> & Hn)|[Hn ->]].
  - rewrite (lineLoop_line (REp re) l0 rest [] Hn), Hp. reflexivity.
  - rewrite app_nil_r, (lineLoop_tail (REp re) frag [] Hn), Hp. reflexivity.
Qed.

End PatternWait.

(** ** [ConsoleExpect] across two chunks *)

Section LiteralWait.

Variable Regexp : Type.
Variable ReplaceAll : Regexp -> bytes -> bytes -> bytes.
Variable ansiRe : Regexp.

Local Abbreviation iter := (consolePump_iter Regexp ReplaceAll ansiRe).
Local Abbreviation step := (sys_step Regexp ReplaceAll ansiRe).
Local Abbreviation run := (sys_run Regexp ReplaceAll ansiRe).

Lemma run_cons {A} verbose (s : System A) e sched :
  run verbose s (e :: sched) = run verbose (step verbose s e) sched.
Proof. reflexivity. Qed.

Lemma run_app {A} verbose (s : System A) sched1 sched2 :
  run verbose s (sched1 ++ sched2) = run verbose (run verbose s sched1) sched2.
Proof. unfold sys_run. apply fold_left_app. Qed.

Lemma rest_entry {A} dir v :
  at_rest (sys_entry (A := A) (Qemu_new dir v)) [] false None.
Proof.
  unfold at_rest. cbn. repeat split.
  exists pumpEntry. repeat split; try reflexivity; apply pumpEntry_ok.
Qed.

Lemma rest_call {A} verbose (s : System A) data arrived p st :
  at_rest s data arrived None ->
  at_rest (step verbose s (EvCall p st)) data arrived (Some (p, Polling [] st)).
Proof.
  intros (Hp & Hd & Ha & He & Hc). cbn [sys_step]. rewrite Hc.
  unfold at_rest. cbn [pump world caller]. now repeat split.
Qed.

Lemma rest_step {A} verbose (s : System A) data arrived p c :
  at_rest s data arrived (Some (p, c)) ->
  let res := consoleProcess_step p c (qemu (world s)) in
  at_rest (step verbose s EvStep)
    (consoleData (snd res)) (consoleDataArrived (snd res))
    (Some (p, fst res)).
Proof.
  intros (Hp & Hd & Ha & He & Hc) res. rewrite (step_EvStep _ _ _ verbose s p c Hc).
  fold res. unfold at_rest. cbn [pump world caller with_qemu qemu].
  repeat split; try assumption.
  subst res. now rewrite step_keeps_EOF.
Qed.

Lemma rest_idle {A} verbose p buf (st : A) n : forall s,
  at_rest s [] false (Some (p, Polling buf st)) ->
  at_rest (run verbose s (repeat EvStep n)) [] false (Some (p, Polling buf st)).
Proof.
  induction n as [|n IH]; intros s H; [exact H|].
  cbn [repeat]. rewrite run_cons. apply IH.
  pose proof (rest_step verbose s _ _ p _ H) as H1. cbv zeta in H1.
  destruct H as (_ & Hd & Ha & He & _).
  rewrite (step_Polling_idle p buf st _ Ha He), Hd, app_nil_r in H1.
  exact H1.
Qed.

Lemma rest_poll {A} verbose (s : System A) data p buf st :
  at_rest s data true (Some (p, Polling buf st)) ->
  at_rest (step verbose s EvStep) [] false
    (Some (p, match lineLoop p (buf ++ data) st with
              | Matched buf' st' => Requeue buf' st'
              | Break buf' st' => Polling buf' st'
              | Panic => Panicked
              end)).
Proof.
  intros H. pose proof (rest_step verbose s _ _ p _ H) as H1. cbv zeta in H1.
  destruct H as (_ & Hd & Ha & _ & _).
  rewrite (step_Polling_data p buf st _ Ha), Hd in H1. exact H1.
Qed.

Lemma rest_requeue {A} verbose (s : System A) data arrived p buf st :
  at_rest s data arrived (Some (p, Requeue buf st)) ->
  at_rest (step verbose s EvStep) (buf ++ data) true
    (Some (p, Returned None st)).
Proof.
  intros H. pose proof (rest_step verbose s _ _ p _ H) as H1. cbv zeta in H1.
  destruct H as (_ & Hd & _ & _ & _).
  rewrite step_Requeue, Hd in H1. exact H1.
Qed.

Lemma rest_done {A} verbose p (c : Call A) data arrived n : forall s,
  finished c ->
  at_rest s data arrived (Some (p, c)) ->
  at_rest (run verbose s (repeat EvStep n)) data arrived (Some (p, c)).
Proof.
  induction n as [|n IH]; intros s Hf H; [exact H|].
  cbn [repeat]. rewrite run_cons. apply IH; [exact Hf|].
  pose proof (rest_step verbose s _ _ p _ H) as H1. cbv zeta in H1.
  destruct H as (_ & Hd & Ha & _ & _).
  rewrite step_finished in H1.
  - cbn [fst snd] in H1. rewrite Hd, Ha in H1. exact H1.
  - destruct c; try contradiction; [left; eauto | now right].
Qed.

(** a read of plain bytes, without error, appends them *)
Lemma rest_pump {A} verbose (s : System A) data arrived c r :
  at_rest s data arrived c ->
  ~ In ESC (rdata r) -> 0 < len (rdata r) <= 4096 -> rerr r = None ->
  at_rest (step verbose s (EvPump r)) (data ++ rdata r) true c.
Proof.
  intros ((fr & Hp & Hf & Hdl) & Hd & Ha & He & Hc) Hesc Hlen Herr.
  rewrite (step_EvPump _ _ _ verbose s fr r Hp).
  destruct (iter_plain Regexp ReplaceAll ansiRe verbose r fr (world s)
              Hf Hdl Hesc (proj2 Hlen)) as (Hcd & _ & Hfr).
  pose proof (iter_frame Regexp ReplaceAll ansiRe verbose r fr (world s)) as Hfst.
  rewrite Herr in Hfst.
  unfold at_rest. cbn [pump world caller]. split; [|split; [|split; [|split]]].
  - eexists. split; [exact Hfst|]. now apply Hfr.
  - now rewrite Hcd, Hd.
  - unfold consolePump_iter. rewrite Herr.
    destruct (Z.ltb_spec 0 (len (rdata r))) as [_|N]; [|lia].
    now rewrite pumpDeliver_eq.
  - unfold consolePump_iter. rewrite Herr.
    destruct (Z.ltb_spec 0 (len (rdata r))) as [_|N]; [|lia].
    rewrite pumpDeliver_eq. exact He.
  - exact Hc.
Qed.

(** what a caller that comes next finds when the line buffer is empty:
    the empty fragment once, then nothing *)
Lemma next_call_sees_nothing {A} verbose (s : System A) arrived c n :
  at_rest s [] arrived c ->
  exists seen,
    at_rest (run verbose (next_call s observe []) (repeat EvStep n))
      [] (match n with O => arrived | S _ => false end)
      (Some (observe, Polling [] seen)) /\
    (seen = [] \/ seen = [[]]).
Proof.
  intros (Hp & Hd & Ha & He & _).
  assert (H0 : at_rest (next_call s observe []) [] arrived
                 (Some (observe, Polling [] []))).
  { unfold at_rest, next_call. cbn [pump world caller]. now repeat split. }
  destruct n as [|n].
  - exists []. split; [exact H0 | now left].
  - cbn [repeat]. rewrite run_cons. destruct arrived.
    + exists [[]]. split; [|now right].
      apply rest_idle. exact (rest_poll verbose _ _ _ _ _ H0).
    + exists []. split; [|now left].
      apply (rest_idle verbose observe [] [] (S n)). exact H0.
Qed.

(** C5: the console delivers ["A"] and later ["B\n"]; a literal wait for
    ["AB"] entered before either chunk, and polling any number of times
    before, between and after them, returns without error once both
    are there.  The line buffer is then empty, and a call that comes
    next is handed the empty fragment at most: neither ["A"] nor ["B"]
    is seen again. *)
Theorem literal_wait_across_chunks verbose dir v a b c n :
  let sched :=
    ConsoleExpect "AB"
    :: repeat EvStep a ++ [EvPump (mkRead (of_string "A") None)]
    ++ repeat EvStep b ++ [EvPump (mkRead (of_string "B" ++ [NL]) None)]
    ++ repeat EvStep (2 + c) in
  let s := run verbose (sys_entry (Qemu_new dir v)) sched in
  option_map (fun pc => ConsoleExpect_result (snd pc)) (caller s) = Some (Some None) /\
  consoleData (qemu (world s)) = [] /\
  exists seen,
    option_map snd (caller (run verbose (next_call s observe []) (repeat EvStep n)))
      = Some (Polling [] seen) /\
    (seen = [] \/ seen = [[]]).
Proof.
  intros sched s. subst s sched.
  set (p := ConsoleExpect_p "AB").
  rewrite run_cons, !run_app.
  pose proof (rest_call verbose _ _ _ p tt (rest_entry (A := unit) dir v)) as H.
  fold (ConsoleExpect "AB") in H.
  set (s1 := step verbose (sys_entry (Qemu_new dir v)) (ConsoleExpect "AB")) in *.
  apply (rest_idle verbose p [] tt a) in H.
  set (s2 := run verbose s1 (repeat EvStep a)) in *.
  apply (rest_pump verbose s2 _ _ _ (mkRead (of_string "A") None)) in H;
    [|vm_compute; intuition discriminate | vm_compute; intuition discriminate
     |reflexivity].
  cbn [run_cons sys_run fold_left] in *.
  set (s3 := step verbose s2 (EvPump (mkRead (of_string "A") None))) in *.
  assert (H4 : exists buf data,
             at_rest (fold_left (step verbose) (repeat EvStep b) s3)
               data false (Some (p, Polling buf tt)) /\
             buf ++ data ++ of_string "B" ++ [NL] = of_string "AB" ++ [NL]
             \/ at_rest (fold_left (step verbose) (repeat EvStep b) s3)
               data true (Some (p, Polling buf tt)) /\
             buf ++ data ++ of_string "B" ++ [NL] = of_string "AB" ++ [NL]).
  { destruct b as [|b].
    - exists [], (of_string "A"). right. split; [exact H | reflexivity].
    - exists (of_string "A"), []. left. split; [|reflexivity].
      cbn [repeat fold_left].
      apply (rest_idle verbose p (of_string "A") tt b).
      exact (rest_poll verbose s3 _ p [] tt H). }
  set (s4 := fold_left (step verbose) (repeat EvStep b) s3) in *.
  assert (H5 : exists buf data,
             at_rest (step verbose s4 (EvPump (mkRead (of_string "B" ++ [NL]) None)))
               data true (Some (p, Polling buf tt)) /\
             buf ++ data = of_string "AB" ++ [NL]).
  { destruct H4 as (buf & data & [[H4 E]|[H4 E]]);
      exists buf, (data ++ of_string "B" ++ [NL]); (split; [|exact E]);
      apply (rest_pump verbose s4 _ _ _ (mkRead (of_string "B" ++ [NL]) None)) in H4;
      solve [ exact H4 | vm_compute; intuition discriminate | reflexivity ]. }
  set (s5 := step verbose s4 (EvPump (mkRead (of_string "B" ++ [NL]) None))) in *.
  destruct H5 as (buf & data & H5 & E).
  cbn [Nat.add repeat fold_left].
  apply rest_poll with (verbose := verbose) in H5. rewrite E in H5.
  change (lineLoop p (of_string "AB" ++ [NL]) tt) with (Matched (A := unit) [] tt) in H5.
  apply rest_requeue with (verbose := verbose) in H5. cbn [app] in H5.
  apply (rest_done verbose p _ [] true c) in H5; [|exact I].
  unfold sys_run in H5.
  set (s8 := fold_left (step verbose) (repeat EvStep c) _) in *.
  destruct (next_call_sees_nothing verbose s8 true _ n H5) as (seen & Hs & Hseen).
  destruct H5 as (_ & Hd & _ & _ & Hc).
  split; [|split].
  - exact (f_equal (option_map (fun pc => ConsoleExpect_result (snd pc))) Hc).
  - exact Hd.
  - exists seen. split; [|exact Hseen].
    destruct Hs as (_ & _ & _ & _ & Hc2). exact (f_equal (option_map snd) Hc2).
Qed.

End LiteralWait.

(** ** The session lifecycle *)

Section LifecycleFacts.

Import Lifecycle.
Local Open Scope string_scope.
Local Open Scope list_scope.

(** C7: [Kill] writes the line ["quit\n"] to the monitor and [Shutdown]
    the line ["system_powerdown\n"]; a failed write is logged and
    nothing else; both then run [wait], and both return nothing.  Apart
    from log lines, [wait] receives from [waitCh], cancels the context,
    closes the console connection and its listener, the monitor
    connection and its listener, and removes [socketsDir] with all it
    holds. *)
Theorem Kill_and_Shutdown_share_finalization env q :
  let sendLog :=
    match env_MonitorWrite env with
    | Some err => [LogPrintf ("monitor: " ++ Error err)]
    | None => []
    end in
  trace (Kill env q) =
    Write monitor (of_string "quit" ++ [NL]) :: sendLog ++ trace (wait env q) /\
  trace (Shutdown env q) =
    Write monitor (of_string "system_powerdown" ++ [NL]) :: sendLog
    ++ trace (wait env q) /\
  result (Kill env q) = inr tt /\
  result (Shutdown env q) = inr tt /\
  effects (trace (wait env q)) =
    [RecvWaitCh; CtxCancel;
     Close console; Close consoleListener; Close monitor; Close monitorListener;
     RemoveAll (socketsDir q)].
Proof.
  destruct env as [[ew|] [ex|] [er|]]; cbv zeta; repeat split; reflexivity.
Qed.

Lemma withDefaults_Kernel opts : Kernel (withDefaults opts) = Kernel opts.
Proof. reflexivity. Qed.

Lemma withDefaults_Append opts : Append (withDefaults opts) = Append opts.
Proof. reflexivity. Qed.

(** C10: with kernel arguments to append and no kernel, [NewQemu]
    returns an error, and its trace holds no [cmd.Start]: no process was
    started.  Where the temporary directory and the two listeners could
    be set up, the error is the one about [opts.Append]. *)
Theorem Append_without_Kernel_starts_nothing env opts :
  Kernel opts = "" ->
  Append opts <> [] ->
  (exists err, result (NewQemu env opts) = inl err) /\
  (forall binary args stdio, ~ In (Start binary args stdio) (trace (NewQemu env opts))) /\
  (snd (env_TempDir env) = None -> env_ListenMonitor env = None ->
   env_ListenConsole env = None ->
   result (NewQemu env opts) =
     inl (errorString "opts.Append only allowed with opts.Kernel option")).
Proof.
  intros HK HA. unfold NewQemu.
  rewrite withDefaults_Kernel, withDefaults_Append, HK.
  destruct (Append opts) as [|a0 rest]; [contradiction|].
  cbn [String.eqb length Nat.ltb Nat.leb andb].
  destruct env as [[dir [e1|]] [e2|] [e3|] es eam eac ew];
    cbn [env_TempDir env_ListenMonitor env_ListenConsole snd];
    (split; [eexists; reflexivity|]);
    (split; [|intros; (discriminate || reflexivity)]);
    intros binary args stdio; cbn; intuition discriminate.
Qed.

(** X17: the same guard in the earlier revision.  With kernel arguments
    to append and no kernel its [NewQemu] returns an error and its trace
    holds no [cmd.Start], whatever the environment does. *)
Lemma Append_without_Kernel_starts_nothing_earlier env opts :
  Earlier.Kernel opts = "" ->
  Earlier.Append opts <> [] ->
  (exists err, result (Earlier.NewQemu env opts) = inl err) /\
  (forall binary args stdio,
     ~ In (Start binary args stdio) (trace (Earlier.NewQemu env opts))).
Proof.
  intros HK HA. unfold Earlier.NewQemu.
  change (Earlier.Kernel (Earlier.withDefaults opts)) with (Earlier.Kernel opts).
  change (Earlier.Append (Earlier.withDefaults opts)) with (Earlier.Append opts).
  rewrite HK.
  destruct (Earlier.Append opts) as [|a0 rest]; [contradiction|].
  cbn [String.eqb length Nat.ltb Nat.leb andb].
  destruct env as [[dir [e1|]] [e2|] [e3|] es eam eac];
    cbn [Earlier.env_TempDir Earlier.env_ListenMonitor Earlier.env_ListenConsole];
    (split; [eexists; reflexivity|]);
    intros binary args stdio; cbn; intuition discriminate.
Qed.

(** X18: [Stop] of the earlier revision ends a session as [Kill] does,
    with [cmd.Wait] in the place of the receive from [waitCh]: whether or
    not the write to the monitor, the wait or the removal fail, every
    step of the finalization runs, in this order. *)
Lemma Stop_finalization env q :
  effects (trace (Earlier.Stop env q)) =
  [Write monitor (of_string "quit" ++ [NL]); CmdWait; CtxCancel;
   Close console; Close consoleListener; Close monitor; Close monitorListener;
   RemoveAll (socketsDir q)].
Proof. destruct env as [[ew|] [ex|] [er|]]; reflexivity. Qed.

End LifecycleFacts.

(** ** A caller that is never released *)

Section Parked.

Variable Regexp : Type.
Variable ReplaceAll : Regexp -> bytes -> bytes -> bytes.
Variable ansiRe : Regexp.

Local Abbreviation step := (sys_step Regexp ReplaceAll ansiRe).
Local Abbreviation run := (sys_run Regexp ReplaceAll ansiRe).

(** with no data, no flag and no pump, a polling call polls for ever *)
Lemma parked_forever {A} verbose p buf (st : A) n : forall s : System A,
  pump s = None ->
  consoleData (qemu (world s)) = [] ->
  consoleDataArrived (qemu (world s)) = false ->
  consoleDataEOF (qemu (world s)) = false ->
  caller s = Some (p, Polling buf st) ->
  let s' := run verbose s (repeat EvStep n) in
  pump s' = None /\
  consoleDataEOF (qemu (world s')) = false /\
  caller s' = Some (p, Polling buf st).
Proof.
  induction n as [|n IH]; intros s Hp Hd Ha He Hc; [now repeat split|].
  cbn [repeat]. unfold sys_run. cbn [fold_left].
  apply IH; rewrite (step_EvStep _ _ _ verbose s p _ Hc);
    rewrite (step_Polling_idle p buf st _ Ha He);
    cbn [pump world caller with_qemu qemu fst snd
         set_consoleData consoleData consoleDataArrived consoleDataEOF];
    rewrite ?Hd, ?app_nil_r; auto.
Qed.

End Parked.

(** ** The statements on concrete sessions *)

Section Examples.

Import GoRegexp Session.
Local Open Scope string_scope.
Local Open Scope list_scope.

Lemma no_byte (c : byte) (s : bytes) : IndexByte s c = -1 -> ~ In c s.
Proof. apply IndexByte_none. Qed.

(** the cases of [TestAnsiEscapeRemoval] *)

Example ansi_ovmf :
  ReplaceAllString ansiRe
    (ctl "drive=hd0~^[2J^[01;01H^[=3h^[2J^[01;01HBdsDxe: loading Boot0001") ""
  = ctl "drive=hd0~BdsDxe: loading Boot0001".
Proof. reflexivity. Qed.

Example ansi_seabios :
  ReplaceAllString ansiRe
    (ctl "hd0~^c^[?7l^[2J^[0mSeaBIOS (version ArchLinux 1.14.0-1)") ""
  = ctl "hd0~SeaBIOS (version ArchLinux 1.14.0-1)".
Proof. reflexivity. Qed.

Example ansi_seabios2 :
  ReplaceAllString ansiRe (ctl "ok~^c^[?7l^[2J[    0") "" = ctl "ok~[    0".
Proof. reflexivity. Qed.

Example ansi_linux :
  ReplaceAllString ansiRe (ctl "to ^[38;2;23;147;209mArch") "" = "to Arch".
Proof. reflexivity. Qed.

Example ansi_linux2 :
  ReplaceAllString ansiRe
    (ctl "[^[0;32m  OK  ^[0m] Created slice ^[0;1;39mSlice /system/getty^[0m.") ""
  = "[  OK  ] Created slice Slice /system/getty.".
Proof. reflexivity. Qed.

Example ansi_systemd :
  ReplaceAllString ansiRe (ctl "30s)~^M~^[K[ ***  ] A start job is r") ""
  = ctl "30s)~~[ ***  ] A start job is r".
Proof. reflexivity. Qed.

(** the pattern of the repository's boot test *)
Example starting_version :
  FindAllSubmatch re_starting_version (text "systemd: Starting version 245.5-2-arch~") (-1)
  = [[text "Starting version 245.5-2-arch"; text "245.5-2-arch"]].
Proof. reflexivity. Qed.

(** a whole session: the wait is entered, the line arrives, the wait
    returns the group *)
Example exit_code_session :
  let s := system_run false (sys_entry q0)
             [ExpectRE re_exit_code;
              EvStep;
              EvPump (mkRead (text "exit_code=42~") None);
              EvStep; EvStep] in
  option_map (fun pc => ConsoleExpectRE_result (snd pc)) (caller s)
  = Some (Some (["42"], None)).
Proof. vm_compute. reflexivity. Qed.

Lemma C1_witness :
  let p := ExpectRE_p re_exit_code in
  let q := set_consoleData q0 (text "exit_code=42~") true in
  let c1 := fst (consoleProcess_step p (Polling [] []) q) in
  let c2 := fst (consoleProcess_step p c1 (set_consoleData q0 [] false)) in
  ConsoleExpectRE_result c2 = Some (["42"], None).
Proof.
  apply (ConsoleExpectRE_returns_first_groups Regexp FindAllSubmatch
           re_exit_code [] (set_consoleData q0 (text "exit_code=42~") true)
           (set_consoleData q0 [] false)
           [] (text "exit_code=42~") []
           [[text "exit_code=42"; text "42"]]).
  - reflexivity.
  - reflexivity.
  - constructor.
  - constructor.
  - left. exists (text "exit_code=42").
    split; [reflexivity | apply no_byte; reflexivity].
  - reflexivity.
  - discriminate.
  - repeat constructor.
Defined.

(** C1 as stated fails: with two groups in the pattern, the wait
    returns the first group of the match only, not every group. *)
Lemma C1_counterexample :
  let line := text "version 5.10~" in
  let s := system_run false (sys_entry q0)
             [ExpectRE re_version; EvPump (mkRead line None); EvStep; EvStep] in
  let returned :=
    option_map (fun pc => ConsoleExpectRE_result (snd pc)) (caller s) in
  FindAllSubmatch re_version line (-1) = [[text "5.10"; text "5"; text "10"]] /\
  allGroups (FindAllSubmatch re_version line (-1)) = ["5"; "10"] /\
  returned = Some (Some (["5"], None)) /\
  returned <> Some (Some (allGroups (FindAllSubmatch re_version line (-1)), None)).
Proof.
  vm_compute. repeat split; discriminate.
Qed.

(** C2 as stated fails: after a read error other than [io.EOF] the pump
    is gone, the flag is not set, and the parked call polls for ever. *)
Lemma C2_counterexample :
  let s := system_run false (sys_entry q0)
             [ConsoleExpect "login:"; EvStep; EvPump r_reset] in
  rerr r_reset <> None /\
  pump s = None /\
  consoleDataEOF (qemu (world s)) = false /\
  forall n,
    option_map snd (caller (system_run false s (repeat EvStep n)))
    = Some (Polling [] tt).
Proof.
  cbv zeta. split; [discriminate|]. split; [reflexivity|]. split; [reflexivity|].
  intros n.
  destruct (parked_forever Regexp ReplaceAll ansiRe false
              (ConsoleExpect_p "login:") [] tt n
              (system_run false (sys_entry q0)
                 [ConsoleExpect "login:"; EvStep; EvPump r_reset])
              eq_refl eq_refl eq_refl eq_refl eq_refl) as (_ & _ & Hc).
  exact (f_equal (option_map snd) Hc).
Qed.

Lemma C2_witness :
  let s := system_step false (sys_entry q0) (ConsoleExpect "login:") in
  let s1 := system_step false s (EvPump (mkRead [] (Some io_EOF))) in
  pump s1 = None /\
  consoleDataEOF (qemu (world s1)) = true /\
  (consoleDataArrived (qemu (world s1)) = false ->
   caller (system_step false s1 EvStep)
   = Some (ConsoleExpect_p "login:", Returned (Some io_EOF) tt)) /\
  exists c,
    caller (system_run false s1 [EvStep; EvStep])
    = Some (ConsoleExpect_p "login:", c) /\ finished c.
Proof.
  exact (read_error_ends_pump Regexp ReplaceAll ansiRe false
           (system_step false (sys_entry q0) (ConsoleExpect "login:"))
           pumpEntry (mkRead [] (Some io_EOF)) io_EOF
           (ConsoleExpect_p "login:") [] tt eq_refl eq_refl eq_refl).
Defined.

Lemma C3_witness :
  let q := set_consoleDataEOF q0 true in
  let '(c, q') :=
    consoleProcess_step (ExpectRE_p re_exit_code) (Polling (text "exit_co") []) q in
  c = Returned (Some io_EOF) [] /\
  q' = set_consoleData q [] false /\
  forall q2, consoleProcess_step (ExpectRE_p re_exit_code) c q2 = (c, q2).
Proof.
  exact (eof_without_new_data_returns_EOF (ExpectRE_p re_exit_code)
           (text "exit_co") [] (set_consoleDataEOF q0 true) eq_refl eq_refl).
Defined.

Lemma C4_witness :
  let sched :=
    [ConsoleExpect "login:";
     EvPump (mkRead (text "Welcome~login: root~Last login") None);
     EvStep;
     EvPump (mkRead (text " more") None)] in
  let s := system_run false (sys_entry q0) sched in
  let s' := system_step false s EvStep in
  (exists consumed,
     pumped Regexp ReplaceAll ansiRe false q0 (reads sched) =
     consumed ++ inflight (caller s) ++ consoleData (qemu (world s))) /\
  option_map snd (caller s') = Some (Returned None tt) /\
  consoleData (qemu (world s')) = text "Last login more".
Proof.
  intros sched s s'.
  destruct (bytes_are_never_reordered Regexp ReplaceAll ansiRe false q0 sched)
    as (H1 & _ & H3).
  split; [exact H1|].
  destruct (H3 (ConsoleExpect_p "login:") (text "Last login") tt eq_refl)
    as (Hc & Hd & _).
  split; [exact (f_equal (option_map snd) Hc) | exact Hd].
Defined.

Lemma C6_witness :
  let r := mkRead (text "boot ok~^[3") None in
  let res := pump_iter true r pumpEntry (world_entry q0) in
  consoleData (qemu (snd res)) = text "boot ok~" /\
  stdout (snd res) = text "boot ok~" /\
  exists fr',
    fst res = Some fr' /\
    forall r2, read_ok fr' r2 -> readChunk fr' r2 = text "^[3" ++ rdata r2.
Proof.
  intros r res.
  destruct (incomplete_escape_is_carried Regexp ReplaceAll ansiRe
              true r pumpEntry (world_entry q0) 8
              (pumpEntry_ok) ltac:(vm_compute; discriminate) eq_refl
              eq_refl eq_refl)
    as (Hcd & Hso & _ & _ & Hnext).
  split; [exact Hcd|]. split; [exact Hso|].
  destruct (Hnext eq_refl) as (fr' & Hfr & _ & Hchunk).
  exists fr'. split; [exact Hfr | exact Hchunk].
Defined.

Lemma C8_witness :
  let rs := [mkRead (text "A") None;
             mkRead (text "B~") (Some io_EOF);
             mkRead (text "never read") None] in
  let w' := snd (pump_run true rs pumpEntry (world_entry q0)) in
  consoleData (qemu w') = text "AB~" /\ stdout w' = text "AB~".
Proof.
  intros rs w'.
  apply (pump_is_identity_without_ESC Regexp ReplaceAll ansiRe true rs
           (world_entry q0)).
  repeat constructor; try (apply no_byte; reflexivity);
    vm_compute; discriminate.
Defined.

Lemma C9_witness :
  let p := ConsoleExpect_p "password:" in
  let prompt := text "Enter password: " in
  let q := set_consoleData q0 prompt true in
  let '(c1, q1) := consoleProcess_step p (consoleProcess_entry tt) q in
  let '(c2, q2) := consoleProcess_step p c1 q1 in
  let '(c3, q3) := consoleProcess_step p (consoleProcess_entry tt) q2 in
  c1 = Requeue prompt tt /\ c2 = Returned None tt /\
  consoleData q2 = prompt /\ c3 = Requeue prompt tt.
Proof.
  pose proof (unterminated_match_is_requeued
                (ConsoleExpect_p "password:") (ConsoleExpect_p "password:")
                [] tt (set_consoleData q0 (text "Enter password: ") true)
                [] (text "Enter password: ") (text "Enter password: ") tt [] tt
                eq_refl
                (scans_tail_match (ConsoleExpect_p "password:")
                   (text "Enter password: ") tt tt
                   (no_byte NL (text "Enter password: ") eq_refl) eq_refl)
                (no_byte NL (text "Enter password: ") eq_refl)) as H.
  vm_compute in H |- *. destruct H as (H1 & H2 & H3 & _).
  repeat split; assumption.
Defined.

Lemma C10_witness :
  Lifecycle.result (Lifecycle.NewQemu startEnv_ok opts_no_kernel)
  = inl (errorString "opts.Append only allowed with opts.Kernel option") /\
  forall binary args stdio,
    ~ In (Lifecycle.Start binary args stdio)
         (Lifecycle.trace (Lifecycle.NewQemu startEnv_ok opts_no_kernel)).
Proof.
  destruct (Append_without_Kernel_starts_nothing startEnv_ok opts_no_kernel
              eq_refl ltac:(discriminate)) as (_ & Hno & Herr).
  split; [exact (Herr eq_refl eq_refl eq_refl) | exact Hno].
Defined.

End Examples.

(** * More about the code *)

(** ** The pump: its buffer, what it carries over, what it drops *)

Section PumpMore.

Variable Regexp : Type.
Variable ReplaceAll : Regexp -> bytes -> bytes -> bytes.
Variable ansiRe : Regexp.

Local Abbreviation strip := (stripEscapes Regexp ReplaceAll ansiRe).
Local Abbreviation deliver := (pumpDeliver Regexp ReplaceAll ansiRe).
Local Abbreviation iter := (consolePump_iter Regexp ReplaceAll ansiRe).
Local Abbreviation pumpRun := (consolePump Regexp ReplaceAll ansiRe).
Local Abbreviation sent := (delivered Regexp ReplaceAll ansiRe).

(** the chunk after the [if bytes.Contains] block, before it is cut *)
Let filtered (chunk : bytes) : bytes :=
  if Contains chunk [ESC] then ReplaceAll ansiRe chunk [] else chunk.

(** the block leaves a full array and a short tail, and what it hands on
    followed by what it keeps is the filtered chunk *)
Lemma strip_keeps buf0 chunk :
  length buf0 = 4096%nat ->
  let res := strip buf0 chunk in
  let fr' := {| buf := fst (fst res); dataLength := snd (fst res) |} in
  frame_ok fr' /\ snd res ++ carried fr' = filtered chunk.
Proof.
  intros Hb. unfold stripEscapes, filtered, carried.
  destruct (Contains chunk [ESC]).
  2:{ cbn [fst snd buf dataLength]. split.
      - unfold frame_ok, asciiSeqMaxLength; cbn [buf dataLength]; split; [exact Hb | lia].
      - apply app_nil_r. }
  set (toPrint := ReplaceAll ansiRe chunk []).
  pose proof (LastIndexByte_range toPrint ESC) as R.
  destruct (Z.eqb_spec (LastIndexByte toPrint ESC) (-1)) as [E|E]; cbn [negb andb].
  { cbn [fst snd buf dataLength]. split.
    - unfold frame_ok, asciiSeqMaxLength; cbn [buf dataLength]; split; [exact Hb | lia].
    - apply app_nil_r. }
  destruct (Z.ltb_spec (len toPrint - LastIndexByte toPrint ESC) asciiSeqMaxLength)
    as [L|L].
  - cbn [fst snd buf dataLength].
    rewrite <- (len_from toPrint (LastIndexByte toPrint ESC)) in * by lia.
    destruct (carry_frame buf0 (from toPrint (LastIndexByte toPrint ESC)) Hb L)
      as [Hok Hc].
    split; [exact Hok|]. cbn [buf dataLength] in Hc. rewrite Hc.
    apply upto_from.
  - cbn [fst snd buf dataLength]. split.
    + unfold frame_ok, asciiSeqMaxLength; cbn [buf dataLength]; split; [exact Hb | lia].
    + apply app_nil_r.
Qed.

(** every iteration leaves the locals as it found them: 4096 bytes of
    array, fewer than 30 of them kept *)
Lemma iter_keeps_frame verbose r fr w :
  frame_ok fr ->
  match fst (iter verbose r fr w) with
  | Some fr' => frame_ok fr'
  | None => True
  end.
Proof.
  intros Hf. rewrite iter_frame. destruct (rerr r); [exact I|].
  destruct (0 <? len (rdata r)); [|exact Hf].
  rewrite pumpDeliver_eq. cbv zeta. cbn [fst].
  exact (proj1 (strip_keeps _ _ (length_console_Read fr r Hf))).
Qed.

Lemma pumpRun_keeps_frame verbose rs : forall fr w,
  frame_ok fr ->
  match fst (pumpRun verbose rs fr w) with
  | Some fr' => frame_ok fr'
  | None => True
  end.
Proof.
  induction rs as [|r rs IH]; intros fr w Hf; cbn [consolePump]; [exact Hf|].
  pose proof (iter_keeps_frame verbose r fr w Hf) as H.
  destruct (iter verbose r fr w) as [[fr'|] w']; cbn [fst] in H |- *;
    [now apply IH | exact I].
Qed.

(** X1: whatever [Read] returns and however often, the pump's array keeps
    its 4096 bytes and the pump keeps fewer than 30 of them for the next
    round: the slice [buf[dataLength:]] it offers to [Read] is never
    shorter than 4067 bytes, and [buf[:dataLength]] is within bounds. *)
Theorem pump_always_offers_room verbose rs w :
  match fst (pumpRun verbose rs pumpEntry w) with
  | Some fr =>
      length (buf fr) = 4096%nat /\
      0 <= dataLength fr < asciiSeqMaxLength /\
      4067 <= len (from (buf fr) (dataLength fr)) /\
      len (carried fr) = dataLength fr
  | None => True
  end.
Proof.
  pose proof (pumpRun_keeps_frame verbose rs pumpEntry w
                (pumpEntry_ok)) as H.
  destruct (fst (pumpRun verbose rs pumpEntry w)) as [fr|]; [|exact I].
  destruct H as [Hb Hd]. unfold asciiSeqMaxLength in *.
  repeat split; try assumption; try lia.
  - unfold len, from. rewrite length_skipn. lia.
  - unfold len, carried, upto. rewrite length_firstn. lia.
Qed.

(** an iteration that read bytes without an error *)
Lemma iter_data verbose r fr w :
  frame_ok fr -> read_ok fr r -> 0 < len (rdata r) -> rerr r = None ->
  exists fr',
    iter verbose r fr w =
      (Some fr',
       {| qemu := set_consoleData (qemu w) (consoleData (qemu w) ++ sent r fr) true;
          stdout := stdout w ++ (if verbose then sent r fr else []);
          logged := logged w |}) /\
    frame_ok fr' /\
    sent r fr ++ carried fr' = filtered (carried fr ++ rdata r) /\
    forall r2, read_ok fr' r2 -> readChunk fr' r2 = carried fr' ++ rdata r2.
Proof.
  intros Hf Hr Hn He. unfold consolePump_iter, delivered. rewrite He.
  destruct (Z.ltb_spec 0 (len (rdata r))) as [_|N]; [|lia].
  rewrite pumpDeliver_eq. cbv zeta.
  destruct (strip_keeps (console_Read fr r) (readChunk fr r)
              (length_console_Read fr r Hf)) as [Hok Hsplit].
  cbv zeta in Hok, Hsplit.
  eexists. split; [reflexivity|]. split; [exact Hok|]. split.
  - rewrite Hsplit. unfold carried at 1. now rewrite <- (readChunk_eq fr r Hf Hr).
  - intros r2 Hr2. exact (readChunk_eq _ r2 Hok Hr2).
Qed.

(** X2: an iteration that reads bytes loses none and adds none of its
    own: the filter runs on the kept tail followed by the bytes read, and
    what the iteration appends to the line buffer, followed by what it
    keeps for the next iteration, is the filter's output.  The next
    iteration starts from the kept tail. *)
Theorem iteration_delivers_or_keeps verbose r fr w :
  frame_ok fr -> read_ok fr r -> 0 < len (rdata r) -> rerr r = None ->
  let chunk := carried fr ++ rdata r in
  let out := if Contains chunk [ESC] then ReplaceAll ansiRe chunk [] else chunk in
  exists fr' appended,
    fst (iter verbose r fr w) = Some fr' /\
    consoleData (qemu (snd (iter verbose r fr w))) = consoleData (qemu w) ++ appended /\
    appended ++ carried fr' = out /\
    frame_ok fr' /\
    forall r2, read_ok fr' r2 -> readChunk fr' r2 = carried fr' ++ rdata r2.
Proof.
  intros Hf Hr Hn He chunk out.
  destruct (iter_data verbose r fr w Hf Hr Hn He) as (fr' & Hi & Hok & Hs & Hnext).
  exists fr', (sent r fr). rewrite Hi. cbn [fst snd qemu consoleData set_consoleData].
  split; [reflexivity|]. split; [reflexivity|]. split; [exact Hs|].
  split; [exact Hok | exact Hnext].
Qed.

(** X3: when [Read] fails the pump returns at once and what it kept is
    gone.  After an iteration that kept a tail, a read that fails without
    bytes ends the pump with the tail undelivered: the line buffer
    followed by that tail is all the filter put out, and no later read is
    made that could bring the tail in. *)
Theorem kept_tail_is_dropped_on_exit verbose r1 r2 rs fr w err :
  frame_ok fr -> read_ok fr r1 -> 0 < len (rdata r1) -> rerr r1 = None ->
  rdata r2 = [] -> rerr r2 = Some err ->
  let chunk := carried fr ++ rdata r1 in
  let out := if Contains chunk [ESC] then ReplaceAll ansiRe chunk [] else chunk in
  let res := pumpRun verbose (r1 :: r2 :: rs) fr w in
  exists fr1,
    fst (iter verbose r1 fr w) = Some fr1 /\
    fst res = None /\
    consoleData (qemu (snd res)) ++ carried fr1 = consoleData (qemu w) ++ out.
Proof.
  intros Hf Hr Hn He Hd2 He2 chunk out res.
  destruct (iter_data verbose r1 fr w Hf Hr Hn He) as (fr1 & Hi & _ & Hs & _).
  exists fr1. subst res. cbn [consolePump]. rewrite Hi. cbn [fst].
  split; [reflexivity|].
  unfold consolePump_iter at 1 2. rewrite Hd2, He2. cbn [len length Z.of_nat Z.ltb Z.compare].
  destruct err; cbn [fst snd qemu with_qemu log_Print set_consoleDataEOF
                     set_consoleData consoleData];
    (split; [reflexivity|]); rewrite <- app_assoc; f_equal; exact Hs.
Qed.

End PumpMore.

(** ** The fragments a call evaluates *)

Section FragmentsMore.

Context {A : Type} (p : LineProcessor A).

Lemma scans_nonempty buf (st : A) frags exit :
  scans p buf st frags exit -> frags <> [].
Proof.
  intros H. destruct (scans_first p _ _ _ _ H) as (f & fs & -> & _). discriminate.
Qed.

Lemma scans_shape buf (st : A) frags exit :
  scans p buf st frags exit ->
  Forall isLine (removelast frags) /\
  isFragment (last frags []) /\
  exists rest, buf = concat frags ++ rest.
Proof.
  induction 1 as [line rest0 st st1 frags exit Hn Hp Hs IH
                 |line rest0 st st1 Hn Hp |line rest0 st Hn Hp
                 |buf st st1 Hn Hp |buf st st1 Hn Hp |buf st Hn Hp].
  - destruct IH as (HF & Hl & rest & ->).
    pose proof (scans_nonempty _ _ _ _ Hs) as Hne.
    destruct frags as [|f fs]; [contradiction|].
    cbn [removelast last]. split; [|split].
    + constructor; [now exists line | exact HF].
    + exact Hl.
    + exists rest. cbn [concat]. now rewrite <- !app_assoc.
  - cbn [removelast last concat]. split; [constructor|]. split.
    + left. now exists line.
    + exists rest0. now rewrite app_nil_r.
  - cbn [removelast last concat]. split; [constructor|]. split.
    + left. now exists line.
    + exists rest0. now rewrite app_nil_r.
  - cbn [removelast last concat]. split; [constructor|]. split;
      [now right | exists []; now rewrite !app_nil_r].
  - cbn [removelast last concat]. split; [constructor|]. split;
      [now right | exists []; now rewrite !app_nil_r].
  - cbn [removelast last concat]. split; [constructor|]. split;
      [now right | exists []; now rewrite !app_nil_r].
Qed.

(** X4: whatever the buffer holds, the inner loop of [consoleProcess]
    hands the processor at least one fragment; the fragments are
    consecutive pieces of the buffer from its first byte on; all but the
    last are full lines (one newline, at the end), and the last is a full
    line or has no newline.  So the processor never sees bytes from two
    lines at once. *)
Theorem processor_sees_one_line_at_a_time buf (st : A) :
  exists frags,
    scans p buf st frags (lineLoop p buf st) /\
    frags <> [] /\
    Forall isLine (removelast frags) /\
    isFragment (last frags []) /\
    exists rest, buf = concat frags ++ rest.
Proof.
  destruct (lineLoop_scans p buf st) as (frags & Hs).
  exists frags. split; [exact Hs|]. split; [exact (scans_nonempty _ _ _ _ Hs)|].
  exact (scans_shape _ _ _ _ Hs).
Qed.

Lemma scans_all_fragments buf (st : A) frags exit :
  scans p buf st frags exit -> Forall isFragment frags.
Proof.
  induction 1 as [line rest0 st st1 frags exit Hn Hp Hs IH
                 |line rest0 st st1 Hn Hp |line rest0 st Hn Hp
                 |buf st st1 Hn Hp |buf st st1 Hn Hp |buf st Hn Hp].
  - apply Forall_cons; [left; now exists line | exact IH].
  - apply Forall_cons; [left; now exists line | apply Forall_nil].
  - apply Forall_cons; [left; now exists line | apply Forall_nil].
  - apply Forall_cons; [now right | apply Forall_nil].
  - apply Forall_cons; [now right | apply Forall_nil].
  - apply Forall_cons; [now right | apply Forall_nil].
Qed.

End FragmentsMore.

(** ** [ConsoleExpect] *)

Section LiteralMore.

Lemma HasPrefix_split s : forall prefix,
  HasPrefix s prefix = true -> exists post, s = prefix ++ post.
Proof.
  induction s as [|x t IH]; intros [|a pre] H; cbn [HasPrefix] in H;
    try discriminate.
  - now exists [].
  - now exists (x :: t).
  - apply andb_true_iff in H. destruct H as [E H].
    destruct (eqb_spec x a) as [->|]; [|discriminate].
    destruct (IH pre H) as (post & ->). now exists post.
Qed.

Lemma Contains_split s : forall sub,
  Contains s sub = true -> exists pre post, s = pre ++ sub ++ post.
Proof.
  induction s as [|x t IH]; intros sub H; cbn [Contains] in H;
    apply orb_true_iff in H; destruct H as [H|H]; try discriminate.
  - destruct (HasPrefix_split _ _ H) as (post & ->). now exists [], post.
  - destruct (HasPrefix_split _ _ H) as (post & ->). now exists [], post.
  - destruct (IH sub H) as (pre & post & ->). now exists (x :: pre), post.
Qed.

Lemma HasPrefix_app prefix post : HasPrefix (prefix ++ post) prefix = true.
Proof.
  induction prefix as [|a pre IH]; cbn [app HasPrefix];
    [apply HasPrefix_nil | now rewrite eqb_refl, IH].
Qed.

Lemma Contains_app pre sub post : Contains (pre ++ sub ++ post) sub = true.
Proof.
  induction pre as [|x pre IH]; cbn [app].
  - destruct (sub ++ post) eqn:E; cbn [Contains]; rewrite <- E;
      now rewrite HasPrefix_app.
  - cbn [Contains]. rewrite IH. apply orb_true_r.
Qed.

(** a text with a newline before its end occurs in no fragment *)
Lemma no_match_across_lines f a b c :
  isFragment f -> Contains f (a ++ NL :: b :: c) = false.
Proof.
  intros Hf. destruct (Contains f (a ++ NL :: b :: c)) eqn:E; [|reflexivity].
  exfalso. destruct (Contains_split _ _ E) as (pre & post & ->).
  destruct Hf as [(l0 & Hl & Hn)|Hn].
  - rewrite <- app_assoc in Hl. cbn [app] in Hl.
    rewrite app_assoc in Hl. apply app_eq_app in Hl.
    destruct Hl as (l & [[E1 E2]|[E1 E2]]).
    + apply (f_equal (@length byte)) in E2. rewrite length_app in E2.
      simpl in E2. lia.
    + destruct l as [|y l].
      * apply (f_equal (@length byte)) in E2. simpl in E2. lia.
      * injection E2 as <- _. apply Hn. rewrite E1.
        apply in_or_app. right. now left.
  - apply Hn. apply in_or_app. right. apply in_or_app. left.
    apply in_or_app. right. now left.
Qed.

Lemma scans_never_matches_across_lines str a b c buf st frags exit :
  of_string str = a ++ NL :: b :: c ->
  scans (ConsoleExpect_p str) buf st frags exit ->
  exists rest st', exit = Break rest st'.
Proof.
  intros Hstr.
  assert (Hno : forall f st0 st1, isFragment f ->
                  ConsoleExpect_p str st0 f <> Some (true, st1)).
  { intros f st0 st1 Hf. unfold ConsoleExpect_p.
    rewrite Hstr, (no_match_across_lines f a b c Hf). discriminate. }
  induction 1 as [line rest0 st st1 frags exit Hn Hp Hs IH
                 |line rest0 st st1 Hn Hp |line rest0 st Hn Hp
                 |buf st st1 Hn Hp |buf st st1 Hn Hp |buf st Hn Hp].
  - exact IH.
  - exfalso. apply (Hno _ _ _ (or_introl (ex_intro _ line (conj eq_refl Hn))) Hp).
  - discriminate.
  - now exists buf, st1.
  - exfalso. exact (Hno _ _ _ (or_intror Hn) Hp).
  - discriminate.
Qed.

(** X6: a literal wait consumes up to and including the first line that
    holds the text and leaves the rest: when the first fragment holding
    [str] is [frag], the call returns nil after putting back what follows
    [frag], in front of what the line buffer holds by then.  When [frag]
    is the unterminated rest, it is [frag] itself that is put back. *)
Theorem ConsoleExpect_consumes_to_first_match str buf q q' lines frag rest :
  consoleDataArrived q = true ->
  buf ++ consoleData q = concat lines ++ frag ++ rest ->
  Forall isLine lines ->
  Forall (fun l => Contains l (of_string str) = false) lines ->
  isLine frag \/ (~ In NL frag /\ rest = []) ->
  Contains frag (of_string str) = true ->
  let p := ConsoleExpect_p str in
  let c1 := fst (consoleProcess_step p (Polling buf tt) q) in
  let res := consoleProcess_step p c1 q' in
  exists kept,
    c1 = Requeue kept tt /\
    ConsoleExpect_result (fst res) = Some None /\
    consoleData (snd res) = kept ++ consoleData q' /\
    ((isLine frag /\ kept = rest) \/ (~ In NL frag /\ kept = frag)).
Proof.
  intros Ha Hb HL HN Hfrag Hm p c1 res. subst c1 res.
  rewrite (step_Polling_data p buf tt q Ha). cbn [fst]. rewrite Hb.
  rewrite lineLoop_skip_lines; [|exact HL|].
  2:{ eapply Forall_impl; [|exact HN]. intros l Hl. unfold p, ConsoleExpect_p.
      now rewrite Hl. }
  assert (Hp : p tt frag = Some (true, tt))
    by (unfold p, ConsoleExpect_p; now rewrite Hm).
  destruct Hfrag as [(l0 & -> & Hn)|[Hn ->]].
  - rewrite (lineLoop_line p l0 rest tt Hn), Hp. exists rest.
    rewrite step_Requeue. cbn [fst snd ConsoleExpect_result consoleData set_consoleData].
    repeat split. left. split; [now exists l0 | reflexivity].
  - rewrite app_nil_r, (lineLoop_tail p frag tt Hn), Hp. exists frag.
    rewrite step_Requeue. cbn [fst snd ConsoleExpect_result consoleData set_consoleData].
    repeat split. right. now split.
Qed.

End LiteralMore.

(** ** [ConsoleExpectRE] *)

Section PatternMore.

Variable Regexp : Type.
Variable FindAllSubmatch : Regexp -> bytes -> Z -> list (list bytes).

Local Abbreviation REp := (ConsoleExpectRE_p Regexp FindAllSubmatch).

Lemma appendGroups_some m : forall matches r,
  appendGroups matches m = Some r -> r = matches ++ firstGroups m.
Proof.
  induction m as [|sub m IH]; intros matches r H; cbn [appendGroups] in H.
  - injection H as <-. cbn. now rewrite app_nil_r.
  - destruct sub as [|s0 [|s1 sub]]; cbn [nth_error] in H; try discriminate.
    apply IH in H. subst r. cbn [firstGroups map nth].
    now rewrite <- app_assoc.
Qed.

Lemma appendGroups_short m : forall matches,
  Exists (fun sub => (length sub < 2)%nat) m -> appendGroups matches m = None.
Proof.
  induction m as [|sub m IH]; intros matches H; [inversion H|].
  cbn [appendGroups].
  destruct sub as [|s0 [|s1 sub]]; cbn [nth_error]; try reflexivity.
  apply IH. inversion H as [? ? Hl|? ? Hm]; subst; [simpl in Hl; lia | exact Hm].
Qed.

Lemma REp_true re matches data st :
  REp re matches data = Some (true, st) ->
  FindAllSubmatch re data (-1) <> [] /\
  st = matches ++ firstGroups (FindAllSubmatch re data (-1)).
Proof.
  unfold ConsoleExpectRE_p.
  destruct (FindAllSubmatch re data (-1)) as [|s0 m] eqn:E; [discriminate|].
  destruct (appendGroups matches (s0 :: m)) as [r|] eqn:G; [|discriminate].
  intros H. injection H as <-. split; [discriminate|].
  exact (appendGroups_some _ _ _ G).
Qed.

Lemma REp_scans_Matched re buf st frags exit :
  scans (REp re) buf st frags exit ->
  forall rest st', exit = Matched rest st' ->
  exists frag,
    In frag frags /\ FindAllSubmatch re frag (-1) <> [] /\
    st' = st ++ firstGroups (FindAllSubmatch re frag (-1)).
Proof.
  induction 1 as [line rest0 st st1 frags exit Hn Hp _ IH
                 |line rest0 st st1 Hn Hp |line rest0 st Hn Hp
                 |buf st st1 Hn Hp |buf st st1 Hn Hp |buf st Hn Hp];
    intros rest st' E; try discriminate.
  - apply REp_false in Hp. subst st1.
    destruct (IH rest st' E) as (frag & Hin & Hne & Hst).
    exists frag. split; [now right | now split].
  - injection E as _ <-. apply REp_true in Hp. destruct Hp as [Hne Hst].
    exists (line ++ [NL]). split; [now left | now split].
  - injection E as _ <-. apply REp_true in Hp. destruct Hp as [Hne Hst].
    exists buf. split; [now left | now split].
Qed.

(** X7: a pattern without a capturing group makes the wait panic, not
    return: as soon as a fragment has a match, the closure indexes
    [s[1]] of a match that has one entry only.  Until then the call polls
    as usual. *)
Theorem ConsoleExpectRE_panics_without_group re buf matches q lines frag rest :
  consoleDataArrived q = true ->
  buf ++ consoleData q = concat lines ++ frag ++ rest ->
  Forall isLine lines ->
  Forall (fun l => FindAllSubmatch re l (-1) = []) lines ->
  isLine frag \/ (~ In NL frag /\ rest = []) ->
  Exists (fun sub => (length sub < 2)%nat) (FindAllSubmatch re frag (-1)) ->
  let c1 := fst (consoleProcess_step (REp re) (Polling buf matches) q) in
  c1 = Panicked /\
  ConsoleExpectRE_result c1 = None /\
  forall q2, fst (consoleProcess_step (REp re) c1 q2) = Panicked.
Proof.
  intros Ha Hb HL HN Hfrag Hex c1. subst c1.
  rewrite (step_Polling_data (REp re) buf matches q Ha). cbn [fst]. rewrite Hb.
  rewrite lineLoop_skip_lines; [|exact HL|].
  2:{ eapply Forall_impl; [|exact HN]. intros l Hl. now apply REp_no_match. }
  assert (Hp : REp re matches frag = None).
  { unfold ConsoleExpectRE_p. rewrite (appendGroups_short _ matches Hex).
    destruct (FindAllSubmatch re frag (-1)); [inversion Hex | reflexivity]. }
  destruct Hfrag as [(l0 & -> & Hn)|[Hn ->]].
  - rewrite (lineLoop_line (REp re) l0 rest matches Hn), Hp. now repeat split.
  - rewrite app_nil_r, (lineLoop_tail (REp re) frag matches Hn), Hp.
    now repeat split.
Qed.

(** one step of a pattern wait keeps what the call has collected in
    line with where it stands *)
Lemma REp_step_collects re (c : Call (list string)) q :
  match c with
  | Polling _ st => st = []
  | Requeue _ st | Returned None st =>
      exists frag, isFragment frag /\ FindAllSubmatch re frag (-1) <> [] /\
                   st = firstGroups (FindAllSubmatch re frag (-1))
  | _ => True
  end ->
  match fst (consoleProcess_step (REp re) c q) with
  | Polling _ st => st = []
  | Requeue _ st | Returned None st =>
      exists frag, isFragment frag /\ FindAllSubmatch re frag (-1) <> [] /\
                   st = firstGroups (FindAllSubmatch re frag (-1))
  | _ => True
  end.
Proof.
  destruct c as [buf st|buf st|[err|] st|]; intros H;
    cbn [consoleProcess_step fst]; try exact H; try exact I.
  subst st. destruct (consoleDataArrived q).
  - destruct (lineLoop_scans (REp re) (buf ++ consoleData q) []) as (frags & Hs).
    destruct (lineLoop (REp re) (buf ++ consoleData q) []) as [b s|b s|] eqn:E;
      cbn [fst].
    + destruct (REp_scans_Matched re _ _ _ _ Hs b s eq_refl)
        as (frag & Hin & Hne & Hst).
      exists frag. split; [|now split].
      pose proof (scans_all_fragments _ _ _ _ _ Hs) as HF.
      rewrite Forall_forall in HF. now apply HF.
    + exact (REp_scans_Break Regexp FindAllSubmatch re _ _ _ _ Hs b s eq_refl).
    + exact I.
  - destruct (consoleDataEOF q); cbn [fst]; [exact I | reflexivity].
Qed.

End PatternMore.

(** ** Whole sessions *)

Section SystemMore.

Variable Regexp : Type.
Variable ReplaceAll : Regexp -> bytes -> bytes -> bytes.
Variable FindAllSubmatch : Regexp -> bytes -> Z -> list (list bytes).
Variable ansiRe : Regexp.

Local Abbreviation iter := (consolePump_iter Regexp ReplaceAll ansiRe).
Local Abbreviation pumpRun := (consolePump Regexp ReplaceAll ansiRe).
Local Abbreviation step := (sys_step Regexp ReplaceAll ansiRe).
Local Abbreviation run := (sys_run Regexp ReplaceAll ansiRe).
Local Abbreviation REp := (ConsoleExpectRE_p Regexp FindAllSubmatch).
Local Abbreviation ExpectRE := (ConsoleExpectRE Regexp FindAllSubmatch).

Lemma step_EvPump_caller {A} verbose (s : System A) r :
  caller (step verbose s (EvPump r)) = caller s.
Proof.
  cbn [sys_step]. destruct (pump s) as [fr|]; [|reflexivity].
  now destruct (iter verbose r fr (world s)).
Qed.

Lemma step_EvCall_idle {A} verbose (s : System A) p st :
  idle s -> caller (step verbose s (EvCall p st)) = Some (p, Polling [] st).
Proof.
  unfold idle. cbn [sys_step].
  destruct (caller s) as [[p0 [b s1|b s1|e s1|]]|]; intros H;
    try contradiction; reflexivity.
Qed.

(** a property of the call that every step of the call keeps holds for
    as long as the caller enters no other call *)
Lemma call_invariant {A} (p : LineProcessor A) (Inv : Call A -> Prop) :
  (forall c q, Inv c -> Inv (fst (consoleProcess_step p c q))) ->
  forall verbose sched (s : System A),
    noCalls sched ->
    (exists c, caller s = Some (p, c) /\ Inv c) ->
    exists c, caller (run verbose s sched) = Some (p, c) /\ Inv c.
Proof.
  intros Hstep verbose sched.
  induction sched as [|e sched IH]; intros s Hno Hs; [exact Hs|].
  inversion Hno as [|? ? He Hno']; subst.
  change (run verbose s (e :: sched)) with (run verbose (step verbose s e) sched).
  apply IH; [exact Hno'|].
  destruct Hs as (c & Hc & Hi).
  destruct e as [r|p0 st0|]; [|contradiction|].
  - exists c. now rewrite step_EvPump_caller.
  - rewrite (step_EvStep _ _ _ verbose s p c Hc). cbn [caller].
    eexists. split; [reflexivity | now apply Hstep].
Qed.

(** X5: a literal wait cannot match across a line boundary.  When the
    text waited for has a newline anywhere but at its end, the wait never
    returns nil, whatever the console prints and however pump and caller
    interleave: the call is polling, or has returned an error. *)
Theorem ConsoleExpect_never_matches_across_lines verbose (s0 : System unit)
    str a b c sched :
  of_string str = a ++ NL :: b :: c ->
  idle s0 ->
  noCalls sched ->
  let s := run verbose (step verbose s0 (ConsoleExpect str)) sched in
  exists cst,
    caller s = Some (ConsoleExpect_p str, cst) /\
    ConsoleExpect_result cst <> Some None /\
    ((exists buf, cst = Polling buf tt) \/ (exists err, cst = Returned (Some err) tt)).
Proof.
  intros Hstr Hidle Hno s. subst s.
  destruct (call_invariant (ConsoleExpect_p str)
              (fun cst => (exists buf, cst = Polling buf tt)
                          \/ (exists err, cst = Returned (Some err) tt))
              ) with (verbose := verbose) (sched := sched)
              (s := step verbose s0 (ConsoleExpect str))
    as (cst & Hc & Hi).
  - intros cst q [(buf & ->)|(err & ->)]; [|right; now exists err].
    cbn [consoleProcess_step]. destruct (consoleDataArrived q).
    + destruct (lineLoop_scans (ConsoleExpect_p str) (buf ++ consoleData q) tt)
        as (frags & Hs).
      destruct (scans_never_matches_across_lines str a b c _ _ _ _ Hstr Hs)
        as (rest & [] & ->).
      left. now exists rest.
    + destruct (consoleDataEOF q); cbn [fst];
        [right; now exists io_EOF | left; eexists; reflexivity].
  - exact Hno.
  - exists (Polling [] tt). split; [|left; now exists []].
    now apply step_EvCall_idle.
  - exists cst. split; [exact Hc|]. split; [|exact Hi].
    destruct Hi as [(buf & ->)|(err & ->)]; discriminate.
Qed.

(** X8: what a pattern wait returns never mixes fragments.  Whatever the
    console prints and however pump and caller interleave, a list
    returned without error is the list of first groups of the matches of
    one fragment, a fragment that has a match; while the call is still
    polling it has collected nothing. *)
Theorem ConsoleExpectRE_returns_one_fragment verbose (s0 : System (list string))
    re sched :
  idle s0 ->
  noCalls sched ->
  let s := run verbose (step verbose s0 (ExpectRE re)) sched in
  exists cst,
    caller s = Some (REp re, cst) /\
    (forall buf st, cst = Polling buf st -> st = []) /\
    (forall matches,
       ConsoleExpectRE_result cst = Some (matches, None) ->
       exists frag,
         isFragment frag /\ FindAllSubmatch re frag (-1) <> [] /\
         matches = firstGroups (FindAllSubmatch re frag (-1))).
Proof.
  intros Hidle Hno s. subst s.
  destruct (call_invariant (REp re) _
              (fun c q => REp_step_collects Regexp FindAllSubmatch re c q)
              verbose sched (step verbose s0 (ExpectRE re)) Hno)
    as (cst & Hc & Hi).
  - exists (Polling [] []). split; [|reflexivity].
    now apply step_EvCall_idle.
  - exists cst. split; [exact Hc|]. split.
    + intros buf st ->. exact Hi.
    + intros matches Hres.
      destruct cst as [buf st|buf st|[err|] st|]; try discriminate.
      cbn [ConsoleExpectRE_result] in Hres. injection Hres as <-. exact Hi.
Qed.

(** what an iteration does to the flag and the buffer *)
Lemma iter_arrived verbose r fr w :
  let w' := snd (iter verbose r fr w) in
  consoleDataArrived (qemu w') = true \/
  (consoleData (qemu w') = consoleData (qemu w) /\
   consoleDataArrived (qemu w') = consoleDataArrived (qemu w)).
Proof.
  unfold consolePump_iter.
  destruct (0 <? len (rdata r)).
  - left. rewrite pumpDeliver_eq. cbv zeta.
    destruct (rerr r) as [[|msg]|]; reflexivity.
  - right. destruct (rerr r) as [[|msg]|]; split; reflexivity.
Qed.

Lemma step_arrived {A} (p : LineProcessor A) c q :
  let q' := snd (consoleProcess_step p c q) in
  (consoleDataArrived q = true \/ consoleData q = []) ->
  consoleDataArrived q' = true \/ consoleData q' = [].
Proof.
  destruct c as [buf st|buf st|err st|]; cbn [consoleProcess_step]; intros H;
    try exact H.
  - right. destruct (consoleDataArrived q).
    + destruct (lineLoop p _ st); reflexivity.
    + destruct (consoleDataEOF q); reflexivity.
  - now left.
Qed.

(** X9: the flag tells the truth about the buffer.  At every point of
    every session, a line buffer that holds bytes has its "data arrived"
    flag set; so a poll that finds the flag clear, and for that reason
    sleeps or returns [io.EOF], leaves no buffered byte unexamined. *)
Theorem clear_flag_means_empty_buffer {A} verbose dir v (sched : list (event A)) :
  let s := run verbose (sys_entry (Qemu_new dir v)) sched in
  consoleDataArrived (qemu (world s)) = true \/ consoleData (qemu (world s)) = [].
Proof.
  induction sched as [|e sched IH] using rev_ind; [now right|].
  cbv zeta in *. rewrite run_snoc.
  set (s := run verbose (sys_entry (Qemu_new dir v)) sched) in *.
  destruct e as [r|p st|].
  - cbn [sys_step]. destruct (pump s) as [fr|]; [|exact IH].
    pose proof (iter_arrived verbose r fr (world s)) as H. cbv zeta in H.
    destruct (iter verbose r fr (world s)) as [fr' w']. cbn [world snd] in *.
    destruct H as [H|[H1 H2]]; [now left | now rewrite H1, H2].
  - cbn [sys_step].
    destruct (caller s) as [[p0 [b s1|b s1|e1 s1|]]|]; exact IH.
  - destruct (caller s) as [[p c]|] eqn:E.
    + rewrite (step_EvStep _ _ _ verbose s p c E). cbn [world with_qemu qemu].
      now apply step_arrived.
    + cbn [sys_step]. rewrite E. exact IH.
Qed.

Lemma iter_stdout verbose r fr w :
  stdout (snd (iter verbose r fr w)) =
  stdout w ++ (if verbose then delivered Regexp ReplaceAll ansiRe r fr else []).
Proof.
  destruct (iter_consoleData Regexp ReplaceAll ansiRe verbose r fr w) as [_ ->].
  unfold delivered. destruct (0 <? len (rdata r)).
  - now rewrite pumpDeliver_eq.
  - cbn [snd]. destruct verbose; now rewrite app_nil_r.
Qed.

(** a pump that runs alone writes to the sink what it appends *)
Lemma alone_stdout verbose rs : forall fr w,
  exists out,
    consoleData (qemu (snd (pumpRun verbose rs fr w))) = consoleData (qemu w) ++ out /\
    stdout (snd (pumpRun verbose rs fr w)) = stdout w ++ (if verbose then out else []).
Proof.
  induction rs as [|r rs IH]; intros fr w; cbn [consolePump].
  - exists []. destruct verbose; now rewrite !app_nil_r.
  - pose proof (iter_delivers Regexp ReplaceAll ansiRe verbose r fr w) as Hd.
    pose proof (iter_stdout verbose r fr w) as Hs.
    destruct (iter verbose r fr w) as [[fr'|] w']; cbn [snd] in *.
    + destruct (IH fr' w') as (out & H1 & H2).
      exists (delivered Regexp ReplaceAll ansiRe r fr ++ out).
      rewrite H1, H2, Hd, Hs. destruct verbose; now rewrite <- ?app_assoc, ?app_nil_r.
    + exists (delivered Regexp ReplaceAll ansiRe r fr). now rewrite Hd, Hs.
Qed.

(** the caller never writes to the sink *)
Lemma run_stdout {A} verbose q (sched : list (event A)) :
  let s := run verbose (sys_entry q) sched in
  let alone := pumpRun verbose (reads sched) pumpEntry (world_entry q) in
  pump s = fst alone /\ stdout (world s) = stdout (snd alone).
Proof.
  induction sched as [|e sched IH] using rev_ind; [now split|].
  cbv zeta in IH |- *. rewrite run_snoc. unfold reads in *.
  rewrite flat_map_app. cbn [flat_map]. rewrite app_nil_r.
  set (s := run verbose (sys_entry q) sched) in *.
  destruct IH as (Hp & Hs).
  destruct e as [r|p st|].
  - rewrite pumpRun_snoc.
    destruct (pumpRun verbose _ pumpEntry (world_entry q)) as [[fr|] w];
      cbn [fst snd] in Hp, Hs.
    + rewrite (step_EvPump _ _ _ verbose s fr r Hp). cbn [pump world].
      split; [apply iter_frame_indep|]. now rewrite !iter_stdout, Hs.
    + rewrite (step_EvPump_exited _ _ _ verbose s r Hp). now split.
  - rewrite app_nil_r. cbn [sys_step].
    destruct (caller s) as [[p0 [b s1|b s1|e1 s1|]]|]; now split.
  - rewrite app_nil_r. destruct (caller s) as [[p c]|] eqn:E.
    + rewrite (step_EvStep _ _ _ verbose s p c E). now split.
    + cbn [sys_step]. rewrite E. now split.
Qed.

(** X10: the verbose sink shows what the waits get to see.  In a verbose
    session the bytes written to [os.Stdout] are, at every point, exactly
    the bytes the pump has appended to the line buffer so far, in the
    same order, whatever the caller has consumed of them; a session that
    is not verbose writes nothing. *)
Theorem verbose_sink_shows_the_pumped_bytes {A} verbose dir v
    (sched : list (event A)) :
  let s := run verbose (sys_entry (Qemu_new dir v)) sched in
  stdout (world s) =
  if verbose
  then pumped Regexp ReplaceAll ansiRe verbose (Qemu_new dir v) (reads sched)
  else [].
Proof.
  destruct (run_stdout verbose (Qemu_new dir v) sched) as [_ Hs].
  cbv zeta in *. rewrite Hs. unfold pumped.
  destruct (alone_stdout verbose (reads sched) pumpEntry
              (world_entry (Qemu_new dir v))) as (out & H1 & H2).
  rewrite H1, H2. now destruct verbose.
Qed.

End SystemMore.

(** ** More about the lifecycle *)

Section LifecycleMore.

Import Lifecycle Calls.
Local Open Scope string_scope.
Local Open Scope list_scope.

(** [NewQemu], path by path *)
Lemma NewQemu_paths env opts :
  let o := withDefaults opts in
  let dir := fst (env_TempDir env) in
  let mf := path_Join dir "monitor.socket" in
  let cf := path_Join dir "console.socket" in
  let bin := "qemu-system-" +++ Architecture o in
  let args := cmdlineHead o mf cf ++ cmdlineTail o in
  let setup := [TempDir "" "vmtest"; Listen monitorListener mf;
                Listen consoleListener cf] in
  let spawn :=
    setup
    ++ (if Verbose o
        then [LogPrintf ("QEMU command line: " +++ bin +++ " " +++ quoteCmdline args)]
        else [])
    ++ [WithTimeout (Timeout o); Start bin args (Verbose o)] in
  let select err :=
    match env_waitCh env with
    | Some (Some waitErr) => inl waitErr
    | Some None => inr None
    | None => inl err
    end in
  NewQemu env opts =
  match snd (env_TempDir env) with
  | Some e => ([TempDir "" "vmtest"], inl e)
  | None =>
  match env_ListenMonitor env with
  | Some e => ([TempDir "" "vmtest"; Listen monitorListener mf], inl e)
  | None =>
  match env_ListenConsole env with
  | Some e => (setup, inl e)
  | None =>
  if String.eqb (Kernel opts) "" && (0 <? length (Append opts))%nat
  then (setup, inl (errorString "opts.Append only allowed with opts.Kernel option"))
  else
  match env_Start env with
  | Some e => (spawn ++ [CtxCancel], inl (errorString ("starting QEMU: " +++ Error e)))
  | None =>
  match env_AcceptMonitor env with
  | Some e => (spawn ++ [GoWait; Accept monitorListener; PollWaitCh], select e)
  | None =>
  match env_AcceptConsole env with
  | Some e =>
      (spawn ++ [GoWait; Accept monitorListener; Accept consoleListener; PollWaitCh],
       select e)
  | None =>
      (spawn ++ [GoWait; Accept monitorListener; Accept consoleListener;
                 GoConsolePump (Verbose o)],
       inr (Some (Qemu_new dir (Verbose o))))
  end end end end end end.
Proof.
  cbv zeta. unfold NewQemu.
  change (Kernel (withDefaults opts)) with (Kernel opts).
  change (Append (withDefaults opts)) with (Append opts).
  destruct env as [[dir [e1|]] [e2|] [e3|] es eam eac ew];
    cbn [env_TempDir env_ListenMonitor env_ListenConsole env_Start
         env_AcceptMonitor env_AcceptConsole env_waitCh fst snd];
    try reflexivity.
  destruct (String.eqb (Kernel opts) "" && (0 <? length (Append opts))%nat);
    [reflexivity|].
  destruct (Verbose (withDefaults opts));
    destruct es as [e4|]; try reflexivity;
    destruct eam as [e5|]; [destruct ew as [[w|]|]; reflexivity| |
                            destruct ew as [[w|]|]; reflexivity|];
    destruct eac as [e6|]; try reflexivity;
    destruct ew as [[w|]|]; reflexivity.
Qed.

Lemma guard_false opts :
  String.eqb (Kernel opts) "" && (0 <? length (Append opts))%nat = false <->
  (Kernel opts = "" -> Append opts = []).
Proof.
  destruct (String.eqb_spec (Kernel opts) "") as [E|N]; cbn [andb].
  - destruct (Append opts) as [|a l]; cbn; split; try reflexivity;
      try discriminate. intros H. now discriminate (H E).
  - split; [intros _ E; contradiction | reflexivity].
Qed.



(** X13: what [NewQemu] returns when an [Accept] fails, the process
    having been started.  If the process has exited by then with an
    error, that error is returned; if nothing is known of its exit, the
    error of [Accept]; and if it has exited with status nil, [NewQemu]
    returns no session and no error.  In all three cases the pump is not
    started. *)
Theorem NewQemu_after_failed_Accept env opts err :
  snd (env_TempDir env) = None ->
  env_ListenMonitor env = None ->
  env_ListenConsole env = None ->
  (Kernel opts = "" -> Append opts = []) ->
  env_Start env = None ->
  env_AcceptMonitor env = Some err \/
  (env_AcceptMonitor env = None /\ env_AcceptConsole env = Some err) ->
  result (NewQemu env opts) =
    match env_waitCh env with
    | Some (Some waitErr) => inl waitErr
    | Some None => inr None
    | None => inl err
    end /\
  (exists bin args stdio, In (Start bin args stdio) (trace (NewQemu env opts))) /\
  (forall verbose, ~ In (GoConsolePump verbose) (trace (NewQemu env opts))).
Proof.
  intros H1 H2 H3 HG H4 HA. apply guard_false in HG.
  rewrite NewQemu_paths. cbv zeta. rewrite H1, H2, H3, HG, H4.
  destruct HA as [->|[-> ->]]; unfold result, trace; cbn [fst snd];
    (split; [reflexivity|]); (split; [do 3 eexists|]);
    try (apply in_or_app; left; apply in_or_app; right;
         apply in_or_app; right; right; left; reflexivity);
    intros verbose Hin;
    repeat (apply in_app_or in Hin; destruct Hin as [Hin|Hin]);
    destruct (Verbose (withDefaults opts));
    cbn in Hin; intuition discriminate.
Qed.


Lemma diskArgs_length disks : forall i,
  length (diskArgs i disks) = (4 * length disks)%nat.
Proof.
  induction disks as [|d disks IH]; intros i; [reflexivity|].
  cbn [diskArgs length app]. rewrite IH. lia.
Qed.

(** X15: the [k]-th disk of the options is named [hd<k>] twice, in its
    [-drive] argument and in the [drive=] reference of its [-device]
    argument, so each device is tied to its own image; the disk arguments
    are four per disk, in the order of the options. *)
Theorem disk_arguments_pair_up disks k d :
  nth_error disks k = Some d ->
  let args := diskArgs 0 disks in
  length args = (4 * length disks)%nat /\
  nth_error args (4 * k) = Some "-drive" /\
  nth_error args (4 * k + 1) =
    Some ((if String.eqb (Format d) "" then "" else "format=" +++ Format d +++ ",")
          +++ "if=none,id=hd" +++ itoa k +++ ",file=" +++ Path d) /\
  nth_error args (4 * k + 2) = Some "-device" /\
  nth_error args (4 * k + 3) =
    Some (Join ([if String.eqb (Controller d) "" then "scsi-hd" else Controller d;
                 "drive=hd" +++ itoa k] ++ DeviceParams d) ",").
Proof.
  intros H args. subst args. split; [apply diskArgs_length|].
  assert (G : forall disks k i, nth_error disks k = Some d ->
    nth_error (diskArgs i disks) (4 * k) = Some "-drive" /\
    nth_error (diskArgs i disks) (4 * k + 1) =
      Some ((if String.eqb (Format d) "" then "" else "format=" +++ Format d +++ ",")
            +++ "if=none,id=hd" +++ itoa (i + k) +++ ",file=" +++ Path d) /\
    nth_error (diskArgs i disks) (4 * k + 2) = Some "-device" /\
    nth_error (diskArgs i disks) (4 * k + 3) =
      Some (Join ([if String.eqb (Controller d) "" then "scsi-hd" else Controller d;
                   "drive=hd" +++ itoa (i + k)] ++ DeviceParams d) ",")).
  { clear. induction disks as [|d0 disks IH]; intros [|k] i Hk; try discriminate.
    - injection Hk as ->. rewrite Nat.add_0_r. cbn [diskArgs]. repeat split.
    - cbn [nth_error] in Hk. destruct (IH k (S i) Hk) as (G1 & G2 & G3 & G4).
      replace (i + S k)%nat with (S i + k)%nat by lia.
      replace (4 * S k)%nat with (S (S (S (S (4 * k))))) by lia.
      cbn [diskArgs app Nat.add nth_error]. repeat split; assumption. }
  exact (G disks k 0%nat H).
Qed.

(** X16: a session can be terminated once.  The first [Kill] or
    [Shutdown] receives the one value [waitCh] ever holds and releases
    everything; a second call, of either kind, writes its line to the
    monitor, then waits on the empty channel and never returns.  It
    releases nothing a second time: no cancel, no [Close], no
    [RemoveAll]. *)
Theorem second_termination_never_returns k1 k2 v env1 env2 q :
  let '(t1, o1, ch1) := terminate k1 (Some v) env1 q in
  let '(t2, o2, ch2) := terminate k2 ch1 env2 q in
  o1 = Returns /\
  effects t1 =
    [Write monitor (of_string (if k1 then "quit" else "system_powerdown") ++ [NL]);
     RecvWaitCh; CtxCancel;
     Close console; Close consoleListener; Close monitor; Close monitorListener;
     RemoveAll (socketsDir q)] /\
  o2 = BlocksForever /\
  effects t2 =
    [Write monitor (of_string (if k2 then "quit" else "system_powerdown") ++ [NL]);
     RecvWaitCh].
Proof.
  destruct k1, k2, v as [ev|], env1 as [[w1|] x1 [r1|]], env2 as [[w2|] x2 [r2|]];
    cbn; repeat split.
Qed.

(** the first call of [terminate] is [Kill] or [Shutdown] as modelled
    above, with the value received as the process's exit *)
Lemma terminate_first k v env q :
  fst (fst (terminate k (Some v) env q)) =
  trace ((if k then Kill else Shutdown) (with_exit env v) q).
Proof.
  destruct k, v as [ev|], env as [[w1|] x1 [r1|]]; reflexivity.
Qed.

End LifecycleMore.

(** ** The earlier revision against the later one *)

Section RevisionsMore.

Import Lifecycle.
Local Open Scope string_scope.
Local Open Scope list_scope.

(** X19: kernel arguments without a kernel.  For a Linux guest
    [NewQemu] adds [console=ttyS0,115200 ignore_loglevel] to the kernel
    arguments.  With no kernel given, the earlier revision still passes
    them: QEMU is started with [-append] and without [-kernel].  The
    later revision passes [-append] only together with a kernel. *)
Theorem append_without_kernel_for_linux env (oe : Earlier.QemuOptions)
    (ol : QemuOptions) :
  Earlier.OperatingSystem_ oe = OS_LINUX -> Earlier.Kernel oe = "" ->
  Earlier.Append oe = [] ->
  snd (Earlier.env_TempDir env) = None ->
  Earlier.env_ListenMonitor env = None ->
  Earlier.env_ListenConsole env = None ->
  Kernel ol = "" ->
  (exists bin monitorFile consoleFile rest stdio,
     In (Start bin
           (["-monitor"; monitorFile; "-serial"; consoleFile; "-no-reboot";
             "-nographic"; "-display"; "none"]
            ++ (if negb (String.eqb (Earlier.InitRamFs oe) "")
                then ["-initrd"; Earlier.InitRamFs oe] else [])
            ++ "-append" :: "console=ttyS0,115200 ignore_loglevel" :: rest)
           stdio)
        (trace (Earlier.NewQemu env oe))) /\
  cmdlineTail ol =
    (if (0 <? length (Params ol))%nat then Params ol else [])
    ++ (if negb (String.eqb (CdRom ol) "") then ["-boot"; "d"; "-cdrom"; CdRom ol] else [])
    ++ (if (0 <? length (Disks ol))%nat then ["-device"; "virtio-scsi-pci,id=scsi"] else [])
    ++ diskArgs 0 (Disks ol).
Proof.
  intros Hos Hk Ha H1 H2 H3 Hkl. split.
  - unfold Earlier.NewQemu.
    change (Earlier.Kernel (Earlier.withDefaults oe)) with (Earlier.Kernel oe).
    change (Earlier.Append (Earlier.withDefaults oe)) with (Earlier.Append oe).
    destruct (Earlier.env_TempDir env) as [dir e1]. cbn [snd] in H1. subst e1.
    rewrite H2, H3, Hk, Ha. cbn [String.eqb length Nat.ltb Nat.leb andb].
    unfold Earlier.cmdlineHead, Earlier.cmdlineTail.
    change (Earlier.Kernel (Earlier.withDefaults oe)) with (Earlier.Kernel oe).
    change (Earlier.Append (Earlier.withDefaults oe)) with (Earlier.Append oe).
    change (Earlier.OperatingSystem_ (Earlier.withDefaults oe))
      with (Earlier.OperatingSystem_ oe).
    change (Earlier.InitRamFs (Earlier.withDefaults oe)) with (Earlier.InitRamFs oe).
    rewrite Hos, Hk, Ha.
    cbn [String.eqb negb app length Nat.ltb Nat.leb Join String.concat].
    destruct (Earlier.Verbose (Earlier.withDefaults oe));
      destruct (Earlier.env_Start env);
      destruct (Earlier.env_AcceptMonitor env);
      destruct (Earlier.env_AcceptConsole env);
      do 5 eexists;
      cbn [trace fst bind emit try ret fail app];
      rewrite <- ?app_assoc; cbn [app];
      repeat (first [left; reflexivity | right]).
  - unfold cmdlineTail. rewrite Hkl. cbn [String.eqb negb andb].
    now rewrite andb_false_r.
Qed.

End RevisionsMore.

(** ** After the end of the stream *)

Section StreamEnd.

Variable Regexp : Type.
Variable ReplaceAll : Regexp -> bytes -> bytes -> bytes.
Variable ansiRe : Regexp.

Local Abbreviation iter := (consolePump_iter Regexp ReplaceAll ansiRe).
Local Abbreviation step := (sys_step Regexp ReplaceAll ansiRe).
Local Abbreviation run := (sys_run Regexp ReplaceAll ansiRe).

(** an iteration sets the flag only as the pump returns *)
Lemma iter_EOF verbose r fr w :
  fst (iter verbose r fr w) = None \/
  consoleDataEOF (qemu (snd (iter verbose r fr w))) = consoleDataEOF (qemu w).
Proof.
  unfold consolePump_iter.
  destruct (rerr r) as [[|msg]|].
  - left. now destruct (if 0 <? len (rdata r) then _ else _).
  - left. now destruct (if 0 <? len (rdata r) then _ else _).
  - right. destruct (0 <? len (rdata r)); [|reflexivity].
    now rewrite pumpDeliver_eq.
Qed.

(** X20: the "stream ended" flag is raised by the pump as it returns and
    by nothing else: at every point of every session, if the flag is set
    the pump has returned, so no byte can arrive after the flag. *)
Theorem stream_ended_flag_means_pump_returned {A} verbose dir v
    (sched : list (event A)) :
  let s := run verbose (sys_entry (Qemu_new dir v)) sched in
  consoleDataEOF (qemu (world s)) = false \/ pump s = None.
Proof.
  induction sched as [|e sched IH] using rev_ind; [now left|].
  cbv zeta in *. rewrite run_snoc.
  set (s := run verbose (sys_entry (Qemu_new dir v)) sched) in *.
  destruct e as [r|p st|].
  - cbn [sys_step]. destruct (pump s) as [fr|] eqn:E;
      [|destruct IH as [IH|_]; [now left | now right]].
    pose proof (iter_EOF verbose r fr (world s)) as H.
    destruct (iter verbose r fr (world s)) as [fr' w']. cbn [pump world fst snd] in *.
    destruct H as [H|H]; [now right|].
    destruct IH as [IH|IH]; [left; now rewrite H | discriminate].
  - cbn [sys_step].
    destruct (caller s) as [[p0 [b s1|b s1|e1 s1|]]|]; exact IH.
  - destruct (caller s) as [[p c]|] eqn:E.
    + rewrite (step_EvStep _ _ _ verbose s p c E). cbn [pump world with_qemu qemu].
      now rewrite step_keeps_EOF.
    + cbn [sys_step]. rewrite E. exact IH.
Qed.




End StreamEnd.

(** ** The first revision *)

Section FirstRevision.

Variable Regexp : Type.
Variable ReplaceAll : Regexp -> bytes -> bytes -> bytes.
Variable ansiRe : Regexp.
Variable emptyLineRe : Regexp.

Local Abbreviation sanitize := (First.sanitizeText Regexp ReplaceAll ansiRe emptyLineRe).
Local Abbreviation round := (First.ConsoleProcess_iter Regexp ReplaceAll ansiRe emptyLineRe).
Local Abbreviation process := (First.ConsoleProcess Regexp ReplaceAll ansiRe emptyLineRe).
Local Abbreviation expect := (First.ConsoleExpect Regexp ReplaceAll ansiRe emptyLineRe).
Local Abbreviation session := (First.waits Regexp ReplaceAll ansiRe emptyLineRe).

Lemma LastIndexByte_last pre c post :
  ~ In c post -> LastIndexByte (pre ++ c :: post) c = len pre.
Proof.
  intros H. induction pre as [|x pre IH]; cbn [app LastIndexByte].
  - apply LastIndexByte_none in H. rewrite H. cbn. now rewrite eqb_refl.
  - rewrite IH. unfold len. cbn [length].
    destruct (Z.of_nat (length pre) =? -1) eqn:E; [apply Z.eqb_eq in E|]; lia.
Qed.

Lemma cut_at_last pre post :
  upto (pre ++ NL :: post) (len pre + 1) = pre ++ [NL] /\
  from (pre ++ NL :: post) (len pre + 1) = post.
Proof.
  replace (pre ++ NL :: post) with ((pre ++ [NL]) ++ post)
    by now rewrite <- app_assoc.
  replace (len pre + 1) with (len (pre ++ [NL]))
    by (unfold len; rewrite length_app; cbn [length]; lia).
  now rewrite upto_app_len, from_app_len.
Qed.

(** a round leaves no newline in the line buffer *)
Lemma round_no_newline {A} (p : LineProcessor A) verbose r st s :
  ~ In NL (First.consoleData s) ->
  ~ In NL (First.consoleData (snd (round p verbose r st s))).
Proof.
  intros H. unfold First.ConsoleProcess_iter.
  destruct (rerr r); [exact H|].
  destruct (0 <? len (rdata r)); [|exact H].
  set (data := First.consoleData s ++ rdata r).
  assert (K : ~ In NL (if negb (LastIndexByte data NL =? -1)
                       then from data (LastIndexByte data NL + 1) else data)).
  { destruct (LastIndexByte data NL =? -1) eqn:E; cbn [negb].
    - apply Z.eqb_eq in E. now apply LastIndexByte_none.
    - apply Z.eqb_neq in E.
      destruct (LastIndexByte_split _ _ E) as (pre & post & Hd & Hn & Hi).
      rewrite Hi, Hd. now rewrite (proj2 (cut_at_last pre post)). }
  destruct (p st _) as [[[|] st']|]; cbn [snd First.consoleData]; try exact K.
  destruct (negb _); [intros [] | exact K].
Qed.

Lemma process_no_newline {A} (p : LineProcessor A) verbose rs : forall st s,
  ~ In NL (First.consoleData s) ->
  ~ In NL (First.consoleData (snd (process p verbose rs st s))).
Proof.
  induction rs as [|r rs IH]; intros st s H; cbn [First.ConsoleProcess]; [exact H|].
  pose proof (round_no_newline p verbose r st s H) as K.
  destruct (round p verbose r st s) as [[st'|err st'|] s']; cbn [snd] in *;
    [now apply IH | exact K | exact K].
Qed.

(** X22: in the first revision the line buffer never holds a newline.
    Whatever waits are made from the start of a session, with whatever
    processors and reads, what a wait leaves in [consoleData] is an
    unterminated rest: complete lines are handed to the processor once
    and never kept. *)
Theorem first_revision_keeps_no_line {A} verbose
    (calls : list (LineProcessor A * A * list ReadResult)) :
  ~ In NL (First.consoleData (session verbose calls First.entry)).
Proof.
  unfold First.waits.
  assert (G : forall s, ~ In NL (First.consoleData s) ->
    ~ In NL (First.consoleData
      (fold_left (fun s c => let '(p, st, rs) := c in
                             snd (process p verbose rs st s)) calls s))).
  { induction calls as [|[[p st] rs] calls IH]; intros s H; cbn [fold_left];
      [exact H|].
    apply IH. now apply process_no_newline. }
  apply G. intros [].
Qed.

(** X23: in the first revision the processor is handed all complete
    lines read so far at once, so a literal wait finds its text anywhere
    in them, across line boundaries too; and on such a match the bytes
    read after the last newline are thrown away, unseen by this wait and
    lost to the next. *)
Theorem first_revision_match_drops_rest verbose r rs s str pre post rest :
  rerr r = None ->
  rdata r = pre ++ of_string str ++ post ++ NL :: rest ->
  ~ In NL rest ->
  expect str verbose (r :: rs) s =
    (First.Done None tt,
     {| First.consoleData := [];
        First.stdout :=
          if verbose
          then First.stdout s ++
               sanitize (First.consoleData s ++ pre ++ of_string str ++ post ++ [NL])
          else First.stdout s |}).
Proof.
  intros He Hd Hn.
  unfold First.ConsoleExpect. cbn [First.ConsoleProcess].
  unfold First.ConsoleProcess_iter. rewrite He.
  assert (Hl : (0 <? len (rdata r)) = true).
  { apply Z.ltb_lt. rewrite Hd. unfold len. rewrite !length_app. cbn [length]. lia. }
  rewrite Hl.
  assert (E : First.consoleData s ++ rdata r =
              (First.consoleData s ++ pre ++ of_string str ++ post) ++ NL :: rest).
  { rewrite Hd. now rewrite <- !app_assoc. }
  rewrite E, (LastIndexByte_last _ NL rest Hn).
  assert (Hi : (len (First.consoleData s ++ pre ++ of_string str ++ post) =? -1) = false).
  { apply Z.eqb_neq. unfold len. lia. }
  rewrite Hi. cbn [negb].
  rewrite (proj1 (cut_at_last _ rest)).
  assert (C : Contains ((First.consoleData s ++ pre ++ of_string str ++ post) ++ [NL])
                       (of_string str) = true).
  { replace ((First.consoleData s ++ pre ++ of_string str ++ post) ++ [NL])
      with ((First.consoleData s ++ pre) ++ of_string str ++ (post ++ [NL]))
      by now rewrite <- !app_assoc.
    apply Contains_app. }
  unfold ConsoleExpect_p. rewrite C.
  now rewrite <- !app_assoc.
Qed.

Lemma Contains_prefix pre s : forall post,
  Contains pre s = true -> Contains (pre ++ post) s = true.
Proof.
  intros post H. destruct (Contains_split _ _ H) as (a & b & ->).
  rewrite <- !app_assoc. apply Contains_app.
Qed.

(** X24: in the first revision a text matched on an unterminated line
    stays in the line buffer, and the next wait for it succeeds on its
    first read that stores a byte, whatever that byte is: one occurrence
    satisfies both waits. *)
Theorem first_revision_matches_rest_again verbose r1 rs1 r2 rs2 s str :
  ~ In NL (First.consoleData s) ->
  rerr r1 = None -> 0 < len (rdata r1) -> ~ In NL (rdata r1) ->
  Contains (First.consoleData s ++ rdata r1) (of_string str) = true ->
  rerr r2 = None -> 0 < len (rdata r2) ->
  let first := expect str verbose (r1 :: rs1) s in
  let second := expect str verbose (r2 :: rs2) (snd first) in
  fst first = First.Done None tt /\
  First.consoleData (snd first) = First.consoleData s ++ rdata r1 /\
  fst second = First.Done None tt.
Proof.
  intros Hs He1 Hl1 Hn1 Hc He2 Hl2.
  assert (N1 : LastIndexByte (First.consoleData s ++ rdata r1) NL = -1).
  { apply LastIndexByte_none. intros H. apply in_app_or in H. tauto. }
  assert (F : expect str verbose (r1 :: rs1) s =
    (First.Done None tt,
     {| First.consoleData := First.consoleData s ++ rdata r1;
        First.stdout := if verbose
                        then First.stdout s ++ sanitize (First.consoleData s ++ rdata r1)
                        else First.stdout s |})).
  { unfold First.ConsoleExpect. cbn [First.ConsoleProcess].
    unfold First.ConsoleProcess_iter. rewrite He1.
    apply Z.ltb_lt in Hl1. rewrite Hl1, N1, Z.eqb_refl. cbn [negb].
    unfold ConsoleExpect_p. now rewrite Hc. }
  cbv zeta. rewrite F. cbn [fst snd First.consoleData].
  split; [reflexivity|]. split; [reflexivity|].
  unfold First.ConsoleExpect. cbn [First.ConsoleProcess].
  unfold First.ConsoleProcess_iter. rewrite He2.
  apply Z.ltb_lt in Hl2. rewrite Hl2. cbn [First.consoleData].
  set (d := First.consoleData s ++ rdata r1) in *.
  assert (T : Contains (if negb (LastIndexByte (d ++ rdata r2) NL =? -1)
                        then upto (d ++ rdata r2) (LastIndexByte (d ++ rdata r2) NL + 1)
                        else d ++ rdata r2) (of_string str) = true).
  { destruct (LastIndexByte (d ++ rdata r2) NL =? -1) eqn:E; cbn [negb].
    - now apply Contains_prefix.
    - apply Z.eqb_neq in E.
      destruct (LastIndexByte_split _ _ E) as (pre & post & Hd & Hn & Hi).
      rewrite Hi, Hd, (proj1 (cut_at_last pre post)).
      (* the last newline lies in the bytes of the second read *)
      assert (P : exists m, pre ++ [NL] = d ++ m).
      { assert (Hnd : ~ In NL d) by (now apply LastIndexByte_none).
        clear - Hd Hnd. revert pre Hd.
        induction d as [|x d IH]; intros pre Hd.
        - now exists (pre ++ [NL]).
        - destruct pre as [|y pre]; cbn [app] in Hd.
          + injection Hd as Hx _. exfalso. apply Hnd. now left.
          + injection Hd as Hx Hd. subst y.
            destruct (IH (fun H => Hnd (or_intror H)) pre Hd) as (m & Hm).
            exists m. cbn [app]. now rewrite Hm. }
      destruct P as (m & ->). now apply Contains_prefix. }
  unfold ConsoleExpect_p. rewrite T. reflexivity.
Qed.

Lemma process_app {A} (p : LineProcessor A) verbose rs1 : forall rs2 st s,
  process p verbose (rs1 ++ rs2) st s =
  match process p verbose rs1 st s with
  | (First.Reading st', s') => process p verbose rs2 st' s'
  | res => res
  end.
Proof.
  induction rs1 as [|r rs1 IH]; intros rs2 st s; cbn [app First.ConsoleProcess];
    [reflexivity|].
  destruct (round p verbose r st s) as [[st'|err st'|] s']; [apply IH | | ];
    reflexivity.
Qed.

(** X25: in the first revision the verbose echo repeats unterminated
    text.  While reads bring no newline and the processor does not
    match, each read makes the call write to [os.Stdout] the whole rest
    again, old bytes and new, sanitized: after the reads the sink holds
    one echo per read, each of everything read so far. *)
Theorem first_revision_echo_repeats {A} (p : LineProcessor A) rs : forall st s,
  (forall st data, exists st', p st data = Some (false, st')) ->
  ~ In NL (First.consoleData s) ->
  Forall plainRead rs ->
  exists st',
    process p true rs st s =
      (First.Reading st',
       {| First.consoleData := First.consoleData s ++ concat (map rdata rs);
          First.stdout :=
            First.stdout s ++
            concat (map sanitize (cumulative (First.consoleData s) rs)) |}).
Proof.
  induction rs as [|r rs IH]; intros st s Hp Hs Hr.
  - exists st. cbn [First.ConsoleProcess map concat cumulative].
    rewrite !app_nil_r. now destruct s.
  - inversion Hr as [|r0 rs0 (He & Hl & Hn) Hr']; subst.
    cbn [First.ConsoleProcess]. unfold First.ConsoleProcess_iter.
    rewrite He. apply Z.ltb_lt in Hl. rewrite Hl.
    assert (N : LastIndexByte (First.consoleData s ++ rdata r) NL = -1).
    { apply LastIndexByte_none. intros H. apply in_app_or in H. tauto. }
    rewrite N, Z.eqb_refl. cbn [negb].
    destruct (Hp st (First.consoleData s ++ rdata r)) as (st1 & ->).
    set (s1 := {| First.consoleData := First.consoleData s ++ rdata r;
                  First.stdout := First.stdout s ++
                                  sanitize (First.consoleData s ++ rdata r) |}).
    destruct (IH st1 s1 Hp) as (st' & E).
    + subst s1. cbn [First.consoleData]. intros H. apply in_app_or in H. tauto.
    + exact Hr'.
    + exists st'. rewrite E. subst s1. cbn [First.consoleData First.stdout].
      cbn [map concat cumulative]. now rewrite <- !app_assoc.
Qed.

End FirstRevision.

(** ** Quoting of the logged command line *)

(** [strings.ContainsAny] sees a character of the front part *)
Lemma ContainsAny_app a b chars :
  Lifecycle.ContainsAny a chars = true ->
  Lifecycle.ContainsAny (String.append a b) chars = true.
Proof.
  induction a as [|c a IH]; cbn [Lifecycle.ContainsAny String.append];
    [discriminate|].
  intros H. apply orb_true_iff in H. apply orb_true_iff.
  destruct H as [H|H]; [now left | right; now apply IH].
Qed.

Lemma append_assoc (a b c : string) :
  String.append (String.append a b) c = String.append a (String.append b c).
Proof. induction a as [|x a IH]; cbn [String.append]; [reflexivity | now rewrite IH]. Qed.

(** X26: [quoteCmdline] wraps an argument with white space in single
    quotes and escapes nothing, so the line it builds for the log does
    not tell the arguments apart: two arguments with white space are
    logged as the one argument made of them and [' '] between. *)
Theorem quoteCmdline_is_ambiguous a b :
  Lifecycle.ContainsAny a [" "%char; Ascii.ascii_of_nat 9; Ascii.ascii_of_nat 10] = true ->
  Lifecycle.ContainsAny b [" "%char; Ascii.ascii_of_nat 9; Ascii.ascii_of_nat 10] = true ->
  Lifecycle.quoteCmdline [a; b] =
  Lifecycle.quoteCmdline [String.append a (String.append "' '" b)].
Proof.
  intros Ha Hb. unfold Lifecycle.quoteCmdline, Lifecycle.Join.
  cbn [map String.concat].
  rewrite Ha, Hb, (ContainsAny_app a _ _ Ha).
  rewrite !append_assoc. cbn [String.append]. reflexivity.
Qed.

(** ** These statements on concrete sessions *)

Section ExamplesMore.

Import GoRegexp Session.
Local Open Scope string_scope.
Local Open Scope list_scope.

Lemma X2_witness :
  let r := mkRead (text "boot ok~^[3") None in
  let res := pump_iter false r pumpEntry (world_entry q0) in
  exists fr' appended,
    fst res = Some fr' /\
    consoleData (qemu (snd res)) = [] ++ appended /\
    appended ++ carried fr' = text "boot ok~^[3" /\
    frame_ok fr' /\
    forall r2, read_ok fr' r2 -> readChunk fr' r2 = carried fr' ++ rdata r2.
Proof.
  exact (iteration_delivers_or_keeps Regexp ReplaceAll ansiRe false
           (mkRead (text "boot ok~^[3") None) pumpEntry (world_entry q0)
           pumpEntry_ok ltac:(vm_compute; discriminate) eq_refl eq_refl).
Defined.

Lemma X3_witness :
  let r1 := mkRead (text "Password: ^[3") None in
  let r2 := mkRead [] (Some io_EOF) in
  let res := pump_run false [r1; r2; mkRead (text "3m") None] pumpEntry
               (world_entry q0) in
  exists fr1,
    fst (pump_iter false r1 pumpEntry (world_entry q0)) = Some fr1 /\
    fst res = None /\
    consoleData (qemu (snd res)) ++ carried fr1 = [] ++ text "Password: ^[3".
Proof.
  exact (kept_tail_is_dropped_on_exit Regexp ReplaceAll ansiRe false
           (mkRead (text "Password: ^[3") None) (mkRead [] (Some io_EOF))
           [mkRead (text "3m") None] pumpEntry (world_entry q0) io_EOF
           pumpEntry_ok ltac:(vm_compute; discriminate) eq_refl eq_refl
           eq_refl eq_refl).
Defined.

Lemma X5_witness :
  let str := ctl "login:~Password" in
  let s := system_run false
             (system_step false (sys_entry q0) (ConsoleExpect str))
             [EvPump (mkRead (text "login:~Password: ") None); EvStep; EvStep] in
  exists cst,
    caller s = Some (ConsoleExpect_p str, cst) /\
    ConsoleExpect_result cst <> Some None /\
    ((exists buf, cst = Polling buf tt) \/ (exists err, cst = Returned (Some err) tt)).
Proof.
  apply (ConsoleExpect_never_matches_across_lines Regexp ReplaceAll ansiRe false
           (sys_entry q0) (ctl "login:~Password")
           (text "login:") "P"%byte (text "assword")).
  - reflexivity.
  - exact I.
  - repeat constructor.
Defined.

Lemma X6_witness :
  let q := set_consoleData q0 (text "Welcome~login: root~Last") true in
  let q' := set_consoleData q0 (text " login") true in
  let p := ConsoleExpect_p "login:" in
  let c1 := fst (consoleProcess_step p (Polling [] tt) q) in
  let res := consoleProcess_step p c1 q' in
  exists kept,
    c1 = Requeue kept tt /\
    ConsoleExpect_result (fst res) = Some None /\
    consoleData (snd res) = kept ++ consoleData q' /\
    ((isLine (text "login: root~") /\ kept = text "Last")
     \/ (~ In NL (text "login: root~") /\ kept = text "login: root~")).
Proof.
  apply (ConsoleExpect_consumes_to_first_match "login:" []
           (set_consoleData q0 (text "Welcome~login: root~Last") true)
           (set_consoleData q0 (text " login") true)
           [text "Welcome~"] (text "login: root~") (text "Last")).
  - reflexivity.
  - reflexivity.
  - repeat constructor. exists (text "Welcome").
    split; [reflexivity | apply no_byte; reflexivity].
  - repeat constructor.
  - left. exists (text "login: root").
    split; [reflexivity | apply no_byte; reflexivity].
  - reflexivity.
Defined.

Lemma X7_witness :
  let re := Str "login:" in
  let q := set_consoleData q0 (text "Welcome~archlinux login: ") true in
  let c1 := fst (consoleProcess_step (ExpectRE_p re) (Polling [] []) q) in
  c1 = Panicked /\
  ConsoleExpectRE_result c1 = None /\
  forall q2, fst (consoleProcess_step (ExpectRE_p re) c1 q2) = Panicked.
Proof.
  apply (ConsoleExpectRE_panics_without_group Regexp FindAllSubmatch
           (Str "login:") [] []
           (set_consoleData q0 (text "Welcome~archlinux login: ") true)
           [text "Welcome~"] (text "archlinux login: ") []).
  - reflexivity.
  - reflexivity.
  - repeat constructor. exists (text "Welcome").
    split; [reflexivity | apply no_byte; reflexivity].
  - repeat constructor.
  - right. split; [apply no_byte; reflexivity | reflexivity].
  - assert (E : FindAllSubmatch (Str "login:") (text "archlinux login: ") (-1)
                = [[text "login:"]]) by (vm_compute; reflexivity).
    rewrite E. apply Exists_cons_hd. simpl. lia.
Defined.

Lemma X8_witness :
  let s := system_run false
             (system_step false (sys_entry q0) (ExpectRE re_exit_code))
             [EvStep; EvPump (mkRead (text "exit_code=42~") None); EvStep; EvStep] in
  exists cst,
    caller s = Some (ExpectRE_p re_exit_code, cst) /\
    (forall buf st, cst = Polling buf st -> st = []) /\
    (forall matches,
       ConsoleExpectRE_result cst = Some (matches, None) ->
       exists frag,
         isFragment frag /\ FindAllSubmatch re_exit_code frag (-1) <> [] /\
         matches = firstGroups (FindAllSubmatch re_exit_code frag (-1))).
Proof.
  apply (ConsoleExpectRE_returns_one_fragment Regexp ReplaceAll FindAllSubmatch
           ansiRe false (sys_entry q0) re_exit_code).
  - exact I.
  - repeat constructor.
Defined.


Lemma X23_witness :
  First.Patterns.expect (ctl "Welcome~to") false
    [mkRead (text "Welcome~to arch~res") None] First.entry =
  (First.Done None tt,
   {| First.consoleData := [];
      First.stdout :=
        if false
        then First.stdout First.entry ++
             First.Patterns.sanitize
               (First.consoleData First.entry ++ [] ++ of_string (ctl "Welcome~to")
                ++ text " arch" ++ [NL])
        else First.stdout First.entry |}).
Proof.
  exact (first_revision_match_drops_rest Regexp ReplaceAll
           First.Patterns.ansiRe First.Patterns.emptyLineRe false
           (mkRead (text "Welcome~to arch~res") None) [] First.entry
           (ctl "Welcome~to") [] (text " arch") (text "res")
           eq_refl eq_refl ltac:(vm_compute; intuition discriminate)).
Defined.

Lemma X24_witness :
  let first := First.Patterns.expect "Password:" true
                 [mkRead (text "Password: ") None] First.entry in
  let second := First.Patterns.expect "Password:" true
                  [mkRead (text "x") None] (snd first) in
  fst first = First.Done None tt /\
  First.consoleData (snd first) = First.consoleData First.entry ++ text "Password: " /\
  fst second = First.Done None tt.
Proof.
  exact (first_revision_matches_rest_again Regexp ReplaceAll
           First.Patterns.ansiRe First.Patterns.emptyLineRe true
           (mkRead (text "Password: ") None) []
           (mkRead (text "x") None) [] First.entry "Password:"
           ltac:(vm_compute; intuition discriminate)
           eq_refl ltac:(vm_compute; reflexivity)
           ltac:(vm_compute; intuition discriminate)
           eq_refl eq_refl ltac:(vm_compute; reflexivity)).
Defined.

Lemma X25_witness :
  exists st',
    First.Patterns.process (fun (st : unit) (_ : bytes) => Some (false, st)) true
      [mkRead (text "Pass") None; mkRead (text "word: ") None] tt First.entry =
    (First.Reading st',
     {| First.consoleData :=
          First.consoleData First.entry ++
          concat (map rdata [mkRead (text "Pass") None; mkRead (text "word: ") None]);
        First.stdout :=
          First.stdout First.entry ++
          concat (map First.Patterns.sanitize
                    (cumulative (First.consoleData First.entry)
                       [mkRead (text "Pass") None; mkRead (text "word: ") None])) |}).
Proof.
  exact (first_revision_echo_repeats Regexp ReplaceAll
           First.Patterns.ansiRe First.Patterns.emptyLineRe
           (fun (st : unit) (_ : bytes) => Some (false, st))
           [mkRead (text "Pass") None; mkRead (text "word: ") None] tt First.entry
           (fun st _ => ex_intro _ st eq_refl)
           ltac:(vm_compute; intuition discriminate)
           ltac:(repeat apply Forall_cons; try apply Forall_nil;
                 (split; [reflexivity | split; [vm_compute; reflexivity
                                               | vm_compute; intuition discriminate]]))).
Defined.

Lemma X26_witness :
  Lifecycle.quoteCmdline ["root=/dev/sda rw"; "console=ttyS0 debug"] =
  Lifecycle.quoteCmdline
    [String.append "root=/dev/sda rw" (String.append "' '" "console=ttyS0 debug")].
Proof.
  exact (quoteCmdline_is_ambiguous "root=/dev/sda rw" "console=ttyS0 debug"
           eq_refl eq_refl).
Defined.

(** the echo of the first revision on these two reads, sanitized *)
Example first_revision_echo :
  First.stdout
    (snd (First.Patterns.process (fun (st : unit) (_ : bytes) => Some (false, st)) true
            [mkRead (text "^[1mPass") None; mkRead (text "word: ") None]
            tt First.entry)) =
  text "PassPassword: ".
Proof. vm_compute. reflexivity. Qed.

(** [sanitizeText] drops the escape sequences and folds empty lines *)
Example first_revision_sanitize :
  First.Patterns.sanitize (text "^[2J^[0;32mok^[0m~~  ~done~") = text "ok~done~".
Proof. vm_compute. reflexivity. Qed.

Lemma X13_witness :
  let env :=
    {| Lifecycle.env_TempDir := ("/tmp/vmtest123", None);
       Lifecycle.env_ListenMonitor := None;
       Lifecycle.env_ListenConsole := None;
       Lifecycle.env_Start := None;
       Lifecycle.env_AcceptMonitor :=
         Some (errorString "accept unix monitor.socket: use of closed network connection");
       Lifecycle.env_AcceptConsole := None;
       Lifecycle.env_waitCh := Some None |} in
  let opts :=
    {| Lifecycle.Architecture := "arm";
       Lifecycle.OperatingSystem_ := Lifecycle.OS_OTHER;
       Lifecycle.Params := ["-M"; "versatilepb"; "-m"; "128M"];
       Lifecycle.Verbose := false;
       Lifecycle.Timeout := 5000000000;
       Lifecycle.Kernel := "testdata/hello-arm.bin";
       Lifecycle.InitRamFs := "";
       Lifecycle.Disks := [];
       Lifecycle.Append := [];
       Lifecycle.CdRom := "" |} in
  Lifecycle.result (Lifecycle.NewQemu env opts) = inr None.
Proof.
  intros env opts.
  exact (proj1 (NewQemu_after_failed_Accept env opts
                  (errorString "accept unix monitor.socket: use of closed network connection")
                  eq_refl eq_refl eq_refl ltac:(discriminate) eq_refl
                  (or_introl eq_refl))).
Defined.

Lemma X15_witness :
  let disks :=
    [Lifecycle.mkDisk "testdata/luksv2.disk" "raw" "" [];
     Lifecycle.mkDisk "rootfs.cow" "qcow2" "virtio-blk-pci" ["serial=root"]] in
  let args := Lifecycle.diskArgs 0 disks in
  length args = 8%nat /\
  nth_error args 4 = Some "-drive" /\
  nth_error args 5 = Some "format=qcow2,if=none,id=hd1,file=rootfs.cow" /\
  nth_error args 6 = Some "-device" /\
  nth_error args 7 = Some "virtio-blk-pci,drive=hd1,serial=root".
Proof.
  exact (disk_arguments_pair_up
           [Lifecycle.mkDisk "testdata/luksv2.disk" "raw" "" [];
            Lifecycle.mkDisk "rootfs.cow" "qcow2" "virtio-blk-pci" ["serial=root"]]
           1 (Lifecycle.mkDisk "rootfs.cow" "qcow2" "virtio-blk-pci" ["serial=root"])
           eq_refl).
Defined.

Lemma X17_witness :
  let env :=
    {| Earlier.env_TempDir := ("/tmp/vmtest123", None);
       Earlier.env_ListenMonitor := None;
       Earlier.env_ListenConsole := None;
       Earlier.env_Start := None;
       Earlier.env_AcceptMonitor := None;
       Earlier.env_AcceptConsole := None |} in
  let opts :=
    {| Earlier.Architecture := "";
       Earlier.OperatingSystem_ := Lifecycle.OS_OTHER;
       Earlier.Params := [];
       Earlier.Verbose := true;
       Earlier.Timeout := 0;
       Earlier.Kernel := "";
       Earlier.InitRamFs := "";
       Earlier.Disks := ["rootfs.raw"];
       Earlier.Append := ["root=/dev/sda"; "rw"];
       Earlier.CdRom := "" |} in
  (exists err, Lifecycle.result (Earlier.NewQemu env opts) = inl err) /\
  forall binary args stdio,
    ~ In (Lifecycle.Start binary args stdio)
         (Lifecycle.trace (Earlier.NewQemu env opts)).
Proof.
  intros env opts.
  exact (Append_without_Kernel_starts_nothing_earlier env opts eq_refl
           ltac:(discriminate)).
Defined.

Lemma X19_witness :
  let env :=
    {| Earlier.env_TempDir := ("/tmp/vmtest123", None);
       Earlier.env_ListenMonitor := None;
       Earlier.env_ListenConsole := None;
       Earlier.env_Start := None;
       Earlier.env_AcceptMonitor := None;
       Earlier.env_AcceptConsole := None |} in
  let oe :=
    {| Earlier.Architecture := "";
       Earlier.OperatingSystem_ := Lifecycle.OS_LINUX;
       Earlier.Params := [];
       Earlier.Verbose := false;
       Earlier.Timeout := 0;
       Earlier.Kernel := "";
       Earlier.InitRamFs := "";
       Earlier.Disks := [];
       Earlier.Append := [];
       Earlier.CdRom := "archlinux.iso" |} in
  exists bin rest stdio,
    In (Lifecycle.Start bin
          (["-monitor"; "unix:/tmp/vmtest123/monitor.socket";
            "-serial"; "unix:/tmp/vmtest123/console.socket"; "-no-reboot";
            "-nographic"; "-display"; "none";
            "-append"; "console=ttyS0,115200 ignore_loglevel"] ++ rest)
          stdio)
       (Lifecycle.trace (Earlier.NewQemu env oe)).
Proof.
  intros env oe.
  destruct (append_without_kernel_for_linux env oe opts_no_kernel
              eq_refl eq_refl eq_refl eq_refl eq_refl eq_refl eq_refl)
    as [(bin & mf & cf & rest & stdio & Hin) _].
  exists bin, rest, stdio.
  vm_compute in Hin |- *.
  repeat (destruct Hin as [Hin|Hin]; [try discriminate|]); try contradiction.
  injection Hin as <- <- <- <- <-. do 4 right. left. reflexivity.
Defined.

End ExamplesMore.
